(** * Qt_VTK part tree: a shallow embedding of ModelPart, ModelPartList and
      the tree-related handlers of MainWindow, with the properties of the
      part tree, of the render synchronisation and of the load and delete
      handlers.

    The C++ program keeps a tree of heap-allocated [ModelPart] objects.  A
    node owns its children (its destructor deletes them) and keeps a
    non-owning pointer to its parent.  The embedding keeps that shape:

    - an object is a record carrying its own address [m_addr] (the value of
      [this]); the owned children are stored inside the owner, so deleting
      a node deletes its subtree; the parent pointer is a field holding an
      address, written by [appendChild] as in the source;
    - a [ModelPart*] is an address; following it is a search of the tree
      ([find_part]); a method call through a pointer rewrites the node that
      has that address ([update_part]).  Following a pointer that is null
      or leads to no live object is undefined in C++; where the code does
      it the model leaves the state as it is, and every statement that
      depends on a pointer says that it is live;
    - [int] is [Z]; the sums the code forms are taken without overflow,
      which is undefined behaviour in C++, and a statement about a sum of
      arguments says that it stays within [int] ([INT_MAX]);
    - text is a string of 8-bit characters; case folding is that of ASCII
      text, and the statements about the search say that the text is
      ASCII;
    - the answers of the dialogs and what the STL reader produced are
      arguments of the handlers; the identities of new objects come from
      two counters kept with the window;
    - what the GUI and VTK are told (signals, message boxes, renderer
      calls) is appended to an event log, oldest first.

    Layout: the code ([ModelPart], [ModelPartList], [MainWindow]); the
    vocabulary of the statements ([Spec], [Notions]); facts about trees, the
    render walk, the model, the window and its invariant; the claims;
    facts about indices, the search, what the tree shows, the handlers and
    sessions; further properties of the code. *)

From Stdlib Require Import ZifyBool.
From stdpp Require Import base numbers list strings pretty.

Local Open Scope string_scope.
Local Open Scope Z_scope.

(** ** Qt and VTK value types *)

(** Address of a [ModelPart] object. *)
Definition addr := nat.

(** The largest [int]. *)
Definition INT_MAX : Z := 2147483647.

(** A [QVariant] of this program is either invalid ([QVariant()]) or holds
    a string. *)
Inductive QVariant :=
| QVariant_invalid
| QVariant_str (s : string).

Definition toString (v : QVariant) : string :=
  match v with
  | QVariant_invalid => ""
  | QVariant_str s => s
  end.

#[global] Instance QVariant_eq_dec : EqDecision QVariant.
Proof. solve_decision. Defined.

(** [QColor], through its accessors [red()], [green()], [blue()]. *)
Record QColor := mkQColor { red : Z; green : Z; blue : Z }.

#[global] Instance QColor_eq_dec : EqDecision QColor.
Proof. solve_decision. Defined.

(** [QColor()] is the invalid colour; its components read 0. *)
Definition QColor_default : QColor := mkQColor 0 0 0.

(** The class invariant of [QColor]: components lie in 0..255. *)
Definition QColor_in_range (c : QColor) : Prop :=
  0 <= red c <= 255 /\ 0 <= green c <= 255 /\ 0 <= blue c <= 255.

(** Conversion of an [int] argument to [unsigned char]. *)
Definition to_uchar (z : Z) : Z := z mod 256.

(** What [vtkSTLReader::Update] produced for a file: a mesh, or nothing
    (missing, unreadable or corrupt file). *)
Inductive ParseOutcome :=
| ParseOk (mesh : nat)
| ParseFailed.

(** A [vtkActor]: its identity, the reader output its mapper is connected
    to, its visibility flag and its diffuse colour (numerators over 255.0). *)
Record vtkActor := mkActor {
  actor_id : nat;
  actor_input : ParseOutcome;
  actor_visibility : bool;
  actor_diffuse : Z * Z * Z
}.

(** [vtkNew<vtkActor>] followed by [SetMapper]: visible, white. *)
Definition vtkActor_new (id : nat) (input : ParseOutcome) : vtkActor :=
  mkActor id input true (255, 255, 255).

Definition SetVisibility (v : bool) (a : vtkActor) : vtkActor :=
  mkActor (actor_id a) (actor_input a) v (actor_diffuse a).

Definition SetDiffuseColor (r g b : Z) (a : vtkActor) : vtkActor :=
  mkActor (actor_id a) (actor_input a) (actor_visibility a) (r, g, b).

(** A [vtkSTLReader] kept in a member; only its output matters. *)
Record vtkSTLReader := mkReader { reader_output : ParseOutcome }.

(** ** ModelPart *)

Module ModelPart.

Local Unset Elimination Schemes.

Inductive t := mk {
  m_addr : addr;
  m_childItems : list t;
  m_itemData : list QVariant;
  m_parentItem : option addr;
  isVisible : bool;
  color : QColor;
  reader : option vtkSTLReader;
  actor : option vtkActor
}.

Local Set Elimination Schemes.

(** Induction over a node and, through [Forall], over its children. *)
Section Induction.
Variable P : t -> Prop.
Hypothesis P_node :
  forall a cs d p v c r ac, Forall P cs -> P (mk a cs d p v c r ac).

Fixpoint t_ind (n : t) : P n :=
  match n with
  | mk a cs d p v c r ac =>
      P_node a cs d p v c r ac
        ((fix go (l : list t) : Forall P l :=
            match l with
            | [] => @List.Forall_nil t P
            | x :: l' => @List.Forall_cons t P x l' (t_ind x) (go l')
            end) cs)
  end.
End Induction.

(** [ModelPart::ModelPart(data, parent)], for the object allocated at [a]:
    [isVisible(false)]; the colour, reader and actor members are
    default-constructed. *)
Definition new (a : addr) (data : list QVariant) (parent : option addr) : t :=
  mk a [] data parent false QColor_default None None.

(** Field updates. *)
Definition with_children (cs : list t) (n : t) : t :=
  mk (m_addr n) cs (m_itemData n) (m_parentItem n) (isVisible n) (color n)
     (reader n) (actor n).

Definition with_parent (p : option addr) (n : t) : t :=
  mk (m_addr n) (m_childItems n) (m_itemData n) p (isVisible n) (color n)
     (reader n) (actor n).

Definition with_actor (ac : option vtkActor) (n : t) : t :=
  mk (m_addr n) (m_childItems n) (m_itemData n) (m_parentItem n) (isVisible n)
     (color n) (reader n) ac.

(** [appendChild(item)]: [item->m_parentItem = this; m_childItems.append(item)]. *)
Definition appendChild (item : t) (this : t) : t :=
  with_children (m_childItems this ++ [with_parent (Some (m_addr this)) item]) this.

(** [child(row)]: null out of range, else [m_childItems.at(row)]. *)
Definition child (row : Z) (this : t) : option t :=
  if (row <? 0) || (Z.of_nat (length (m_childItems this)) <=? row) then None
  else m_childItems this !! Z.to_nat row.

Definition childCount (this : t) : Z := Z.of_nat (length (m_childItems this)).

Definition columnCount (this : t) : Z := Z.of_nat (length (m_itemData this)).

(** [data(column)]: [QVariant()] out of range. *)
Definition data (column : Z) (this : t) : QVariant :=
  if (column <? 0) || (Z.of_nat (length (m_itemData this)) <=? column)
  then QVariant_invalid
  else default QVariant_invalid (m_itemData this !! Z.to_nat column).

(** [set(column, value)]: writes only inside the range. *)
Definition set (column : Z) (value : QVariant) (this : t) : t :=
  if (0 <=? column) && (column <? Z.of_nat (length (m_itemData this)))
  then mk (m_addr this) (m_childItems this)
          (<[Z.to_nat column := value]> (m_itemData this))
          (m_parentItem this) (isVisible this) (color this) (reader this)
          (actor this)
  else this.

Definition parentItem (this : t) : option addr := m_parentItem this.

(** [setColour(R, G, B)] with [unsigned char] parameters. *)
Definition setColour (R G B : Z) (this : t) : t :=
  mk (m_addr this) (m_childItems this) (m_itemData this) (m_parentItem this)
     (isVisible this) (mkQColor (to_uchar R) (to_uchar G) (to_uchar B))
     (reader this) (actor this).

Definition getColourR (this : t) : Z := to_uchar (red (color this)).
Definition getColourG (this : t) : Z := to_uchar (green (color this)).
Definition getColourB (this : t) : Z := to_uchar (blue (color this)).

Definition getColor (this : t) : QColor :=
  mkQColor (getColourR this) (getColourG this) (getColourB this).

Definition setVisible (v : bool) (this : t) : t :=
  mk (m_addr this) (m_childItems this) (m_itemData this) (m_parentItem this)
     v (color this) (reader this) (actor this).

Definition visible (this : t) : bool := isVisible this.

(** [loadSTL(fileName)].  The reader is a local [vtkNew<vtkSTLReader>]; the
    member [reader] is not assigned.  [Update()] reports nothing back: the
    actor is built and stored whatever the reader produced.  [id] is the
    identity of the new actor and [outcome] what the reader produced. *)
Definition loadSTL (fileName : string) (outcome : ParseOutcome) (id : nat)
    (this : t) : t :=
  with_actor (Some (vtkActor_new id outcome)) this.

Definition getActor (this : t) : option vtkActor := actor this.

(** [getNewActor()]: null unless both the actor and the reader member are
    set; otherwise a new actor (identity [id]) on a new mapper connected to
    the same reader output, with a deep copy of the property. *)
Definition getNewActor (id : nat) (this : t) : option vtkActor :=
  match actor this, reader this with
  | Some ac, Some rd =>
      Some (mkActor id (reader_output rd) true (actor_diffuse ac))
  | _, _ => None
  end.

(** [removeChild(position)]: nothing out of range, else
    [delete m_childItems.takeAt(position)]. *)
Definition removeChild (position : Z) (this : t) : t :=
  if (position <? 0) || (Z.of_nat (length (m_childItems this)) <=? position)
  then this
  else with_children (delete (Z.to_nat position) (m_childItems this)) this.

(** *** Pointers into a tree *)

(** All objects owned by [n], itself first, in depth-first pre-order. *)
Fixpoint parts (n : t) : list t :=
  match n with
  | mk _ cs _ _ _ _ _ _ => n :: flat_map parts cs
  end.

Definition addrs (n : t) : list addr := map m_addr (parts n).

(** Following the pointer [a] inside the tree owned by [n]. *)
Definition find_part (a : addr) (n : t) : option t :=
  snd <$> list_find (fun p => m_addr p = a) (parts n).

(** A call [a->f(...)]: the object at [a] is replaced by its image. *)
Fixpoint update_part (a : addr) (f : t -> t) (n : t) : t :=
  if decide (m_addr n = a) then f n
  else
    match n with
    | mk a' cs d p v c r ac => mk a' (map (update_part a f) cs) d p v c r ac
    end.

(** [QList::indexOf]: position of the first child that is the object at
    [a], or -1. *)
Definition indexOf (a : addr) (cs : list t) : Z :=
  match list_find (fun p => m_addr p = a) cs with
  | Some (i, _) => Z.of_nat i
  | None => -1
  end.

(** [row()], for an object [this] living in the tree [root]: its index in
    its parent's child list; 0 without a parent.  (A parent pointer that
    leads nowhere cannot be followed in C++; the model answers -1.) *)
Definition row (root : t) (this : t) : Z :=
  match m_parentItem this with
  | Some pa =>
      match find_part pa root with
      | Some P => indexOf (m_addr this) (m_childItems P)
      | None => -1
      end
  | None => 0
  end.

(** [delete m_childItems.takeAt(position)].  [QList::takeAt] wants a
    position inside the list; outside it the call is undefined ([None]). *)
Definition delete_takeAt (position : Z) (this : t) : option t :=
  if (0 <=? position) && (position <? Z.of_nat (length (m_childItems this)))
  then Some (with_children (delete (Z.to_nat position) (m_childItems this)) this)
  else None.

(** The loop of [removeChildren]: [rows] times [delete takeAt(position)]. *)
Fixpoint removeChildren_loop (rows : nat) (position : Z) (this : t) : option t :=
  match rows with
  | O => Some this
  | S rows' => delete_takeAt position this ≫= removeChildren_loop rows' position
  end.

(** [removeChildren(position, count)]: the loop does not run for a count
    that is not positive. *)
Definition removeChildren (position count : Z) (this : t) : option t :=
  removeChildren_loop (Z.to_nat count) position this.

End ModelPart.

(** ** QModelIndex *)

(** A [QModelIndex]: whether it belongs to a model, its row and column, and
    its internal pointer. *)
Record QModelIndex := mkIndex {
  ix_model : bool;
  ix_row : Z;
  ix_column : Z;
  internalPointer : option addr
}.

#[global] Instance QModelIndex_eq_dec : EqDecision QModelIndex.
Proof. solve_decision. Defined.

(** [QModelIndex()]. *)
Definition QModelIndex_invalid : QModelIndex := mkIndex false (-1) (-1) None.

(** [isValid()]: [(r >= 0) && (c >= 0) && (m != nullptr)]. *)
Definition isValid (i : QModelIndex) : bool :=
  (0 <=? ix_row i) && (0 <=? ix_column i) && ix_model i.

Definition createIndex (row column : Z) (p : addr) : QModelIndex :=
  mkIndex true row column (Some p).

(** ** What the program emits *)

Inductive Event :=
| StatusUpdateMessage (message : string) (timeout : Z)
| MessageBoxWarning (title text : string)
| MessageBoxInformation (title text : string)
| MessageBoxQuestion (title text : string)
| BeginInsertRows (parent : QModelIndex) (first last : Z)
| EndInsertRows
| BeginRemoveRows (parent : QModelIndex) (first last : Z)
| EndRemoveRows
| DataChanged (topLeft bottomRight : QModelIndex)
| LayoutChanged
| RemoveAllViewProps
| AddActor (id : nat)
| RemoveActor (id : nat)
| Render.

#[global] Instance Event_eq_dec : EqDecision Event.
Proof. solve_decision. Defined.

(** ** Qt enumerations *)

(** [Qt::ItemDataRole], an [int]; [Qt::DisplayRole] is 0. *)
Definition DisplayRole : Z := 0.

Inductive Orientation := Horizontal | Vertical.

(** [Qt::ItemFlags], a bit set. *)
Definition NoItemFlags : Z := 0.
Definition ItemIsSelectable : Z := 1.
Definition ItemIsEnabled : Z := 32.

Inductive CaseSensitivity := CaseInsensitive | CaseSensitive.

(** ** ModelPartList *)

Module ModelPartList.

Record t := mk { rootItem : ModelPart.t }.

(** [ModelPartList(data, parent)]: the root carries the header labels; [a]
    is the address [new] returned. *)
Definition new (a : addr) : t :=
  mk (ModelPart.new a
        [QVariant_str "Part"; QVariant_str "Visible?"; QVariant_str "Colour"]
        None).

Definition getRootItem (m : t) : addr := ModelPart.m_addr (rootItem m).

(** Following a [ModelPart*] held by the model or by an index. *)
Definition deref (p : option addr) (m : t) : option ModelPart.t :=
  p ≫= fun a => ModelPart.find_part a (rootItem m).

(** [getItem(index)]: the root for an invalid index, else the internal
    pointer. *)
Definition getItem (index : QModelIndex) (m : t) : option addr :=
  if negb (isValid index) then Some (getRootItem m)
  else internalPointer index.

Definition columnCount (parent : QModelIndex) (m : t) : Z :=
  ModelPart.columnCount (rootItem m).

(** [rowCount(parent)]: 0 for a valid index outside column 0. *)
Definition rowCount (parent : QModelIndex) (m : t) : Z :=
  if isValid parent && negb (ix_column parent =? 0) then 0
  else
    match deref (getItem parent m) m with
    | Some parentItem => ModelPart.childCount parentItem
    | None => 0
    end.

(** [QAbstractItemModel::hasIndex]. *)
Definition hasIndex (row column : Z) (parent : QModelIndex) (m : t) : bool :=
  if (row <? 0) || (column <? 0) then false
  else (row <? rowCount parent m) && (column <? columnCount parent m).

(** [index(row, column, parent)]. *)
Definition index (row column : Z) (parent : QModelIndex) (m : t) : QModelIndex :=
  if negb (hasIndex row column parent m) then QModelIndex_invalid
  else
    match deref (getItem parent m) m ≫= ModelPart.child row with
    | Some childItem => createIndex row column (ModelPart.m_addr childItem)
    | None => QModelIndex_invalid
    end.

(** [parent(index)]. *)
Definition parent (index : QModelIndex) (m : t) : QModelIndex :=
  if negb (isValid index) then QModelIndex_invalid
  else
    match deref (getItem index m) m ≫= ModelPart.parentItem with
    | None => QModelIndex_invalid
    | Some pa =>
        if decide (pa = getRootItem m) then QModelIndex_invalid
        else
          match ModelPart.find_part pa (rootItem m) with
          | Some parentItem =>
              createIndex (ModelPart.row (rootItem m) parentItem) 0 pa
          | None => createIndex (-1) 0 pa
          end
    end.

(** [appendChild(parent, data)]; [a] is the address of the new object.
    Yields the returned index, the model and the signals emitted. *)
Definition appendChild (parent : QModelIndex) (data : list QVariant) (a : addr)
    (m : t) : QModelIndex * t * list Event :=
  match getItem parent m with
  | Some parentPart =>
      let childPart := ModelPart.new a data (Some parentPart) in
      let m' :=
        mk (ModelPart.update_part parentPart (ModelPart.appendChild childPart)
              (rootItem m)) in
      (createIndex (rowCount parent m' - 1) 0 a, m',
       [BeginInsertRows parent (rowCount parent m) (rowCount parent m);
        EndInsertRows])
  | None => (QModelIndex_invalid, m, [])
  end.

(** [removeRows(position, rows, parentIndex)]: the result, the model and
    the signals emitted. *)
Definition removeRows (position rows : Z) (parentIndex : QModelIndex) (m : t)
    : bool * t * list Event :=
  match deref (getItem parentIndex m) m with
  | None => (false, m, [])
  | Some parentItem =>
      if (position <? 0) || (ModelPart.childCount parentItem <? position + rows)
      then (false, m, [])
      else
        (true,
         mk (ModelPart.update_part (ModelPart.m_addr parentItem)
               (Nat.iter (Z.to_nat rows) (ModelPart.removeChild position))
               (rootItem m)),
         [BeginRemoveRows parentIndex position (position + rows - 1);
          EndRemoveRows])
  end.

(** [data(index, role)]: [QVariant()] for an invalid index, for a role
    other than [Qt::DisplayRole] and for a null internal pointer; else the
    item's data in the column of the index.  (With a pointer that leads
    nowhere the call is undefined; the model answers [QVariant()].) *)
Definition data (index : QModelIndex) (role : Z) (m : t) : QVariant :=
  if negb (isValid index) || negb (role =? DisplayRole) then QVariant_invalid
  else
    match deref (internalPointer index) m with
    | Some item => ModelPart.data (ix_column index) item
    | None => QVariant_invalid
    end.

(** [flags(index)]; [QAbstractItemModel::flags] of a valid index is
    [ItemIsSelectable | ItemIsEnabled]. *)
Definition flags (index : QModelIndex) (m : t) : Z :=
  if isValid index then Z.lor ItemIsSelectable ItemIsEnabled else NoItemFlags.

(** [headerData(section, orientation, role)]. *)
Definition headerData (section : Z) (orientation : Orientation) (role : Z)
    (m : t) : QVariant :=
  match orientation with
  | Horizontal =>
      if role =? DisplayRole then ModelPart.data section (rootItem m)
      else QVariant_invalid
  | Vertical => QVariant_invalid
  end.

End ModelPartList.

(** ** MainWindow *)

(** [QFileInfo(fileName).fileName()]: what follows the last slash. *)
Fixpoint after_last_slash (acc s : string) : string :=
  match s with
  | EmptyString => acc
  | String c s' =>
      if Ascii.eqb c (Ascii.ascii_of_nat 47) then after_last_slash s' s' else after_last_slash acc s'
  end.

Definition QFileInfo_fileName (fileName : string) : string :=
  after_last_slash fileName fileName.

(** [QString::number(int)]. *)
Definition QString_number (z : Z) : string := pretty z.

(** Case folding of a character: the letters A to Z go to a to z.  This is
    what Qt's case folding does to ASCII text; other text is folded by the
    Unicode tables, which are not modelled. *)
Definition toLower_char (c : Ascii.ascii) : Ascii.ascii :=
  let n := Ascii.nat_of_ascii c in
  if (65 <=? n)%nat && (n <=? 90)%nat then Ascii.ascii_of_nat (n + 32) else c.

Fixpoint toLower (s : string) : string :=
  match s with
  | EmptyString => EmptyString
  | String c s' => String (toLower_char c) (toLower s')
  end.

(** [str] occurs in [s] as a run of consecutive characters. *)
Fixpoint occurs_in (str s : string) : bool :=
  String.prefix str s
  || match s with
     | EmptyString => false
     | String _ s' => occurs_in str s'
     end.

(** [s.contains(str, cs)], for ASCII text when [cs] is
    [Qt::CaseInsensitive]. *)
Definition QString_contains (s str : string) (cs : CaseSensitivity) : bool :=
  match cs with
  | CaseSensitive => occurs_in str s
  | CaseInsensitive => occurs_in (toLower str) (toLower s)
  end.

Module MainWindow.

(** The window: the model, the selection of the tree view, the view props
    the renderer holds (in insertion order), everything emitted so far, and
    the next addresses [new] and [vtkNew] hand out. *)
Record t := mk {
  partList : ModelPartList.t;
  currentIndex : QModelIndex;
  renderer : list nat;
  events : list Event;
  next_part : addr;
  next_actor : nat
}.

Definition root (w : t) : ModelPart.t := ModelPartList.rootItem (partList w).

Definition emit (e : Event) (w : t) : t :=
  mk (partList w) (currentIndex w) (renderer w) (events w ++ [e])
     (next_part w) (next_actor w).

(** A call [p->f(...)] on a part of the model. *)
Definition call (p : addr) (f : ModelPart.t -> ModelPart.t) (w : t) : t :=
  mk (ModelPartList.mk (ModelPart.update_part p f (root w))) (currentIndex w)
     (renderer w) (events w) (next_part w) (next_actor w).

(** [renderer->AddActor]: [vtkViewport::AddViewProp] adds a prop only when
    the viewport does not hold it yet. *)
Definition renderer_AddActor (id : nat) (w : t) : t :=
  mk (partList w) (currentIndex w)
     (if decide (id ∈ renderer w) then renderer w else renderer w ++ [id])
     (events w ++ [AddActor id]) (next_part w) (next_actor w).

(** [renderer->RemoveActor]; the view props never hold a prop twice. *)
Definition renderer_RemoveActor (id : nat) (w : t) : t :=
  mk (partList w) (currentIndex w) (filter (fun x => x ≠ id) (renderer w))
     (events w ++ [RemoveActor id]) (next_part w) (next_actor w).

(** [renderer->RemoveAllViewProps()]. *)
Definition renderer_RemoveAllViewProps (w : t) : t :=
  mk (partList w) (currentIndex w) [] (events w ++ [RemoveAllViewProps])
     (next_part w) (next_actor w).

(** The view changes its selection. *)
Definition setCurrentIndex (i : QModelIndex) (w : t) : t :=
  mk (partList w) i (renderer w) (events w) (next_part w) (next_actor w).

(** [addFloor()]: a new plane actor is added to the renderer. *)
Definition addFloor (w : t) : t :=
  renderer_AddActor (next_actor w)
    (mk (partList w) (currentIndex w) (renderer w) (events w) (next_part w)
        (S (next_actor w))).

(** [addModelPartToTree()]. *)
Definition addModelPartToTree (w : t) : t :=
  let childItem :=
    ModelPart.new (next_part w)
      [QVariant_str "Model"; QVariant_str "true"; QVariant_str "255,255,255"]
      None in
  call (ModelPartList.getRootItem (partList w)) (ModelPart.appendChild childItem)
    (mk (partList w) (currentIndex w) (renderer w) (events w)
        (S (next_part w)) (next_actor w)).

(** [MainWindow::MainWindow]: the model, the seeded tree, the renderer with
    its floor. *)
Definition new : t :=
  addFloor
    (addModelPartToTree (mk (ModelPartList.new 0%nat) QModelIndex_invalid [] [] 1%nat 0%nat)).

(** [part->row()] through a pointer. *)
Definition row_of (p : addr) (w : t) : Z :=
  match ModelPart.find_part p (root w) with
  | Some part => ModelPart.row (root w) part
  | None => -1
  end.

(** [updateRenderFromTree(index)].  The recursion follows indices that the
    model builds from addresses, so it is bounded by [fuel]; [updateRender]
    supplies the number of parts, which is more than any depth. *)
Fixpoint updateRenderFromTree (fuel : nat) (index : QModelIndex) (w : t) : t :=
  match fuel with
  | O => w
  | S fuel' =>
      if isValid index then
        let w1 :=
          match ModelPartList.deref (internalPointer index) (partList w)
                ≫= ModelPart.getActor with
          | Some ac => renderer_AddActor (actor_id ac) w
          | None => w
          end in
        let rows := ModelPartList.rowCount index (partList w1) in
        foldl
          (fun w' i =>
             updateRenderFromTree fuel'
               (ModelPartList.index (Z.of_nat i) 0 index (partList w')) w')
          w1 (seq 0 (Z.to_nat rows))
      else w
  end.

(** [updateRender()] (the camera calls are left out). *)
Definition updateRender (w : t) : t :=
  let w0 := renderer_RemoveAllViewProps w in
  let topLevelItemCount :=
    ModelPartList.rowCount QModelIndex_invalid (partList w0) in
  let w1 :=
    foldl
      (fun w' i =>
         updateRenderFromTree (length (ModelPart.parts (root w)))
           (ModelPartList.index (Z.of_nat i) 0 QModelIndex_invalid (partList w'))
           w')
      w0 (seq 0 (Z.to_nat topLevelItemCount)) in
  emit Render w1.

(** The writes of [applyPropertiesToPart] to the part itself. *)
Definition applyProperties (name : string) (visibility : bool) (color : QColor)
    (updateName : bool) (part : ModelPart.t) : ModelPart.t :=
  let part := if updateName then ModelPart.set 0 (QVariant_str name) part
              else part in
  let part :=
    ModelPart.set 1 (QVariant_str (if visibility then "true" else "false"))
      part in
  let part :=
    ModelPart.set 2
      (QVariant_str
         (QString_number (red color) ++ "," ++ QString_number (green color)
          ++ "," ++ QString_number (blue color))) part in
  let part := ModelPart.setColour (red color) (green color) (blue color) part in
  ModelPart.setVisible visibility part.

(** [applyPropertiesToPart(part, name, visibility, color, updateName)]. *)
Definition applyPropertiesToPart (part : option addr) (name : string)
    (visibility : bool) (color : QColor) (updateName : bool) (w : t) : t :=
  match part with
  | None => w
  | Some p =>
      let w1 := call p (applyProperties name visibility color updateName) w in
      let startIndex :=
        ModelPartList.index (row_of p w1) 0 QModelIndex_invalid (partList w1) in
      let endIndex :=
        ModelPartList.index (row_of p w1)
          (ModelPartList.columnCount QModelIndex_invalid (partList w1))
          QModelIndex_invalid (partList w1) in
      let w2 := emit (DataChanged startIndex endIndex) w1 in
      match ModelPart.find_part p (root w2) ≫= ModelPart.getActor with
      | Some ac =>
          updateRender
            (call p
               (ModelPart.with_actor
                  (Some (SetDiffuseColor (red color) (green color) (blue color)
                           (SetVisibility visibility ac))))
               w2)
      | None => w2
      end
  end.

(** [updateChildrenProperties(part, visibility, color)].  [part] is the
    object as it stands when the call starts; the loop only takes its child
    pointers from it, and nothing in the body changes a child list. *)
Fixpoint updateChildrenProperties (part : ModelPart.t) (visibility : bool)
    (color : QColor) (w : t) : t :=
  match part with
  | ModelPart.mk _ cs _ _ _ _ _ _ =>
      foldl
        (fun w' child =>
           updateChildrenProperties child visibility color
             (applyPropertiesToPart (Some (ModelPart.m_addr child)) ""
                visibility color false w'))
        w cs
  end.

(** [on_actionItemOptions_triggered()]; [dialog] is what the option dialog
    returned when it was accepted. *)
Definition on_actionItemOptions_triggered
    (dialog : option (string * bool * QColor)) (w : t) : t :=
  let index := currentIndex w in
  if negb (isValid index) then
    emit (MessageBoxInformation "No Selection" "There is no selected part.") w
  else
    match internalPointer index with
    | None =>
        emit (MessageBoxInformation "No Selection" "There is no selected part.") w
    | Some selectedPart =>
        match dialog with
        | Some (name, visibility, color) =>
            let w1 :=
              applyPropertiesToPart (Some selectedPart) name visibility color
                true w in
            let w2 :=
              match ModelPart.find_part selectedPart (root w1) with
              | Some part => updateChildrenProperties part visibility color w1
              | None => w1
              end in
            emit (StatusUpdateMessage "Item and its children updated." 2000) w2
        | None => w
        end
    end.

(** The worker half of [createModelPartFromFile]: builds the part away from
    the tree.  [outcome] is what the STL reader produced, [a] and [id] the
    identities of the new part and of its actor. *)
Definition load_worker (fileName : string) (outcome : ParseOutcome) (a : addr)
    (id : nat) : ModelPart.t :=
  let justFileName := QFileInfo_fileName fileName in
  let data :=
    [QVariant_str justFileName; QVariant_str "true";
     QVariant_str "255,255,255"] in
  let newPart := ModelPart.new a data None in
  let newPart := ModelPart.loadSTL fileName outcome id newPart in
  let newPart := ModelPart.setColour 255 255 255 newPart in
  ModelPart.setVisible true newPart.

(** The half queued onto the main thread. *)
Definition load_completion (newPart : ModelPart.t) (fileName : string) (w : t)
    : t :=
  let parentPart :=
    if isValid (currentIndex w) then internalPointer (currentIndex w)
    else Some (ModelPartList.getRootItem (partList w)) in
  let w1 :=
    match parentPart with
    | Some p => call p (ModelPart.appendChild newPart) w
    | None => w
    end in
  let r := row_of (ModelPart.m_addr newPart) w1 in
  let topLeft := ModelPartList.index r 0 QModelIndex_invalid (partList w1) in
  let bottomRight :=
    ModelPartList.index r
      (ModelPartList.columnCount QModelIndex_invalid (partList w1) - 1)
      QModelIndex_invalid (partList w1) in
  let w2 := emit (DataChanged topLeft bottomRight) w1 in
  let w3 := emit (DataChanged topLeft bottomRight) w2 in
  let w4 := emit LayoutChanged w3 in
  let w5 := updateRender w4 in
  let w6 := addFloor w5 in
  emit (StatusUpdateMessage ("Loaded STL file: " ++ fileName) 5000) w6.

(** [createModelPartFromFile(fileName)], worker and completion in one go:
    the event on the main thread that completes a load, with what the
    worker has built. *)
Definition createModelPartFromFile (fileName : string) (outcome : ParseOutcome)
    (w : t) : t :=
  load_completion
    (load_worker fileName outcome (next_part w) (next_actor w)) fileName
    (mk (partList w) (currentIndex w) (renderer w) (events w)
        (S (next_part w)) (S (next_actor w))).

(** The [accepted] slot that [on_actionNewGroup_triggered] connects; [index]
    is the selection captured when the dialog was opened.  The dialog is
    shown without blocking, so the part behind [index] can be gone when the
    slot runs; following the pointer is then undefined and the model leaves
    the tree as it is.  In a session the slot runs with an index that is
    invalid or leads to a part of the tree. *)
Definition on_actionNewGroup_accepted (index : QModelIndex) (groupName : string)
    (w : t) : t :=
  let parentPart :=
    if isValid index then internalPointer index
    else Some (ModelPartList.getRootItem (partList w)) in
  let newGroup :=
    ModelPart.new (next_part w)
      [QVariant_str groupName; QVariant_str "true"; QVariant_str "255,255,255"]
      None in
  let w0 :=
    mk (partList w) (currentIndex w) (renderer w) (events w)
       (S (next_part w)) (next_actor w) in
  let w1 :=
    match parentPart with
    | Some p => call p (ModelPart.appendChild newGroup) w0
    | None => w0
    end in
  emit LayoutChanged w1.

(** [on_actionNewGroup_triggered()] with the dialog accepted at once. *)
Definition on_actionNewGroup_triggered (groupName : string) (w : t) : t :=
  on_actionNewGroup_accepted (currentIndex w) groupName w.

(** [removeActorsRecursively(part)], called on a part that exists. *)
Fixpoint removeActorsRecursively (part : ModelPart.t) (w : t) : t :=
  match part with
  | ModelPart.mk _ cs _ _ _ _ _ ac =>
      let w1 :=
        match ac with
        | Some a => renderer_RemoveActor (actor_id a) w
        | None => w
        end in
      emit Render (foldl (fun w' c => removeActorsRecursively c w') w1 cs)
  end.

(** [on_actionDeleteFile_triggered()]; [yes] is the answer to the
    confirmation box. *)
Definition on_actionDeleteFile_triggered (yes : bool) (w : t) : t :=
  let currentIndex := currentIndex w in
  if negb (isValid currentIndex) then
    emit (MessageBoxWarning "Selection Error" "Please select an item to delete.")
      w
  else
    match ModelPartList.deref (internalPointer currentIndex) (partList w) with
    | None => w
    | Some selectedItem =>
        if decide (toString (ModelPart.data 0 selectedItem) = "Model") then
          emit (MessageBoxWarning "Invalid Operation" "Cannot delete root item.")
            w
        else
          let w1 :=
            emit (MessageBoxQuestion "Confirm Deletion"
                    "Are you sure you want to delete this item?") w in
          if yes then
            let w2 := removeActorsRecursively selectedItem w1 in
            let '(ok, m, signals) :=
              ModelPartList.removeRows (ix_row currentIndex) 1
                (ModelPartList.parent currentIndex (partList w2)) (partList w2)
            in
            let w3 :=
              mk m (MainWindow.currentIndex w2) (renderer w2)
                 (events w2 ++ signals) (next_part w2) (next_actor w2) in
            if ok then
              emit (StatusUpdateMessage "Item deleted successfully." 5000) w3
            else emit (StatusUpdateMessage "Error deleting item." 5000) w3
          else w1
    end.

(** [handleTreeClicked()].  The handler follows the internal pointer of the
    current index without a test; with a pointer that is null or leads
    nowhere the call is undefined and the model leaves the state as it is.
    A click of a session is a click on a part of the tree. *)
Definition handleTreeClicked (w : t) : t :=
  let index := currentIndex w in
  match ModelPartList.deref (internalPointer index) (partList w) with
  | Some selectedPart =>
      let text := toString (ModelPart.data 0 selectedPart) in
      emit (StatusUpdateMessage ("The selected item is: " ++ text) 2000) w
  | None => w
  end.

(** [on_actionOpen_File_triggered()]; [fileNames] is what the file dialog
    returned.  The call of [createModelPartFromFile] in the loop only hands
    the load to the thread pool, so the handler returns with the window as
    it was; what it yields is the names for which a load was started, in
    order.  Each of these loads is completed later by an event of its own
    on the main thread ([createModelPartFromFile] above), under the
    selection of that moment and in the order in which the workers
    finish. *)
Definition on_actionOpen_File_triggered (fileNames : list string) : list string :=
  filter (fun fileName => fileName ≠ "") fileNames.

(** The loop of [searchInTreeView] over the rows [rs] that are left;
    [below] is the recursive call. *)
Fixpoint search_rows (below : QModelIndex -> QModelIndex)
    (searchString : string) (parentIndex : QModelIndex) (m : ModelPartList.t)
    (rs : list nat) : QModelIndex :=
  match rs with
  | [] => QModelIndex_invalid
  | r :: rs' =>
      let index := ModelPartList.index (Z.of_nat r) 0 parentIndex m in
      let itemText := toString (ModelPartList.data index DisplayRole m) in
      if QString_contains itemText searchString CaseInsensitive then index
      else
        let childResult := below index in
        if isValid childResult then childResult
        else search_rows below searchString parentIndex m rs'
  end.

(** [searchInTreeView(searchString, parentIndex)].  As in
    [updateRenderFromTree] the recursion follows indices and is bounded by
    [fuel]. *)
Fixpoint searchInTreeView (fuel : nat) (searchString : string)
    (parentIndex : QModelIndex) (m : ModelPartList.t) : QModelIndex :=
  match fuel with
  | O => QModelIndex_invalid
  | S fuel' =>
      search_rows (fun index => searchInTreeView fuel' searchString index m)
        searchString parentIndex m
        (seq 0 (Z.to_nat (ModelPartList.rowCount parentIndex m)))
  end.

(** [selectItemInTreeView(index)]: the view makes [index] its current
    index (and scrolls to it). *)
Definition selectItemInTreeView (index : QModelIndex) (w : t) : t :=
  setCurrentIndex index w.

(** [on_actionSearchItem_triggered()]; [ok] and [searchTerm] are what the
    input dialog returned. *)
Definition on_actionSearchItem_triggered (ok : bool) (searchTerm : string)
    (w : t) : t :=
  if ok && negb (String.eqb searchTerm "") then
    let searchResult :=
      searchInTreeView (length (ModelPart.parts (root w))) searchTerm
        QModelIndex_invalid (partList w) in
    if isValid searchResult then selectItemInTreeView searchResult w
    else emit (MessageBoxInformation "Search Result" "Item not found.") w
  else w.

End MainWindow.

(** * Vocabulary of the specification *)

Module Spec.
Import ModelPart.
Local Open Scope list_scope.

(** The children of every part point back to it. *)
#[warning="-register-all"]
Inductive parents_ok : t -> Prop :=
| parents_ok_intro n :
    Forall (fun c => m_parentItem c = Some (m_addr n)) (m_childItems n) ->
    Forall parents_ok (m_childItems n) ->
    parents_ok n.

(** A tree of parts as the program builds them: no address occurs twice,
    children point back to their owner, the top has no parent. *)
Record tree_ok (root : t) : Prop := mk_tree_ok {
  tree_NoDup : NoDup (addrs root);
  tree_parents : parents_ok root;
  tree_top : m_parentItem root = None
}.

(** A method that leaves the identity, the children and the parent of a
    part alone ([set], [setColour], [setVisible], [loadSTL], ...). *)
Definition fields_only (g : t -> t) : Prop :=
  forall n, m_addr (g n) = m_addr n /\ m_childItems (g n) = m_childItems n /\
            m_parentItem (g n) = m_parentItem n.

(** The trees that the model's root can own: built from the constructor of
    [ModelPartList] by [appendChild] of parts that are not in the tree yet,
    [removeChild], and methods that only write fields, each called on any
    part of the tree. *)
Inductive reachable : t -> Prop :=
| reachable_new a :
    reachable (ModelPartList.rootItem (ModelPartList.new a))
| reachable_appendChild root this item :
    reachable root ->
    NoDup (addrs item) -> parents_ok item ->
    (forall b, b ∈ addrs item -> b ∉ addrs root) ->
    reachable (update_part this (appendChild item) root)
| reachable_removeChild root this position :
    reachable root ->
    reachable (update_part this (removeChild position) root)
| reachable_fields root this g :
    reachable root -> fields_only g ->
    reachable (update_part this g root).

(** The render handles held by the parts of a tree, in depth-first
    pre-order. *)
Definition handles (n : t) : list nat :=
  omap (fun p => actor_id <$> actor p) (parts n).

(** The first part of a list that lives at [a]. *)
Definition lfind (a : addr) (l : list t) : option t :=
  snd <$> list_find (fun p => m_addr p = a) l.

(** [renderer->AddActor] for each handle of a list, in order. *)
Definition add_handles (ids : list nat) (w : MainWindow.t) : MainWindow.t :=
  foldl (fun w' id => MainWindow.renderer_AddActor id w') w ids.

(** What an index must tell the model for the walk to find the children of
    [P] under it. *)
Definition index_of_part (idx : QModelIndex) (P : ModelPart.t)
    (m : ModelPartList.t) : Prop :=
  ModelPartList.rowCount idx m = childCount P /\
  ModelPartList.deref (ModelPartList.getItem idx m) m = Some P.

(** The view props after [AddActor] for each handle of [ids]. *)
Definition add_ids (ids : list nat) (l : list nat) : list nat :=
  foldl (fun l' id => if decide (id ∈ l') then l' else l' ++ [id]) l ids.

(** The view props after [RemoveActor] for each handle of [ids]. *)
Definition remove_ids (ids : list nat) (l : list nat) : list nat :=
  foldl (fun l' id => filter (fun x => x ≠ id) l') l ids.

(** A window with other view props and another event log. *)
Definition with_rendering (r : list nat) (e : list Event) (w : MainWindow.t)
    : MainWindow.t :=
  MainWindow.mk (MainWindow.partList w) (MainWindow.currentIndex w) r e
    (MainWindow.next_part w) (MainWindow.next_actor w).

(** What [removeActorsRecursively] emits for a part. *)
Fixpoint remove_trace (part : t) : list Event :=
  match part with
  | mk _ cs _ _ _ _ _ ac =>
      match ac with Some a => [RemoveActor (actor_id a)] | None => [] end
      ++ flat_map remove_trace cs ++ [Render]
  end.

(** Everything [applyPropertiesToPart] writes to the part it is called on:
    the fields first, then the actor if there is one. *)
Definition applied (name : string) (visibility : bool) (color : QColor)
    (updateName : bool) (part : t) : t :=
  let part1 := MainWindow.applyProperties name visibility color updateName part in
  match getActor part1 with
  | Some ac =>
      with_actor
        (Some (SetDiffuseColor (red color) (green color) (blue color)
                 (SetVisibility visibility ac))) part1
  | None => part1
  end.

(** The status bar messages among the events. *)
Definition statusMessages (es : list Event) : list (string * Z) :=
  omap (fun e => match e with
                 | StatusUpdateMessage m t => Some (m, t)
                 | _ => None
                 end) es.

(** The label of a part: column 0 of its data. *)
Definition label (p : t) : string := toString (data 0 p).

(** The states the window can be in. *)
Record state_ok (w : MainWindow.t) : Prop := mk_state_ok {
  ok_tree : tree_ok (MainWindow.root w);
  ok_columns : columnCount (MainWindow.root w) = 3;
  ok_top_actor : actor (MainWindow.root w) = None;
  ok_handles : NoDup (handles (MainWindow.root w));
  ok_next_part :
    Forall (fun a => (a < MainWindow.next_part w)%nat) (addrs (MainWindow.root w));
  ok_next_actor :
    Forall (fun id => (id < MainWindow.next_actor w)%nat)
      (handles (MainWindow.root w) ++ MainWindow.renderer w)
}.

(** The tree part of the invariant, with what it says of the allocators. *)
Record model_ok (na : addr) (nh : nat) (root : t) : Prop := {
  model_tree : tree_ok root;
  model_columns : columnCount root = 3;
  model_top_actor : actor root = None;
  model_handles : NoDup (handles root);
  model_next_part : Forall (fun a => (a < na)%nat) (addrs root);
  model_next_actor : Forall (fun id => (id < nh)%nat) (handles root)
}.

(** What the user and the loader can do to the window. *)
Inductive step : MainWindow.t -> MainWindow.t -> Prop :=
| step_select i w : step w (MainWindow.setCurrentIndex i w)
| step_load fileName outcome w :
    step w (MainWindow.createModelPartFromFile fileName outcome w)
| step_group index groupName w :
    step w (MainWindow.on_actionNewGroup_accepted index groupName w)
| step_options dialog w :
    step w (MainWindow.on_actionItemOptions_triggered dialog w)
| step_delete yes w :
    step w (MainWindow.on_actionDeleteFile_triggered yes w).

(** The states reached from the constructor of the window. *)
Inductive run : MainWindow.t -> Prop :=
| run_new : run MainWindow.new
| run_step w w' : run w -> step w w' -> run w'.

(** What a propagation over the addresses [S] has done between two trees:
    the same parts at the same addresses, every label and every list of
    children as it was, the visibility and the colour written for the
    addresses of [S] and as they were elsewhere. *)
Definition propagated (S : list addr) (v : bool) (c : QColor) (root root' : t)
    : Prop :=
  addrs root' = addrs root /\
  forall b q, find_part b root = Some q ->
    exists q', find_part b root' = Some q' /\
      (data 0 q' = data 0 q /\
       map m_addr (m_childItems q') = map m_addr (m_childItems q)) /\
      (b ∈ S -> visible q' = v /\ color q' = c) /\
      (b ∉ S -> visible q' = visible q /\ color q' = color q).

(** The colour [setColour] stores for the components of [c]. *)
Definition stored_colour (c : QColor) : QColor :=
  mkQColor (to_uchar (red c)) (to_uchar (green c)) (to_uchar (blue c)).

(** ** The claims that fail as they are written *)

(** The handles a walk would collect if it skipped the parts whose
    visibility flag is off. *)
Definition visible_handles (n : t) : list nat :=
  omap (fun p => if visible p then actor_id <$> actor p else None) (parts n).

(** "resync leaves in the renderer exactly the handles of the parts that
    have one and are visible." *)
Definition resync_shows_visible_only (w : MainWindow.t) : Prop :=
  forall id,
    id ∈ MainWindow.renderer (MainWindow.updateRender w)
    <-> id ∈ visible_handles (MainWindow.root w).

(** "A request to delete the root is rejected, whatever the state: nothing
    is removed and the tree is left unchanged."  [a] is the address of the
    part the request is for: for the delete handler the root item is the
    part that [addModelPartToTree] seeds under the sentinel.  The request
    is the handler run on a valid index that points at [a], with any answer
    to the confirmation box. *)
Definition root_delete_claim (a : addr) (w : MainWindow.t) : Prop :=
  forall yes index,
    isValid index = true -> internalPointer index = Some a ->
    MainWindow.partList
      (MainWindow.on_actionDeleteFile_triggered yes
         (MainWindow.setCurrentIndex index w))
    = MainWindow.partList w.



(** "removeRows on the children of [P] fails and changes nothing exactly
    when the range is out of bounds, and otherwise removes [rows] children
    from [position] on, with their subtrees, so that the row count drops by
    [rows]." *)
Definition removeRows_claim (position rows : Z) (parentIndex : QModelIndex)
    (P : t) (m : ModelPartList.t) : Prop :=
  let '(ok, m', _) := ModelPartList.removeRows position rows parentIndex m in
  let out_of_bounds := position < 0 \/ childCount P < position + rows in
  (out_of_bounds -> ok = false /\ m' = m) /\
  (~ out_of_bounds ->
   ok = true /\
   exists P',
     find_part (m_addr P) (ModelPartList.rootItem m') = Some P' /\
     m_childItems P'
     = take (Z.to_nat position) (m_childItems P)
       ++ drop (Z.to_nat (position + rows)) (m_childItems P) /\
     childCount P' = childCount P - rows /\
     forall c b,
       c ∈ take (Z.to_nat rows) (drop (Z.to_nat position) (m_childItems P)) ->
       b ∈ addrs c ->
       find_part b (ModelPartList.rootItem m') = None).

(** "appendChild puts a new part with data [d] last under the part [P] that
    [p] stands for and returns its index; asking for the child of [p] at
    the row of that index gives the new part back." *)
Definition insert_roundtrip (p : QModelIndex) (d : list QVariant) (a : addr)
    (P : t) (m : ModelPartList.t) : Prop :=
  let '(result, m', _) := ModelPartList.appendChild p d a m in
  (exists P' c,
     find_part (m_addr P) (ModelPartList.rootItem m') = Some P' /\
     m_childItems P' = m_childItems P ++ [c] /\
     m_addr c = a /\ m_itemData c = d /\ m_childItems c = []) /\
  isValid result = true /\
  internalPointer result = Some a /\
  internalPointer (ModelPartList.index (ix_row result) 0 p m') = Some a.

(** The row counts of the parts of [root] are the same in [root']. *)
Definition rowCounts_unchanged (root root' : t) : Prop :=
  forall q, q ∈ parts root ->
    childCount <$> find_part (m_addr q) root' = Some (childCount q).

(** The status messages of a load of [fileName] that are not its success
    message. *)
Definition load_failure_messages (fileName : string) (es : list Event)
    : list (string * Z) :=
  filter (fun mt => fst mt ≠ ("Loaded STL file: " ++ fileName)%string)
    (statusMessages es).

(** "A load whose parse fails inserts no part and emits exactly one failure
    notification." *)
Definition load_failure_claim (fileName : string) (w : MainWindow.t) : Prop :=
  let w' := MainWindow.createModelPartFromFile fileName ParseFailed w in
  rowCounts_unchanged (MainWindow.root w) (MainWindow.root w') /\
  length (load_failure_messages fileName
            (drop (length (MainWindow.events w)) (MainWindow.events w'))) = 1%nat.

(** "propagate(n, v, c) sets the visibility and the colour of [n] and of
    every part below it, and changes no label." *)
Definition propagate_claim (part : t) (v : bool) (c : QColor) (w : MainWindow.t)
    : Prop :=
  let w' := MainWindow.updateChildrenProperties part v c w in
  (forall q, q ∈ parts part ->
     exists q', find_part (m_addr q) (MainWindow.root w') = Some q' /\
       visible q' = v /\ color q' = c) /\
  (forall q, q ∈ parts (MainWindow.root w) ->
     exists q', find_part (m_addr q) (MainWindow.root w') = Some q' /\
       label q' = label q).

(** ** Some states of the window *)

(** After loading cube.stl under the root. *)
Definition w_loaded : MainWindow.t :=
  MainWindow.createModelPartFromFile "/home/user/cube.stl" (ParseOk 0)
    MainWindow.new.

(** The same with the loaded part selected. *)
Definition w_selected : MainWindow.t :=
  MainWindow.setCurrentIndex
    (ModelPartList.index 1 0 QModelIndex_invalid (MainWindow.partList w_loaded))
    w_loaded.

(** After hiding the loaded part through Item Options. *)
Definition w_hidden : MainWindow.t :=
  MainWindow.on_actionItemOptions_triggered
    (Some ("cube.stl", false, mkQColor 255 255 255)) w_selected.

(** A group "Assembly" under the seeded part "Model", that part selected. *)
Definition w_group : MainWindow.t :=
  MainWindow.on_actionNewGroup_triggered "Assembly"
    (MainWindow.setCurrentIndex
       (ModelPartList.index 0 0 QModelIndex_invalid
          (MainWindow.partList MainWindow.new))
       MainWindow.new).

(** The seeded part "Model" selected and renamed through Item Options. *)
Definition w_renamed : MainWindow.t :=
  MainWindow.on_actionItemOptions_triggered
    (Some ("Chassis", true, mkQColor 255 255 255))
    (MainWindow.setCurrentIndex
       (ModelPartList.index 0 0 QModelIndex_invalid
          (MainWindow.partList MainWindow.new))
       MainWindow.new).

(** The loaded part as it stands in [w_selected]. *)
Definition w_selected_part : t :=
  default (new 0%nat [] None) (find_part 2%nat (MainWindow.root w_selected)).

(** The seeded part "Model" as it stands in [w_group]. *)
Definition w_group_model : t :=
  default (new 0%nat [] None) (find_part 1%nat (MainWindow.root w_group)).

(** The group "Assembly" as it stands in [w_group]. *)
Definition w_group_assembly : t :=
  default (new 0%nat [] None) (find_part 2%nat (MainWindow.root w_group)).

End Spec.

(** * Further vocabulary: indices, search, what the tree shows, sessions *)

Module Notions.
Import ModelPart Spec.
Local Open Scope list_scope.

(** The index the model uses for a part [P] of the tree [root]: the invalid
    index for the root, else [row()] of [P], column 0 and the pointer. *)
Definition index_for (root P : t) : QModelIndex :=
  if decide (m_addr P = m_addr root) then QModelIndex_invalid
  else createIndex (row root P) 0 (m_addr P).

(** ** Search *)

(** Text in which every character is ASCII.  The case folding of the model
    ([toLower]) is Qt's on such text. *)
Fixpoint is_ascii (s : string) : bool :=
  match s with
  | EmptyString => true
  | String c s' => (Ascii.nat_of_ascii c <? 128)%nat && is_ascii s'
  end.

(** The labels of the parts below the root, which are what a search reads,
    are ASCII. *)
Definition ascii_rows (root : t) : bool :=
  forallb (fun p => is_ascii (label p)) (flat_map parts (m_childItems root)).

(** The label of [p] contains the search string, whatever the case. *)
Definition matches (searchString : string) (p : t) : bool :=
  QString_contains (label p) searchString CaseInsensitive.

(** The first part of a list that matches. *)
Definition lfirst (searchString : string) (l : list t) : option t :=
  snd <$> list_find (fun p => matches searchString p = true) l.

(** The first part below the root, in depth-first pre-order, that
    matches. *)
Definition first_match (searchString : string) (root : t) : option t :=
  lfirst searchString (flat_map parts (m_childItems root)).

(** The index of a part that was found, the invalid index for none. *)
Definition found_index (root : t) (o : option t) : QModelIndex :=
  from_option (index_for root) QModelIndex_invalid o.

(** ** What the tree shows *)

(** The labels of the header. *)
Definition header : list QVariant :=
  [QVariant_str "Part"; QVariant_str "Visible?"; QVariant_str "Colour"].

(** The texts that [applyPropertiesToPart] writes into the columns
    "Visible?" and "Colour". *)
Definition visible_text (v : bool) : string := if v then "true" else "false".

Definition colour_text (c : QColor) : string :=
  (QString_number (red c) ++ "," ++ QString_number (green c) ++ ","
   ++ QString_number (blue c))%string.

(** The row of a part holds a string in each of the three columns. *)
Definition three_strings (p : t) : Prop :=
  exists a b c, m_itemData p = [QVariant_str a; QVariant_str b; QVariant_str c].

(** For a part with a render handle, the columns "Visible?" and "Colour"
    of its row, its visibility flag and its colour, and the visibility and
    the diffuse colour of its actor say the same. *)
Definition in_step (p : t) : Prop :=
  forall ac, actor p = Some ac ->
    data 1 p = QVariant_str (visible_text (visible p)) /\
    data 2 p = QVariant_str (colour_text (color p)) /\
    actor_visibility ac = visible p /\
    actor_diffuse ac = (red (color p), green (color p), blue (color p)).

Definition row_ok (p : t) : Prop := three_strings p /\ in_step p.

(** The tree as the window keeps it: the root is the first object
    allocated and carries the header; every row has its three strings and
    is in step with its actor. *)
Record grid_ok (root : t) : Prop := mk_grid_ok {
  grid_top : m_addr root = 0%nat;
  grid_header : m_itemData root = header;
  grid_cells : Forall row_ok (parts root)
}.

(** The tree after [applyPropertiesToPart] without a name for each address
    of a list, in order. *)
Definition write_all (v : bool) (c : QColor) (S : list addr) (root : t) : t :=
  foldl (fun r a => update_part a (applied "" v c false) r) root S.

(** The part at [a] in the tree [root] has a render handle. *)
Definition has_handle (root : t) (a : addr) : bool :=
  bool_decide (is_Some (find_part a root ≫= getActor)).

(** ** Sessions *)

(** The pointer of an index leads to a part of the tree. *)
Definition live (index : QModelIndex) (m : ModelPartList.t) : bool :=
  bool_decide (is_Some (ModelPartList.deref (internalPointer index) m)).

(** An index that a handler can work with: the invalid index, for which
    the handlers that test it do not follow the pointer, or an index whose
    pointer leads to a part of the tree. *)
Definition usable (index : QModelIndex) (m : ModelPartList.t) : bool :=
  negb (isValid index) || live index m.

(** The current index of the view once the delete handler has returned in
    the state [w]: the one it had, when that is invalid or still leads to
    a part of the tree (nothing was removed, or not the row it stands
    for); otherwise the selection model of the view has moved it, when the
    rows were removed, to a row that is left or to none.  Whatever it
    picks is an index that the model makes, and any such index is
    allowed here. *)
Definition view_after_delete (index : QModelIndex) (w : MainWindow.t) : Prop :=
  (index = MainWindow.currentIndex w /\
   usable index (MainWindow.partList w) = true) \/
  exists r c parent, index = ModelPartList.index r c parent (MainWindow.partList w).

(** The completions of the loads [tasks] (file name and what the reader
    produced) run on the main thread one after another, in this order,
    with no other event handled between them. *)
Definition completions (tasks : list (string * ParseOutcome))
    (w : MainWindow.t) : MainWindow.t :=
  foldl (fun w' fo => MainWindow.createModelPartFromFile (fst fo) (snd fo) w')
    w tasks.

(** What happens to the window in a session, one event at a time.

    - The view selects indices that the model has made for it ([index]
      gives the invalid index outside the bounds, so this includes
      selecting nothing).
    - A click is a click on a part of the tree: the current index leads to
      one.
    - A load is completed ([createModelPartFromFile]), Item Options and the
      delete handler run, with a current index that is invalid or leads to
      a part of the tree.  Open File itself leaves the window as it is; the
      loads it starts are completed by events of their own.
    - The slot of the new-group dialog runs with the index captured when
      the dialog was opened, which by then is still invalid or leads to a
      part of the tree.
    - The colour of the option dialog is a [QColor], with components in
      0..255.
    - When the delete handler has removed the row of the current index,
      the view moves its current index ([view_after_delete]).
    - A search is for ASCII text among ASCII labels. *)
Inductive user_action : MainWindow.t -> MainWindow.t -> Prop :=
| act_select r c parent w :
    user_action w
      (MainWindow.setCurrentIndex
         (ModelPartList.index r c parent (MainWindow.partList w)) w)
| act_click w :
    live (MainWindow.currentIndex w) (MainWindow.partList w) = true ->
    user_action w (MainWindow.handleTreeClicked w)
| act_load fileName outcome w :
    usable (MainWindow.currentIndex w) (MainWindow.partList w) = true ->
    user_action w (MainWindow.createModelPartFromFile fileName outcome w)
| act_group index groupName w :
    usable index (MainWindow.partList w) = true ->
    user_action w (MainWindow.on_actionNewGroup_accepted index groupName w)
| act_options dialog w :
    usable (MainWindow.currentIndex w) (MainWindow.partList w) = true ->
    (forall name v c, dialog = Some (name, v, c) -> QColor_in_range c) ->
    user_action w (MainWindow.on_actionItemOptions_triggered dialog w)
| act_delete yes index w :
    usable (MainWindow.currentIndex w) (MainWindow.partList w) = true ->
    view_after_delete index (MainWindow.on_actionDeleteFile_triggered yes w) ->
    user_action w
      (MainWindow.setCurrentIndex index
         (MainWindow.on_actionDeleteFile_triggered yes w))
| act_search ok searchTerm w :
    is_ascii searchTerm = true -> ascii_rows (MainWindow.root w) = true ->
    user_action w (MainWindow.on_actionSearchItem_triggered ok searchTerm w).

(** The states of a session: from the constructor of the window, through
    what happens to it. *)
Inductive session : MainWindow.t -> Prop :=
| session_new : session MainWindow.new
| session_action w w' : session w -> user_action w w' -> session w'.

(** What holds of the window throughout a session. *)
Record session_ok (w : MainWindow.t) : Prop := mk_session_ok {
  so_state : state_ok w;
  so_grid : grid_ok (MainWindow.root w);
  so_renderer : NoDup (MainWindow.renderer w);
  so_selection : internalPointer (MainWindow.currentIndex w) ≠ Some 0%nat;
  so_usable : usable (MainWindow.currentIndex w) (MainWindow.partList w) = true
}.

End Notions.

(** Decides a closed decidable proposition by evaluation. *)
Ltac by_evaluation :=
  match goal with
  | |- ?P => apply (bool_decide_unpack P); vm_compute; exact I
  end.

(** * Facts about trees of parts *)

Module TreeFacts.
Import ModelPart Spec.
Local Open Scope list_scope.

Lemma elem_of_flat_map {A B} (f : A -> list B) (l : list A) (y : B) :
  y ∈ flat_map f l <-> exists x, x ∈ l /\ y ∈ f x.
Proof.
  rewrite list_elem_of_In, in_flat_map.
  by setoid_rewrite list_elem_of_In.
Qed.

Lemma map_flat_map {A B C} (g : B -> C) (f : A -> list B) (l : list A) :
  map g (flat_map f l) = flat_map (fun x => map g (f x)) l.
Proof.
  induction l as [|x l IH]; simpl; [done|].
  by rewrite map_app, IH.
Qed.

Lemma parts_unfold n : parts n = n :: flat_map parts (m_childItems n).
Proof. by destruct n. Qed.

Lemma addrs_unfold n : addrs n = m_addr n :: flat_map addrs (m_childItems n).
Proof.
  unfold addrs at 1. rewrite parts_unfold. simpl. f_equal.
  apply map_flat_map.
Qed.

Lemma elem_of_parts_self n : n ∈ parts n.
Proof. rewrite parts_unfold. apply list_elem_of_here. Qed.

Lemma elem_of_addrs_self n : m_addr n ∈ addrs n.
Proof. rewrite addrs_unfold. apply list_elem_of_here. Qed.

Lemma elem_of_addrs a n : a ∈ addrs n <-> exists p, p ∈ parts n /\ m_addr p = a.
Proof.
  unfold addrs. rewrite list_elem_of_fmap. split; intros (p & H1 & H2); eauto.
Qed.

(** A part of a part of [n] is a part of [n]. *)
Lemma parts_trans n : forall p q, p ∈ parts n -> q ∈ parts p -> q ∈ parts n.
Proof.
  induction n as [a cs d pa v c r ac IH] using t_ind.
  intros p q Hp Hq. rewrite parts_unfold in Hp. simpl in Hp.
  apply elem_of_cons in Hp as [->|Hp]; [done|].
  apply elem_of_flat_map in Hp as (x & Hx & Hp).
  rewrite parts_unfold. simpl. apply list_elem_of_further.
  apply elem_of_flat_map. exists x. split; [done|].
  rewrite Forall_forall in IH. eapply IH; eauto.
Qed.

Lemma parts_child n c : c ∈ m_childItems n -> c ∈ parts n.
Proof.
  intros Hc. rewrite parts_unfold. apply list_elem_of_further.
  apply elem_of_flat_map. exists c. split; [done|apply elem_of_parts_self].
Qed.

(** Every part other than the top one is a child of some part. *)
Lemma parts_inv n : forall p, p ∈ parts n ->
  p = n \/ exists P, P ∈ parts n /\ p ∈ m_childItems P.
Proof.
  induction n as [a cs d pa v c r ac IH] using t_ind.
  intros p Hp. rewrite parts_unfold in Hp. simpl in Hp.
  apply elem_of_cons in Hp as [->|Hp]; [by left|right].
  apply elem_of_flat_map in Hp as (x & Hx & Hp).
  rewrite Forall_forall in IH. destruct (IH x Hx p Hp) as [->|(P & HP & Hc)].
  - eexists. split; [apply elem_of_parts_self|done].
  - exists P. split; [|done].
    eapply parts_trans; [|exact HP]. by apply parts_child.
Qed.


Lemma addrs_parts_subseteq n p : p ∈ parts n -> addrs p ⊆ addrs n.
Proof.
  intros Hp a Ha. apply elem_of_addrs in Ha as (q & Hq & <-).
  apply elem_of_addrs. exists q. split; [|done]. by eapply parts_trans.
Qed.

(** *** Searching a list of parts by address *)

Lemma find_part_lfind a n : find_part a n = lfind a (parts n).
Proof. done. Qed.

Lemma lfind_cons a x l :
  lfind a (x :: l) = if decide (m_addr x = a) then Some x else lfind a l.
Proof.
  unfold lfind. simpl. case_decide; [done|].
  by destruct (list_find _ l) as [[i y]|].
Qed.

Lemma lfind_app a l1 l2 :
  lfind a (l1 ++ l2) =
  match lfind a l1 with Some x => Some x | None => lfind a l2 end.
Proof.
  induction l1 as [|x l1 IH]; simpl; [done|].
  rewrite !lfind_cons. by case_decide.
Qed.

Lemma lfind_None a l : lfind a l = None <-> a ∉ map m_addr l.
Proof.
  induction l as [|x l IH]; simpl.
  - split; [intros _; apply not_elem_of_nil|done].
  - rewrite lfind_cons, not_elem_of_cons. case_decide as Hd.
    + split; [done|]. intros [Hne _]. by destruct Hne.
    + rewrite IH. split; [by intros ?; split|by intros [_ ?]].
Qed.

Lemma lfind_Some a l x : lfind a l = Some x -> x ∈ l /\ m_addr x = a.
Proof.
  induction l as [|y l IH]; [done|].
  rewrite lfind_cons. case_decide.
  - intros [= ->]. split; [apply list_elem_of_here|done].
  - intros H'. destruct (IH H') as [? ?]. split; [by apply list_elem_of_further|done].
Qed.

Lemma lfind_is_Some a l : a ∈ map m_addr l -> is_Some (lfind a l).
Proof.
  intros Ha. destruct (lfind a l) eqn:E; [eauto|].
  by apply lfind_None in E.
Qed.

Lemma lfind_NoDup l x :
  NoDup (map m_addr l) -> x ∈ l -> lfind (m_addr x) l = Some x.
Proof.
  induction l as [|y l IH]; simpl; intros Hnd Hx.
  - by apply elem_of_nil in Hx.
  - apply NoDup_cons in Hnd as [Hy Hnd]. rewrite lfind_cons.
    apply elem_of_cons in Hx as [->|Hx].
    + by rewrite decide_True.
    + rewrite decide_False; [by apply IH|].
      intros Heq. apply Hy. rewrite Heq.
      by apply (list_elem_of_fmap_2 m_addr).
Qed.

Lemma lfind_map (h : t -> t) a l :
  Forall (fun x => m_addr (h x) = m_addr x) l ->
  lfind a (map h l) = h <$> lfind a l.
Proof.
  induction 1 as [|x l Hx _ IH]; simpl; [done|].
  rewrite !lfind_cons, Hx. by case_decide.
Qed.

Lemma find_part_Some a n p : find_part a n = Some p -> p ∈ parts n /\ m_addr p = a.
Proof. apply lfind_Some. Qed.

Lemma find_part_None a n : find_part a n = None <-> a ∉ addrs n.
Proof. apply lfind_None. Qed.

Lemma find_part_NoDup n p :
  NoDup (addrs n) -> p ∈ parts n -> find_part (m_addr p) n = Some p.
Proof. apply lfind_NoDup. Qed.

Lemma find_part_self n : find_part (m_addr n) n = Some n.
Proof.
  rewrite find_part_lfind, parts_unfold, lfind_cons. by rewrite decide_True.
Qed.

Lemma find_part_is_Some a n : a ∈ addrs n -> is_Some (find_part a n).
Proof. apply lfind_is_Some. Qed.

(** Two parts of a tree without repeated addresses that share an address
    are the same part. *)
Lemma parts_addr_inj n p q :
  NoDup (addrs n) -> p ∈ parts n -> q ∈ parts n -> m_addr p = m_addr q -> p = q.
Proof.
  intros Hnd Hp Hq Heq.
  pose proof (find_part_NoDup n p Hnd Hp) as H1.
  pose proof (find_part_NoDup n q Hnd Hq) as H2.
  rewrite Heq in H1. congruence.
Qed.

Lemma NoDup_addrs_part n p : NoDup (addrs n) -> p ∈ parts n -> NoDup (addrs p).
Proof.
  revert p. induction n as [a cs d pa v c r ac IH] using t_ind.
  intros p Hnd Hp. rewrite parts_unfold in Hp. simpl in Hp.
  apply elem_of_cons in Hp as [->|Hp]; [done|].
  rewrite addrs_unfold in Hnd. simpl in Hnd.
  apply NoDup_cons in Hnd as [_ Hnd].
  apply elem_of_flat_map in Hp as (x & Hx & Hp).
  rewrite Forall_forall in IH. apply (IH x Hx p); [|done].
  clear -Hnd Hx. induction cs as [|y cs IHcs]; [by apply elem_of_nil in Hx|].
  simpl in Hnd. apply NoDup_app in Hnd as (H1 & _ & H2).
  apply elem_of_cons in Hx as [->|Hx]; auto.
Qed.

(** *** Calls through a pointer *)

Lemma update_part_unfold a f n :
  update_part a f n =
  if decide (m_addr n = a) then f n
  else with_children (map (update_part a f) (m_childItems n)) n.
Proof. by destruct n. Qed.

Lemma update_part_addr a f n :
  m_addr n ≠ a -> m_addr (update_part a f n) = m_addr n.
Proof. intros H. rewrite update_part_unfold. by rewrite decide_False. Qed.

Lemma update_part_notin a f n : a ∉ addrs n -> update_part a f n = n.
Proof.
  induction n as [a' cs d pa v c r ac IH] using t_ind.
  intros Hn. rewrite addrs_unfold in Hn. simpl in Hn.
  apply not_elem_of_cons in Hn as [Hne Hn].
  rewrite update_part_unfold. simpl. rewrite decide_False by done.
  unfold with_children. simpl. f_equal.
  induction cs as [|x cs IHcs]; simpl; [done|].
  simpl in Hn. apply not_elem_of_app in Hn as [H1 H2].
  apply Forall_cons in IH as [IHx IHr]. f_equal; auto.
Qed.

Lemma update_part_notin_list a f (l : list t) :
  Forall (fun q => a ∉ addrs q) l -> map (update_part a f) l = l.
Proof.
  induction 1 as [|x l Hx _ IH]; simpl; [done|].
  by rewrite update_part_notin, IH.
Qed.

Lemma notin_addrs_parts a (cs : list t) :
  a ∉ flat_map addrs cs -> Forall (fun q => a ∉ addrs q) (flat_map parts cs).
Proof.
  intros Hn. apply Forall_forall. intros q Hq Ha.
  apply elem_of_flat_map in Hq as (x & Hx & Hq).
  apply Hn. apply elem_of_flat_map. exists x. split; [done|].
  by eapply addrs_parts_subseteq.
Qed.

(** The parts of a tree after a call on its part [p]: the parts listed
    before [p] keep their place (the owners of [p] among them now hold the
    new [p]), the parts owned by [p] give way to those of [f p], and the
    parts listed after are untouched. *)
Lemma parts_update_list a f p (cs : list t) :
  Forall (fun n => NoDup (addrs n) -> p ∈ parts n ->
     exists l1 l2, parts n = l1 ++ parts p ++ l2 /\
       parts (update_part a f n)
       = map (update_part a f) l1 ++ parts (f p) ++ l2 /\
       Forall (fun q => a ∉ addrs q) l2) cs ->
  m_addr p = a ->
  NoDup (flat_map addrs cs) -> p ∈ flat_map parts cs ->
  exists l1 l2, flat_map parts cs = l1 ++ parts p ++ l2 /\
    flat_map parts (map (update_part a f) cs)
    = map (update_part a f) l1 ++ parts (f p) ++ l2 /\
    Forall (fun q => a ∉ addrs q) l2.
Proof.
  intros IH Hpa. induction cs as [|x cs IHcs]; simpl; intros Hnd Hp.
  - by apply elem_of_nil in Hp.
  - apply Forall_cons in IH as [IHx IHr].
    apply NoDup_app in Hnd as (Hndx & Hdisj & Hndr).
    apply elem_of_app in Hp as [Hp|Hp].
    + destruct (IHx Hndx Hp) as (l1 & l2 & E1 & E2 & Hl2).
      assert (a ∉ flat_map addrs cs) as Hna.
      { apply Hdisj. rewrite <- Hpa. eapply addrs_parts_subseteq; [exact Hp|].
        apply elem_of_addrs_self. }
      exists l1, (l2 ++ flat_map parts cs). split; [|split].
      * rewrite E1. by rewrite <- !app_assoc.
      * rewrite E2. rewrite (update_part_notin_list a f cs).
        { by rewrite <- !app_assoc. }
        apply Forall_forall. intros q Hq Ha. apply Hna.
        apply elem_of_flat_map. eauto.
      * apply Forall_app. split; [done|]. by apply notin_addrs_parts.
    + assert (a ∉ addrs x) as Hna.
      { intros Ha. apply (Hdisj a Ha). apply elem_of_flat_map in Hp as (y & Hy & Hp).
        apply elem_of_flat_map. exists y. split; [done|].
        rewrite <- Hpa. eapply addrs_parts_subseteq; [exact Hp|].
        apply elem_of_addrs_self. }
      destruct (IHcs IHr Hndr Hp) as (l1 & l2 & E1 & E2 & Hl2).
      exists (parts x ++ l1), l2. split; [|split; [|done]].
      * rewrite E1. by rewrite <- !app_assoc.
      * rewrite E2, (update_part_notin _ _ x Hna), map_app.
        rewrite (update_part_notin_list a f (parts x)).
        { by rewrite <- !app_assoc. }
        apply Forall_forall. intros q Hq Ha. apply Hna.
        by eapply addrs_parts_subseteq.
Qed.

Lemma parts_update a f p n :
  NoDup (addrs n) -> p ∈ parts n -> m_addr p = a ->
  exists l1 l2, parts n = l1 ++ parts p ++ l2 /\
    parts (update_part a f n) = map (update_part a f) l1 ++ parts (f p) ++ l2 /\
    Forall (fun q => a ∉ addrs q) l2.
Proof.
  intros Hnd Hp Hpa. revert Hnd Hp.
  induction n as [a' cs d pa v c r ac IH] using t_ind. intros Hnd Hp.
  destruct (decide (a' = a)) as [->|Hne].
  - assert (p = mk a cs d pa v c r ac) as ->.
    { eapply parts_addr_inj; eauto using elem_of_parts_self. }
    exists [], []. rewrite update_part_unfold. simpl.
    rewrite decide_True by done. by rewrite !app_nil_r.
  - rewrite parts_unfold in Hp. simpl in Hp.
    apply elem_of_cons in Hp as [->|Hp]; [done|].
    rewrite addrs_unfold in Hnd. simpl in Hnd.
    apply NoDup_cons in Hnd as [_ Hnd].
    destruct (parts_update_list a f p cs) as (l1 & l2 & E1 & E2 & Hl2); auto.
    exists (mk a' cs d pa v c r ac :: l1), l2. split; [|split; [|done]].
    + rewrite parts_unfold. simpl. by rewrite E1.
    + cbn [map]. rewrite update_part_unfold. cbn [m_addr m_childItems].
      rewrite decide_False by done.
      rewrite parts_unfold. cbn [with_children m_childItems app].
      by rewrite E2.
Qed.


Lemma parts_update_l1 a p (l1 l2 : list t) :
  NoDup (map m_addr (l1 ++ parts p ++ l2)) -> m_addr p = a ->
  Forall (fun q => m_addr q ≠ a) l1.
Proof.
  intros Hnd Hpa. rewrite map_app in Hnd.
  apply NoDup_app in Hnd as (_ & Hdisj & _).
  apply Forall_forall. intros q Hq Heq.
  apply (Hdisj a).
  - rewrite <- Heq. by apply (list_elem_of_fmap_2 m_addr).
  - rewrite map_app. apply elem_of_app. left. rewrite <- Hpa.
    apply elem_of_addrs_self.
Qed.

Lemma map_addr_update a f (l : list t) :
  Forall (fun q => m_addr q ≠ a) l ->
  map m_addr (map (update_part a f) l) = map m_addr l.
Proof.
  induction 1 as [|x l Hx _ IH]; simpl; [done|].
  by rewrite update_part_addr, IH.
Qed.

Lemma addrs_update a f p n :
  NoDup (addrs n) -> p ∈ parts n -> m_addr p = a ->
  exists l1 l2, addrs n = l1 ++ addrs p ++ l2 /\
    addrs (update_part a f n) = l1 ++ addrs (f p) ++ l2.
Proof.
  intros Hnd Hp Hpa.
  destruct (parts_update a f p n Hnd Hp Hpa) as (l1 & l2 & E1 & E2 & _).
  exists (map m_addr l1), (map m_addr l2). unfold addrs in *.
  rewrite E1 in Hnd. rewrite E1, E2, !map_app. split; [done|].
  rewrite map_addr_update; [done|]. by eapply parts_update_l1.
Qed.

Lemma find_update_same a f p n :
  NoDup (addrs n) -> p ∈ parts n -> m_addr p = a -> m_addr (f p) = a ->
  find_part a (update_part a f n) = Some (f p).
Proof.
  intros Hnd Hp Hpa Hfa.
  destruct (parts_update a f p n Hnd Hp Hpa) as (l1 & l2 & E1 & E2 & _).
  rewrite find_part_lfind, E2, lfind_app.
  unfold addrs in Hnd. rewrite E1 in Hnd.
  pose proof (parts_update_l1 a p l1 l2 Hnd Hpa) as Hl1.
  replace (lfind a (map (update_part a f) l1)) with (@None t).
  - rewrite lfind_app, parts_unfold, lfind_cons. by rewrite decide_True.
  - symmetry. apply lfind_None. rewrite map_addr_update by done.
    intros Ha. apply list_elem_of_fmap in Ha as (q & Hq1 & Hq2).
    rewrite Forall_forall in Hl1. by apply (Hl1 q Hq2).
Qed.

Lemma find_update_other a f p n b :
  NoDup (addrs n) -> p ∈ parts n -> m_addr p = a ->
  b ∉ addrs p -> b ∉ addrs (f p) ->
  find_part b (update_part a f n) = update_part a f <$> find_part b n.
Proof.
  intros Hnd Hp Hpa Hb1 Hb2.
  destruct (parts_update a f p n Hnd Hp Hpa) as (l1 & l2 & E1 & E2 & Hl2).
  rewrite !find_part_lfind, E1, E2, !lfind_app.
  unfold addrs in Hnd. rewrite E1 in Hnd.
  pose proof (parts_update_l1 a p l1 l2 Hnd Hpa) as Hl1.
  rewrite lfind_map.
  2:{ eapply Forall_impl; [exact Hl1|]. intros q Hq. by apply update_part_addr. }
  destruct (lfind b l1) as [q|]; [done|]. simpl.
  apply (lfind_None b) in Hb1. apply (lfind_None b) in Hb2.
  rewrite Hb1, Hb2.
  destruct (lfind b l2) as [q|] eqn:E; [|done]. simpl.
  apply lfind_Some in E as [Hq _]. rewrite Forall_forall in Hl2.
  by rewrite update_part_notin by auto.
Qed.

Lemma find_update_fresh a f p n b :
  NoDup (addrs n) -> p ∈ parts n -> m_addr p = a -> b ∉ addrs n ->
  find_part b (update_part a f n) = find_part b (f p).
Proof.
  intros Hnd Hp Hpa Hb.
  destruct (parts_update a f p n Hnd Hp Hpa) as (l1 & l2 & E1 & E2 & Hl2).
  unfold addrs in Hb, Hnd. rewrite E1 in Hb, Hnd. rewrite !map_app in Hb.
  apply not_elem_of_app in Hb as [Hb1 Hb]. apply not_elem_of_app in Hb as [_ Hb2].
  pose proof (parts_update_l1 a p l1 l2 Hnd Hpa) as Hl1.
  rewrite !find_part_lfind, E2, !lfind_app.
  replace (lfind b (map (update_part a f) l1)) with (@None t).
  - apply lfind_None in Hb2. rewrite Hb2. by destruct (lfind b (parts (f p))).
  - symmetry. apply lfind_None. by rewrite map_addr_update.
Qed.

Lemma NoDup_update a f p n :
  NoDup (addrs n) -> p ∈ parts n -> m_addr p = a ->
  NoDup (addrs (f p)) ->
  (forall b, b ∈ addrs (f p) -> b ∈ addrs p \/ b ∉ addrs n) ->
  NoDup (addrs (update_part a f n)).
Proof.
  intros Hnd Hp Hpa Hf Hsub.
  destruct (addrs_update a f p n Hnd Hp Hpa) as (l1 & l2 & E1 & E2).
  rewrite E2. rewrite E1 in Hnd.
  apply NoDup_app in Hnd as (N1 & D1 & Hnd).
  apply NoDup_app in Hnd as (N2 & D2 & N3).
  apply NoDup_app. split; [done|]. split.
  - intros x Hx Hx'. apply elem_of_app in Hx' as [Hx'|Hx'].
    + destruct (Hsub x Hx') as [Hin|Hout].
      * apply (D1 x Hx). apply elem_of_app. by left.
      * apply Hout. rewrite E1. apply elem_of_app. by left.
    + apply (D1 x Hx). apply elem_of_app. by right.
  - apply NoDup_app. split; [done|]. split; [|done].
    intros x Hx Hx'. destruct (Hsub x Hx) as [Hin|Hout].
    + by apply (D2 x Hin).
    + apply Hout. rewrite E1. rewrite !elem_of_app. auto.
Qed.


(** *** Parent pointers *)

Lemma parents_ok_inv n :
  parents_ok n ->
  Forall (fun c => m_parentItem c = Some (m_addr n)) (m_childItems n) /\
  Forall parents_ok (m_childItems n).
Proof. by inversion 1. Qed.

Lemma parents_ok_part n : forall p, parents_ok n -> p ∈ parts n -> parents_ok p.
Proof.
  induction n as [a cs d pa v c r ac IH] using t_ind.
  intros p Hok Hp. rewrite parts_unfold in Hp. simpl in Hp.
  apply elem_of_cons in Hp as [->|Hp]; [done|].
  apply elem_of_flat_map in Hp as (x & Hx & Hp).
  apply parents_ok_inv in Hok as [_ Hok]. simpl in Hok.
  rewrite Forall_forall in IH, Hok. eauto.
Qed.

Lemma parents_ok_child n P c :
  parents_ok n -> P ∈ parts n -> c ∈ m_childItems P ->
  m_parentItem c = Some (m_addr P).
Proof.
  intros Hok HP Hc. pose proof (parents_ok_part n P Hok HP) as HokP.
  apply parents_ok_inv in HokP as [H _]. rewrite Forall_forall in H. auto.
Qed.

Lemma parents_ok_update a f n :
  parents_ok n ->
  (forall p, p ∈ parts n -> m_addr p = a ->
     parents_ok (f p) /\ m_addr (f p) = a /\ m_parentItem (f p) = m_parentItem p) ->
  parents_ok (update_part a f n).
Proof.
  induction n as [a' cs d pa v c r ac IH] using t_ind. intros Hok Hf.
  rewrite update_part_unfold. cbn [m_addr m_childItems]. case_decide as Hd.
  - apply Hf; [apply elem_of_parts_self|done].
  - apply parents_ok_inv in Hok as [Hpar Hok]. cbn [m_addr m_childItems] in *.
    constructor; cbn [with_children m_addr m_childItems].
    + apply Forall_fmap. eapply Forall_impl; [|intros x Hx; exact Hx].
      apply Forall_forall. intros x Hx. unfold compose.
      rewrite Forall_forall in Hpar. rewrite update_part_unfold.
      case_decide as Hd'.
      * destruct (Hf x) as (_ & _ & ->); auto.
        apply (parts_child (mk a' cs d pa v c r ac)). done.
      * unfold with_children. simpl. auto.
    + apply Forall_fmap. apply Forall_forall. intros x Hx. unfold compose.
      rewrite Forall_forall in IH, Hok. apply IH; auto.
      intros p Hp. apply Hf. eapply parts_trans; [|exact Hp].
      by apply (parts_child (mk a' cs d pa v c r ac)).
Qed.

Lemma NoDup_child_addrs (cs : list t) :
  NoDup (flat_map addrs cs) -> NoDup (map m_addr cs).
Proof.
  induction cs as [|x cs IH]; simpl; intros Hnd; [constructor|].
  apply NoDup_app in Hnd as (_ & Hdisj & Hnd).
  apply NoDup_cons. split; [|auto].
  intros Hx. apply (Hdisj (m_addr x)); [apply elem_of_addrs_self|].
  apply list_elem_of_fmap in Hx as (y & Hy1 & Hy2).
  apply elem_of_flat_map. exists y. split; [done|].
  rewrite Hy1. apply elem_of_addrs_self.
Qed.

Lemma NoDup_children n : NoDup (addrs n) -> NoDup (map m_addr (m_childItems n)).
Proof.
  rewrite addrs_unfold. intros Hnd. apply NoDup_cons in Hnd as [_ Hnd].
  by apply NoDup_child_addrs.
Qed.

Lemma indexOf_lookup (cs : list t) i n :
  NoDup (map m_addr cs) -> cs !! i = Some n ->
  indexOf (m_addr n) cs = Z.of_nat i.
Proof.
  intros Hnd Hi. unfold indexOf.
  assert (list_find (fun p => m_addr p = m_addr n) cs = Some (i, n)) as ->; [|done].
  apply list_find_Some. split; [done|]. split; [done|].
  intros j y Hj Hlt Heq.
  assert (j = i); [|lia].
  eapply NoDup_lookup; [exact Hnd| |].
  - rewrite list_lookup_fmap, Hj. simpl. by rewrite Heq.
  - by rewrite list_lookup_fmap, Hi.
Qed.

Lemma child_lookup (i : nat) P n :
  m_childItems P !! i = Some n -> child (Z.of_nat i) P = Some n.
Proof.
  intros Hi. unfold child. pose proof (lookup_lt_Some _ _ _ Hi) as Hlt.
  rewrite Nat2Z.id.
  destruct (Z.of_nat i <? 0) eqn:E1; [lia|].
  destruct (Z.of_nat (length (m_childItems P)) <=? Z.of_nat i) eqn:E2; [lia|].
  done.
Qed.

(** The position property: a part below the top is the child of its
    parent at the index [row] gives. *)
Lemma position_ok root n :
  NoDup (addrs root) -> parents_ok root -> n ∈ parts root -> n ≠ root ->
  exists P i, m_parentItem n = Some (m_addr P) /\
    find_part (m_addr P) root = Some P /\
    m_childItems P !! i = Some n /\
    row root n = Z.of_nat i /\
    child (row root n) P = Some n.
Proof.
  intros Hnd Hok Hn Hne.
  destruct (parts_inv root n Hn) as [->|(P & HP & Hc)]; [done|].
  apply list_elem_of_lookup in Hc as [i Hi].
  assert (m_parentItem n = Some (m_addr P)) as Hpar.
  { eapply parents_ok_child; eauto. by eapply list_elem_of_lookup_2. }
  assert (find_part (m_addr P) root = Some P) as Hfind by by apply find_part_NoDup.
  assert (row root n = Z.of_nat i) as Hrow.
  { unfold row. rewrite Hpar, Hfind. apply indexOf_lookup; [|done].
    apply NoDup_children. by eapply NoDup_addrs_part. }
  exists P, i. repeat split; try done.
  rewrite Hrow. by apply child_lookup.
Qed.


(** *** The invariant [tree_ok] *)

Lemma update_part_parent a f n :
  m_parentItem (f n) = m_parentItem n ->
  m_parentItem (update_part a f n) = m_parentItem n.
Proof. intros H. rewrite update_part_unfold. by case_decide. Qed.

Lemma update_part_itemData a f n :
  m_itemData (f n) = m_itemData n ->
  m_itemData (update_part a f n) = m_itemData n.
Proof. intros H. rewrite update_part_unfold. by case_decide. Qed.

Lemma update_part_actor a f n :
  actor (f n) = actor n -> actor (update_part a f n) = actor n.
Proof. intros H. rewrite update_part_unfold. by case_decide. Qed.

Lemma update_part_top_addr a f n :
  m_addr (f n) = m_addr n -> m_addr (update_part a f n) = m_addr n.
Proof. intros H. rewrite update_part_unfold. by case_decide. Qed.

Lemma addrs_with_parent p n : addrs (with_parent p n) = addrs n.
Proof. by destruct n. Qed.

Lemma parents_ok_with_parent p n : parents_ok n -> parents_ok (with_parent p n).
Proof. intros [H1 H2]%parents_ok_inv. by constructor. Qed.

Lemma addrs_appendChild item p :
  addrs (appendChild item p) = addrs p ++ addrs item.
Proof.
  rewrite (addrs_unfold (appendChild _ _)), (addrs_unfold p).
  cbn [appendChild with_children m_addr m_childItems].
  rewrite flat_map_app. cbn [flat_map]. by rewrite app_nil_r, addrs_with_parent.
Qed.

Lemma tree_ok_new a data : tree_ok (ModelPart.new a data None).
Proof.
  split; [|by constructor|done].
  rewrite addrs_unfold. simpl. apply NoDup_singleton.
Qed.

Lemma tree_ok_appendChild root this item :
  tree_ok root -> NoDup (addrs item) -> parents_ok item ->
  (forall b, b ∈ addrs item -> b ∉ addrs root) ->
  tree_ok (update_part this (appendChild item) root).
Proof.
  intros [Hnd Hok Htop] Hi1 Hi2 Hfresh.
  destruct (decide (this ∈ addrs root)) as [Hin|Hout].
  2:{ by rewrite update_part_notin. }
  apply elem_of_addrs in Hin as (p & Hp & Hpa).
  split.
  - apply (NoDup_update this _ p root Hnd Hp Hpa).
    + rewrite addrs_appendChild. apply NoDup_app. split; [|split; [|done]].
      * apply (NoDup_addrs_part root p Hnd Hp).
      * intros x Hx Hx'. apply (Hfresh x Hx').
        by eapply addrs_parts_subseteq.
    + intros b. rewrite addrs_appendChild, elem_of_app. intros [?|?]; auto.
  - apply parents_ok_update; [done|]. intros q Hq Hqa.
    split; [|by split].
    pose proof (parents_ok_part root q Hok Hq) as [H1 H2]%parents_ok_inv.
    constructor; cbn [appendChild with_children m_addr m_childItems].
    + apply Forall_app. split; [done|]. by repeat constructor.
    + apply Forall_app. split; [done|].
      constructor; [|constructor]. by apply parents_ok_with_parent.
  - by rewrite update_part_parent.
Qed.

Lemma removeChild_cases position p :
  removeChild position p = p \/
  exists i, removeChild position p = with_children (delete i (m_childItems p)) p.
Proof.
  unfold removeChild.
  destruct ((position <? 0) || _); [by left|right; eauto].
Qed.

Lemma addrs_with_children cs n :
  addrs (with_children cs n) = m_addr n :: flat_map addrs cs.
Proof. by rewrite addrs_unfold. Qed.

Lemma flat_map_sublist {A B} (f : A -> list B) (l1 l2 : list A) :
  l1 `sublist_of` l2 -> flat_map f l1 `sublist_of` flat_map f l2.
Proof.
  induction 1; simpl.
  - constructor.
  - by apply sublist_app.
  - by apply sublist_inserts_l.
Qed.

Lemma tree_ok_with_sublist root this (g : t -> t) :
  tree_ok root ->
  (forall p, exists cs, cs `sublist_of` m_childItems p /\ g p = with_children cs p) ->
  tree_ok (update_part this g root).
Proof.
  intros [Hnd Hok Htop] Hg.
  destruct (decide (this ∈ addrs root)) as [Hin|Hout].
  2:{ by rewrite update_part_notin. }
  apply elem_of_addrs in Hin as (p & Hp & Hpa).
  assert (forall q, addrs (g q) `sublist_of` addrs q) as Hsub.
  { intros q. destruct (Hg q) as (cs & Hcs & ->).
    rewrite addrs_with_children, (addrs_unfold q).
    apply sublist_skip. by apply flat_map_sublist. }
  split.
  - apply (NoDup_update this _ p root Hnd Hp Hpa).
    + eapply sublist_NoDup; [|apply Hsub]. apply (NoDup_addrs_part root p Hnd Hp).
    + intros b Hb. left. eapply sublist_subseteq; [apply Hsub|done].
  - apply parents_ok_update; [done|]. intros q Hq Hqa.
    destruct (Hg q) as (cs & Hcs & ->). split; [|by split].
    pose proof (parents_ok_part root q Hok Hq) as [H1 H2]%parents_ok_inv.
    constructor; cbn [with_children m_addr m_childItems].
    + eapply Forall_forall. intros x Hx. rewrite Forall_forall in H1.
      apply H1. eapply sublist_subseteq; eauto.
    + eapply Forall_forall. intros x Hx. rewrite Forall_forall in H2.
      apply H2. eapply sublist_subseteq; eauto.
  - rewrite update_part_parent; [done|]. by destruct (Hg root) as (cs & _ & ->).
Qed.

Lemma with_children_id n : with_children (m_childItems n) n = n.
Proof. by destruct n. Qed.

Lemma tree_ok_removeChild root this position :
  tree_ok root -> tree_ok (update_part this (removeChild position) root).
Proof.
  intros Hok. apply tree_ok_with_sublist; [done|]. intros p.
  destruct (removeChild_cases position p) as [->|(i & ->)].
  - exists (m_childItems p). by rewrite with_children_id.
  - eexists. split; [apply sublist_delete|done].
Qed.

Lemma tree_ok_fields root this g :
  tree_ok root -> fields_only g -> tree_ok (update_part this g root).
Proof.
  intros [Hnd Hok Htop] Hg.
  destruct (decide (this ∈ addrs root)) as [Hin|Hout].
  2:{ by rewrite update_part_notin. }
  apply elem_of_addrs in Hin as (p & Hp & Hpa).
  assert (forall q, addrs (g q) = addrs q) as Haddrs.
  { intros q. destruct (Hg q) as (E1 & E2 & _).
    by rewrite (addrs_unfold (g q)), (addrs_unfold q), E1, E2. }
  split.
  - apply (NoDup_update this _ p root Hnd Hp Hpa).
    + rewrite Haddrs. apply (NoDup_addrs_part root p Hnd Hp).
    + intros b. rewrite Haddrs. auto.
  - apply parents_ok_update; [done|]. intros q Hq Hqa.
    destruct (Hg q) as (E1 & E2 & E3). split; [|split; congruence].
    pose proof (parents_ok_part root q Hok Hq) as [H1 H2]%parents_ok_inv.
    constructor; rewrite E2; [by rewrite E1|done].
  - rewrite update_part_parent; [done|]. apply Hg.
Qed.

Lemma reachable_tree_ok root : reachable root -> tree_ok root.
Proof.
  induction 1.
  - apply tree_ok_new.
  - by apply tree_ok_appendChild.
  - by apply tree_ok_removeChild.
  - by apply tree_ok_fields.
Qed.


Lemma find_update_within a f p n b :
  NoDup (addrs n) -> p ∈ parts n -> m_addr p = a ->
  b ∈ addrs p \/ b ∉ addrs n ->
  find_part b (update_part a f n) = find_part b (f p).
Proof.
  intros Hnd Hp Hpa [Hb|Hb]; [|by apply find_update_fresh].
  destruct (parts_update a f p n Hnd Hp Hpa) as (l1 & l2 & E1 & E2 & Hl2).
  unfold addrs in Hnd. rewrite E1, !map_app in Hnd.
  pose proof Hnd as Hnd'.
  apply NoDup_app in Hnd as (_ & D1 & Hnd).
  apply NoDup_app in Hnd as (_ & D2 & _).
  assert (Forall (fun q => m_addr q ≠ a) l1) as Hl1.
  { apply (parts_update_l1 a p l1 l2); [by rewrite !map_app|done]. }
  rewrite !find_part_lfind, E2, !lfind_app.
  replace (lfind b (map (update_part a f) l1)) with (@None t).
  - replace (lfind b l2) with (@None t); [by destruct (lfind b (parts (f p)))|].
    symmetry. apply lfind_None. by apply D2.
  - symmetry. apply lfind_None. rewrite map_addr_update by done.
    intros Hb1. apply (D1 b Hb1). apply elem_of_app. by left.
Qed.

Lemma update_part_ext a f g n :
  (forall q, q ∈ parts n -> m_addr q = a -> f q = g q) ->
  update_part a f n = update_part a g n.
Proof.
  induction n as [a' cs d pa v c r ac IH] using t_ind. intros Hfg.
  rewrite !update_part_unfold. case_decide as Hd.
  - apply Hfg; [apply elem_of_parts_self|done].
  - f_equal. apply map_ext_in. intros x Hx%list_elem_of_In.
    rewrite Forall_forall in IH. apply IH; [done|].
    intros q Hq. apply Hfg. eapply parts_trans; [|exact Hq].
    by apply (parts_child (mk a' cs d pa v c r ac)).
Qed.

Lemma update_part_compose a f g n :
  (forall q, m_addr (f q) = m_addr q) ->
  update_part a g (update_part a f n) = update_part a (g ∘ f) n.
Proof.
  intros Hf. induction n as [a' cs d pa v c r ac IH] using t_ind.
  rewrite (update_part_unfold a f), (update_part_unfold a (g ∘ f)).
  cbn [m_addr m_childItems]. case_decide as Hd.
  - rewrite update_part_unfold, Hf. cbn [m_addr]. by rewrite decide_True.
  - rewrite update_part_unfold. cbn [with_children m_addr m_childItems].
    rewrite decide_False by done. unfold with_children. simpl. f_equal.
    rewrite map_map. apply map_ext_in. intros x Hx%list_elem_of_In.
    rewrite Forall_forall in IH. by apply IH.
Qed.

Lemma find_appendChild_new item p :
  m_addr item ∉ addrs p ->
  find_part (m_addr item) (appendChild item p)
  = Some (with_parent (Some (m_addr p)) item).
Proof.
  intros Hn. rewrite addrs_unfold in Hn. apply not_elem_of_cons in Hn as [Hne Hn].
  rewrite find_part_lfind, parts_unfold, lfind_cons.
  cbn [appendChild with_children m_addr m_childItems].
  rewrite decide_False by done.
  rewrite flat_map_app, lfind_app.
  replace (lfind (m_addr item) (flat_map parts (m_childItems p))) with (@None t).
  - cbn [flat_map]. rewrite app_nil_r, parts_unfold, lfind_cons.
    rewrite decide_True; [done|by destruct item].
  - symmetry. apply lfind_None. by rewrite map_flat_map.
Qed.

Lemma find_appendChild_old item p b :
  b ≠ m_addr p -> b ∈ addrs p ->
  find_part b (appendChild item p) = find_part b p.
Proof.
  intros Hne Hb. rewrite (addrs_unfold p) in Hb.
  apply elem_of_cons in Hb as [?|Hb]; [done|].
  rewrite !find_part_lfind, (parts_unfold (appendChild _ _)), (parts_unfold p).
  rewrite !lfind_cons.
  cbn [appendChild with_children m_addr m_childItems].
  rewrite !decide_False by done.
  rewrite flat_map_app, lfind_app.
  destruct (lfind b (flat_map parts (m_childItems p))) eqn:E; [done|].
  apply lfind_None in E. by rewrite map_flat_map in E.
Qed.

(** *** Field writes *)

Lemma flat_map_parts_update_notin a f (cs : list t) :
  a ∉ flat_map addrs cs ->
  map (update_part a f) (flat_map parts cs) = flat_map parts cs.
Proof. intros Hn. apply update_part_notin_list. by apply notin_addrs_parts. Qed.

Lemma parts_update_fields a g n :
  NoDup (addrs n) -> fields_only g ->
  parts (update_part a g n) = map (update_part a g) (parts n).
Proof.
  intros Hnd Hg. induction n as [a' cs d pa v c r ac IH] using t_ind.
  rewrite addrs_unfold in Hnd. cbn [m_addr m_childItems] in Hnd.
  apply NoDup_cons in Hnd as [Hhd Hnd].
  rewrite (parts_unfold (mk _ _ _ _ _ _ _ _)). cbn [m_childItems map].
  rewrite update_part_unfold. cbn [m_addr m_childItems]. case_decide as Hd.
  - subst a'. rewrite flat_map_parts_update_notin by done.
    rewrite parts_unfold. by destruct (Hg (mk a cs d pa v c r ac)) as (_ & -> & _).
  - rewrite parts_unfold. cbn [with_children m_childItems]. f_equal.
    clear Hhd Hd. induction cs as [|x cs IHcs]; [done|].
    cbn [map flat_map]. rewrite map_app.
    cbn [flat_map] in Hnd. apply NoDup_app in Hnd as (Hx & _ & Hcs).
    apply Forall_cons in IH as [IHx IHr].
    by rewrite IHx, IHcs.
Qed.

Lemma update_part_fields_addr a g n :
  fields_only g -> m_addr (update_part a g n) = m_addr n.
Proof.
  intros Hg. rewrite update_part_unfold. case_decide; [apply Hg|done].
Qed.

Lemma addrs_update_fields a g n :
  NoDup (addrs n) -> fields_only g -> addrs (update_part a g n) = addrs n.
Proof.
  intros Hnd Hg. unfold addrs. rewrite parts_update_fields by done.
  rewrite map_map. apply map_ext. intros q. by apply update_part_fields_addr.
Qed.

Lemma find_update_fields a g n b :
  NoDup (addrs n) -> fields_only g ->
  find_part b (update_part a g n) = update_part a g <$> find_part b n.
Proof.
  intros Hnd Hg. rewrite !find_part_lfind, parts_update_fields by done.
  apply lfind_map. apply Forall_forall. intros q _.
  by apply update_part_fields_addr.
Qed.

Lemma data_set_other j k x n :
  0 <= j -> k ≠ j -> data j (set k x n) = data j n.
Proof.
  intros Hj Hne. unfold set. destruct ((0 <=? k) && _) eqn:E; [|done].
  apply andb_true_iff in E as [E1 E2].
  unfold data. cbn [m_itemData]. rewrite length_insert.
  destruct ((j <? 0) || _); [done|].
  rewrite list_lookup_insert_ne; [done|lia].
Qed.

Lemma data_set_same k x n :
  0 <= k < columnCount n -> data k (set k x n) = x.
Proof.
  intros Hk. unfold set, data, columnCount in *.
  destruct ((0 <=? k) && (k <? Z.of_nat (length (m_itemData n)))) eqn:E; [|lia].
  cbn [m_itemData]. rewrite length_insert.
  destruct ((k <? 0) || (Z.of_nat (length (m_itemData n)) <=? k)) eqn:E'; [lia|].
  rewrite list_lookup_insert_eq; [done|lia].
Qed.

Lemma set_actor k x n : actor (set k x n) = actor n.
Proof. unfold set. by destruct (_ && _). Qed.

Lemma set_columnCount k x n : columnCount (set k x n) = columnCount n.
Proof.
  unfold set, columnCount. destruct (_ && _); [|done].
  cbn [m_itemData]. by rewrite length_insert.
Qed.

(** *** Removing rows *)

Lemma removeChild_in_range (p : nat) Q :
  (p < length (m_childItems Q))%nat ->
  removeChild (Z.of_nat p) Q = with_children (delete p (m_childItems Q)) Q.
Proof.
  intros Hlt. unfold removeChild. rewrite Nat2Z.id.
  destruct (Z.of_nat p <? 0) eqn:E1; [lia|].
  destruct (Z.of_nat (length (m_childItems Q)) <=? Z.of_nat p) eqn:E2; [lia|].
  done.
Qed.

Lemma children_with_children cs n : m_childItems (with_children cs n) = cs.
Proof. done. Qed.

Lemma with_children_twice cs cs' n :
  with_children cs (with_children cs' n) = with_children cs n.
Proof. done. Qed.

Lemma iter_removeChild (k p : nat) P :
  (p + k <= length (m_childItems P))%nat ->
  Nat.iter k (removeChild (Z.of_nat p)) P
  = with_children (take p (m_childItems P) ++ drop (p + k) (m_childItems P)) P.
Proof.
  induction k as [|k IH]; intros Hle.
  - simpl. by rewrite Nat.add_0_r, take_drop, with_children_id.
  - cbn [Nat.iter nat_rect]. change (nat_rect _ _ _ k) with (Nat.iter k (removeChild (Z.of_nat p)) P).
    rewrite IH by lia.
    assert (length (take p (m_childItems P)) = p) as Hlen
      by (rewrite length_take; lia).
    rewrite removeChild_in_range.
    2:{ rewrite children_with_children, length_app, length_drop. lia. }
    rewrite with_children_twice, children_with_children. f_equal.
    rewrite delete_take_drop.
    rewrite take_app_length' by done.
    rewrite drop_app_ge by lia. rewrite Hlen, drop_drop.
    do 2 f_equal. lia.
Qed.

Lemma flat_map_take_drop {A B} (f : A -> list B) (l : list A) (p k : nat) :
  flat_map f l
  = flat_map f (take p l) ++ flat_map f (take k (drop p l))
    ++ flat_map f (drop (p + k) l).
Proof.
  rewrite <- !flat_map_app. f_equal.
  rewrite <- drop_drop. by rewrite !take_drop.
Qed.

End TreeFacts.

(** * Facts about the render walk *)

Module RenderFacts.
Import ModelPart Spec TreeFacts MainWindow.
Local Open Scope list_scope.

Lemma handles_unfold n :
  handles n =
  match actor n with Some ac => [actor_id ac] | None => [] end
  ++ flat_map handles (m_childItems n).
Proof.
  unfold handles at 1. rewrite parts_unfold. cbn [omap list_omap].
  assert (omap (fun p => actor_id <$> actor p) (flat_map parts (m_childItems n))
          = flat_map handles (m_childItems n)) as ->.
  { induction (m_childItems n) as [|x l IH]; simpl; [done|].
    by rewrite omap_app, <- IH. }
  by destruct (actor n).
Qed.

Lemma add_handles_app l1 l2 w :
  add_handles (l1 ++ l2) w = add_handles l2 (add_handles l1 w).
Proof. unfold add_handles. by rewrite foldl_app. Qed.

Lemma add_handles_partList ids w : partList (add_handles ids w) = partList w.
Proof.
  revert w. induction ids as [|x l IH]; intros w; simpl; [done|].
  unfold add_handles in *. simpl. by rewrite IH.
Qed.

Lemma parts_length_pos n : (0 < length (parts n))%nat.
Proof. rewrite parts_unfold. simpl. lia. Qed.

Lemma parts_length_child n c :
  c ∈ m_childItems n -> (length (parts c) < length (parts n))%nat.
Proof.
  intros Hc. rewrite (parts_unfold n). simpl.
  induction (m_childItems n) as [|x l IH]; [by apply elem_of_nil in Hc|].
  simpl. rewrite length_app. apply elem_of_cons in Hc as [->|Hc]; [lia|].
  specialize (IH Hc). lia.
Qed.

Lemma index_child idx P m (i : nat) c :
  index_of_part idx P m -> 0 < ModelPart.columnCount (ModelPartList.rootItem m) ->
  m_childItems P !! i = Some c ->
  ModelPartList.index (Z.of_nat i) 0 idx m = createIndex (Z.of_nat i) 0 (m_addr c).
Proof.
  intros [Hrows Hitem] Hcols Hi. unfold ModelPartList.index, ModelPartList.hasIndex.
  rewrite Hrows, Hitem. unfold ModelPartList.columnCount, childCount.
  pose proof (lookup_lt_Some _ _ _ Hi) as Hlt.
  destruct (Z.of_nat i <? 0) eqn:E1; [lia|]. simpl.
  destruct (Z.of_nat i <? Z.of_nat (length (m_childItems P))) eqn:E2; [|lia].
  destruct (0 <? columnCount (ModelPartList.rootItem m)) eqn:E3; [|lia].
  simpl. by rewrite (child_lookup i P c Hi).
Qed.

Lemma createIndex_of_part r c m :
  0 <= r -> NoDup (addrs (ModelPartList.rootItem m)) ->
  c ∈ parts (ModelPartList.rootItem m) ->
  index_of_part (createIndex r 0 (m_addr c)) c m.
Proof.
  intros Hr Hnd Hc. unfold index_of_part, ModelPartList.rowCount, ModelPartList.getItem.
  assert (isValid (createIndex r 0 (m_addr c)) = true) as ->.
  { unfold isValid. simpl. destruct (0 <=? r) eqn:E; [done|lia]. }
  simpl. by rewrite find_part_NoDup.
Qed.

Lemma invalid_of_part m :
  index_of_part QModelIndex_invalid (ModelPartList.rootItem m) m.
Proof.
  unfold index_of_part, ModelPartList.rowCount, ModelPartList.getItem. simpl.
  unfold ModelPartList.getRootItem. by rewrite find_part_self.
Qed.

(** The loop over the rows below an index visits the children in order. *)
Lemma walk_children fuel idx P w :
  index_of_part idx P (partList w) -> 0 < ModelPart.columnCount (root w) ->
  (forall c r w', c ∈ m_childItems P -> 0 <= r -> partList w' = partList w ->
     updateRenderFromTree fuel (createIndex r 0 (m_addr c)) w'
     = add_handles (handles c) w') ->
  forall suf pre w', m_childItems P = pre ++ suf -> partList w' = partList w ->
  foldl
    (fun w'' i =>
       updateRenderFromTree fuel
         (ModelPartList.index (Z.of_nat i) 0 idx (partList w'')) w'')
    w' (seq (length pre) (length suf))
  = add_handles (flat_map handles suf) w'.
Proof.
  intros Hidx Hcols IH. induction suf as [|c suf IHs]; intros pre w' Hsplit Hw'.
  - done.
  - cbn [length seq foldl flat_map]. rewrite add_handles_app.
    rewrite Hw'. rewrite (index_child idx P (partList w) (length pre) c); auto.
    2:{ rewrite Hsplit. by rewrite list_lookup_middle. }
    rewrite IH; auto.
    2:{ rewrite Hsplit. apply elem_of_app. right. apply list_elem_of_here. }
    2:{ lia. }
    replace (S (length pre)) with (length (pre ++ [c])) by (rewrite length_app; simpl; lia).
    apply IHs.
    + by rewrite <- app_assoc.
    + by rewrite add_handles_partList.
Qed.

Lemma updateRenderFromTree_spec n :
  forall fuel r w,
  NoDup (addrs (root w)) -> 0 < ModelPart.columnCount (root w) ->
  n ∈ parts (root w) -> (length (parts n) <= fuel)%nat -> 0 <= r ->
  updateRenderFromTree fuel (createIndex r 0 (m_addr n)) w
  = add_handles (handles n) w.
Proof.
  induction n as [a cs d pa v c rd ac IH] using t_ind.
  intros fuel r w Hnd Hcols Hn Hfuel Hr.
  set (n := ModelPart.mk a cs d pa v c rd ac) in *.
  destruct fuel as [|fuel]; [pose proof (parts_length_pos n); lia|].
  cbn [updateRenderFromTree].
  assert (isValid (createIndex r 0 (m_addr n)) = true) as ->.
  { unfold isValid. simpl. destruct (0 <=? r) eqn:E; [done|lia]. }
  rewrite handles_unfold, add_handles_app.
  assert (ModelPartList.deref (internalPointer (createIndex r 0 (m_addr n)))
            (partList w) = Some n) as ->.
  { exact (find_part_NoDup (root w) n Hnd Hn). }
  cbn [mbind option_bind getActor].
  set (w1 := match actor n with
             | Some ac0 => renderer_AddActor (actor_id ac0) w
             | None => w
             end).
  assert (add_handles match actor n with Some ac0 => [actor_id ac0] | None => [] end w
          = w1) as ->.
  { subst w1. by destruct (actor n). }
  assert (partList w1 = partList w) as Hw1 by (subst w1; by destruct (actor n)).
  pose proof (createIndex_of_part r n (partList w) Hr Hnd Hn) as Hidx.
  destruct Hidx as [Hrows Hitem].
  change (getActor n) with (actor n). fold w1. rewrite Hw1, Hrows.
  unfold childCount. rewrite Nat2Z.id.
  change (length (m_childItems n)) with (length cs).
  apply (walk_children fuel (createIndex r 0 (m_addr n)) n w (conj Hrows Hitem) Hcols)
    with (pre := []); [|done|done].
  intros c0 r0 w' Hc0 Hr0 Hw'.
  rewrite Forall_forall in IH. apply IH; try done.
  - unfold root. by rewrite Hw'.
  - unfold root. by rewrite Hw'.
  - unfold root. rewrite Hw'. eapply parts_trans; [exact Hn|]. by apply parts_child.
  - pose proof (parts_length_child n c0 Hc0). lia.
Qed.

Lemma updateRender_spec w :
  NoDup (addrs (root w)) -> 0 < ModelPart.columnCount (root w) ->
  updateRender w
  = emit Render
      (add_handles (flat_map handles (m_childItems (root w)))
         (renderer_RemoveAllViewProps w)).
Proof.
  intros Hnd Hcols. unfold updateRender. f_equal.
  set (w0 := renderer_RemoveAllViewProps w).
  pose proof (invalid_of_part (partList w0)) as Hidx.
  destruct Hidx as [Hrows Hitem]. rewrite Hrows.
  unfold childCount. rewrite Nat2Z.id.
  apply (walk_children _ QModelIndex_invalid (root w) w0 (conj Hrows Hitem) Hcols)
    with (pre := []); [|done|done].
  intros c r w' Hc Hr Hw'.
  apply updateRenderFromTree_spec; try done.
  - unfold root. by rewrite Hw'.
  - unfold root. by rewrite Hw'.
  - unfold root. rewrite Hw'. by apply (parts_child (root w)).
  - pose proof (parts_length_child (root w) c Hc). lia.
Qed.

End RenderFacts.

(** * Facts about the model *)

Module ModelFacts.
Import ModelPart Spec TreeFacts RenderFacts.
Local Open Scope list_scope.

(** [removeRows] with a count that is not negative. *)
Lemma removeRows_correct position rows parentIndex P m :
  0 <= rows ->
  NoDup (addrs (ModelPartList.rootItem m)) ->
  ModelPartList.deref (ModelPartList.getItem parentIndex m) m = Some P ->
  removeRows_claim position rows parentIndex P m.
Proof.
  intros Hrows Hnd HP. unfold removeRows_claim, ModelPartList.removeRows.
  rewrite HP. unfold childCount.
  pose proof HP as HP'. unfold ModelPartList.deref in HP'.
  destruct (ModelPartList.getItem parentIndex m) as [pa|]; [|done].
  simpl in HP'. apply find_part_Some in HP' as [HPin HPa].
  set (cs := m_childItems P).
  destruct ((position <? 0) || (Z.of_nat (length cs) <? position + rows)) eqn:Eg.
  - split; [done|]. intros Hn. exfalso. apply Hn.
    apply orb_true_iff in Eg as [E|E]; [left|right]; lia.
  - apply orb_false_iff in Eg as [E1 E2].
    split; [intros [?|?]; lia|]. intros _. split; [done|].
    set (p := Z.to_nat position). set (k := Z.to_nat rows).
    assert (position = Z.of_nat p) as Hp by (subst p; lia).
    assert (p + k <= length cs)%nat as Hle by (subst p k; lia).
    set (P' := with_children (take p cs ++ drop (p + k) cs) P).
    assert (ModelPart.update_part (m_addr P)
              (Nat.iter k (removeChild position))
              (ModelPartList.rootItem m)
            = ModelPart.update_part (m_addr P) (fun _ => P')
                (ModelPartList.rootItem m)) as ->.
    { apply update_part_ext. intros q Hq Hqa.
      rewrite (parts_addr_inj _ q P Hnd Hq HPin Hqa).
      rewrite Hp. exact (iter_removeChild k p P Hle). }
    exists P'. cbn [ModelPartList.rootItem].
    split; [|split; [|split]].
    + by apply (find_update_same (m_addr P) (fun _ => P') P).
    + cbn [P' with_children m_childItems]. do 2 f_equal. subst p k. lia.
    + cbn [P' with_children m_childItems]. rewrite length_app, length_take, length_drop.
      subst p k. lia.
    + intros c b Hc Hb. fold k p in Hc.
      apply find_part_None.
      destruct (addrs_update (m_addr P) (fun _ => P')
                  P (ModelPartList.rootItem m) Hnd HPin eq_refl)
        as (l1 & l2 & E3 & E4).
      rewrite E4. rewrite E3 in Hnd.
      apply NoDup_app in Hnd as (_ & D1 & Hnd).
      apply NoDup_app in Hnd as (N2 & D2 & _).
      assert (b ∈ flat_map addrs (take k (drop p cs))) as Hb'.
      { apply elem_of_flat_map. eauto. }
      rewrite (addrs_unfold P) in N2, D1, D2. fold cs in N2, D1, D2.
      rewrite (flat_map_take_drop addrs cs p k) in N2, D1, D2.
      apply NoDup_cons in N2 as [N2a N2].
      apply NoDup_app in N2 as (_ & D3 & N2).
      apply NoDup_app in N2 as (_ & D4 & _).
      assert (b ∈ m_addr P :: flat_map addrs (take p cs)
                ++ flat_map addrs (take k (drop p cs))
                ++ flat_map addrs (drop (p + k) cs)) as HbP.
      { apply list_elem_of_further. rewrite !elem_of_app. auto. }
      unfold P'. rewrite addrs_with_children, !elem_of_app, elem_of_cons, flat_map_app,
        elem_of_app.
      intros [H|[[->|[H|H]]|H]].
      * apply (D1 b H). apply elem_of_app. by left.
      * apply N2a. rewrite !elem_of_app. auto.
      * apply (D3 b H). apply elem_of_app. auto.
      * by apply (D4 b Hb').
      * by apply (D2 b HbP).
Qed.

(** [appendChild] under an index that is invalid or in column 0. *)
Lemma appendChild_correct p d a P m :
  NoDup (addrs (ModelPartList.rootItem m)) ->
  0 < columnCount (ModelPartList.rootItem m) ->
  a ∉ addrs (ModelPartList.rootItem m) ->
  ModelPartList.deref (ModelPartList.getItem p m) m = Some P ->
  (isValid p = true -> ix_column p = 0) ->
  insert_roundtrip p d a P m.
Proof.
  intros Hnd Hcols Ha HP Hcol. unfold insert_roundtrip, ModelPartList.appendChild.
  pose proof HP as HP'. unfold ModelPartList.deref in HP'.
  destruct (ModelPartList.getItem p m) as [pa|] eqn:Eitem; [|done].
  simpl in HP'. apply find_part_Some in HP' as [HPin HPa]. subst pa.
  set (childPart := ModelPart.new a d (Some (m_addr P))).
  set (root' := update_part (m_addr P) (appendChild childPart) (ModelPartList.rootItem m)).
  set (m' := ModelPartList.mk root').
  assert (find_part (m_addr P) root' = Some (appendChild childPart P)) as Hfind.
  { by apply find_update_same. }
  assert (ModelPartList.getItem p m' = Some (m_addr P)) as Eitem'.
  { unfold ModelPartList.getItem, ModelPartList.getRootItem in *.
    cbn [m' ModelPartList.rootItem]. unfold root'.
    by rewrite update_part_top_addr. }
  assert (index_of_part p (appendChild childPart P) m') as Hidx.
  { split.
    - unfold ModelPartList.rowCount. rewrite Eitem'. cbn [ModelPartList.deref mbind option_bind].
      cbn [m' ModelPartList.rootItem]. rewrite Hfind.
      destruct (isValid p) eqn:Ev; [|done].
      rewrite (Hcol eq_refl). done.
    - rewrite Eitem'. exact Hfind. }
  destruct Hidx as [Hrows Hitem].
  assert (childCount (appendChild childPart P)
          = Z.of_nat (length (m_childItems P)) + 1) as Hcount.
  { unfold childCount. cbn [appendChild with_children m_childItems].
    rewrite length_app. simpl. lia. }
  rewrite Hrows, Hcount.
  replace (Z.of_nat (length (m_childItems P)) + 1 - 1)
    with (Z.of_nat (length (m_childItems P))) by lia.
  split; [|split; [|split]].
  - exists (appendChild childPart P), (with_parent (Some (m_addr P)) childPart).
    by cbn [ModelPartList.rootItem m'].
  - unfold isValid. simpl.
    destruct (0 <=? Z.of_nat (length (m_childItems P))) eqn:E; [done|lia].
  - done.
  - cbn [createIndex ix_row].
    rewrite (index_child p (appendChild childPart P) m' (length (m_childItems P))
               (with_parent (Some (m_addr P)) childPart)).
    + done.
    + by split.
    + cbn [m' ModelPartList.rootItem]. unfold root', columnCount.
      rewrite update_part_itemData; [done|done].
    + cbn [appendChild with_children m_childItems].
      by rewrite list_lookup_middle.
Qed.


(** [removeRows] of the one row that holds [sel]. *)
Lemma removeRows_one (i : nat) pidx P sel m :
  NoDup (addrs (ModelPartList.rootItem m)) ->
  ModelPartList.deref (ModelPartList.getItem pidx m) m = Some P ->
  m_childItems P !! i = Some sel ->
  exists m',
    ModelPartList.removeRows (Z.of_nat i) 1 pidx m
    = (true, m',
       [BeginRemoveRows pidx (Z.of_nat i) (Z.of_nat i + 1 - 1); EndRemoveRows]) /\
    (exists P', find_part (m_addr P) (ModelPartList.rootItem m') = Some P' /\
                m_childItems P' = delete i (m_childItems P)) /\
    forall b, b ∈ addrs sel -> find_part b (ModelPartList.rootItem m') = None.
Proof.
  intros Hnd HP Hi.
  assert (0 <= 1) as H01 by lia.
  pose proof (removeRows_correct (Z.of_nat i) 1 pidx P m H01 Hnd HP) as H.
  unfold removeRows_claim in H. unfold ModelPartList.removeRows in *.
  rewrite HP in *. pose proof (lookup_lt_Some _ _ _ Hi) as Hlt.
  unfold childCount in *.
  destruct ((Z.of_nat i <? 0) || (Z.of_nat (length (m_childItems P)) <? Z.of_nat i + 1))
    eqn:Eg.
  { exfalso. apply orb_true_iff in Eg as [E|E]; lia. }
  eexists. split; [done|].
  destruct H as [_ H]. destruct H as (_ & P' & HP' & Hcs & _ & Hgone); [lia|].
  split.
  - exists P'. split; [done|]. rewrite Hcs, delete_take_drop.
    rewrite Nat2Z.id. do 2 f_equal. lia.
  - intros b Hb. apply (Hgone sel b); [|done].
    rewrite Nat2Z.id. change (Z.to_nat 1) with 1%nat.
    rewrite (drop_S _ sel i Hi). cbn [take]. apply list_elem_of_here.
Qed.

(** The index [parent] gives for an index of the part [sel] stands for
    the part that holds [sel]. *)
Lemma parent_index idx sel m :
  tree_ok (ModelPartList.rootItem m) ->
  sel ∈ parts (ModelPartList.rootItem m) -> sel ≠ ModelPartList.rootItem m ->
  isValid idx = true -> internalPointer idx = Some (m_addr sel) ->
  exists P i,
    ModelPartList.deref
      (ModelPartList.getItem (ModelPartList.parent idx m) m) m = Some P /\
    m_childItems P !! i = Some sel /\
    row (ModelPartList.rootItem m) sel = Z.of_nat i.
Proof.
  intros [Hnd Hok Htop] Hsel Hne Hv Hptr.
  destruct (position_ok _ sel Hnd Hok Hsel Hne) as (P & i & Hpar & HfindP & Hi & Hrow & _).
  exists P, i. split; [|done].
  unfold ModelPartList.parent. rewrite Hv. cbn [negb].
  assert (ModelPartList.deref (ModelPartList.getItem idx m) m = Some sel) as ->.
  { unfold ModelPartList.getItem, ModelPartList.deref. rewrite Hv, Hptr. simpl.
    by apply find_part_NoDup. }
  cbn [mbind option_bind]. unfold parentItem. rewrite Hpar.
  apply find_part_Some in HfindP as HP. destruct HP as [HPin _].
  case_decide as Hd.
  - unfold ModelPartList.getItem, ModelPartList.deref. simpl.
    unfold ModelPartList.getRootItem in *. rewrite find_part_self. f_equal.
    symmetry. eapply parts_addr_inj; eauto using elem_of_parts_self.
  - rewrite HfindP.
    assert (P ≠ ModelPartList.rootItem m) as HPne by (intros ->; by apply Hd).
    destruct (position_ok _ P Hnd Hok HPin HPne) as (_ & j & _ & _ & _ & -> & _).
    unfold ModelPartList.getItem, ModelPartList.deref, isValid. simpl.
    destruct (0 <=? Z.of_nat j) eqn:E; [|lia]. simpl. done.
Qed.

End ModelFacts.

(** * Facts about the window *)

Module WindowFacts.
Import ModelPart Spec TreeFacts RenderFacts MainWindow.
Local Open Scope list_scope.

Lemma add_handles_eq ids w :
  add_handles ids w
  = with_rendering (add_ids ids (renderer w)) (events w ++ map AddActor ids) w.
Proof.
  revert w. induction ids as [|x l IH]; intros w.
  - unfold add_handles, with_rendering. simpl. rewrite app_nil_r. by destruct w.
  - change (add_handles (x :: l) w) with (add_handles l (renderer_AddActor x w)).
    rewrite IH. unfold with_rendering. simpl. by rewrite <- app_assoc.
Qed.

Lemma add_ids_NoDup ids l : NoDup (l ++ ids) -> add_ids ids l = l ++ ids.
Proof.
  revert l. induction ids as [|x ids IH]; intros l Hnd; simpl.
  - by rewrite app_nil_r.
  - rewrite decide_False.
    + rewrite IH; rewrite <- app_assoc; done.
    + apply NoDup_app in Hnd as (_ & Hd & _). intros Hx. apply (Hd x Hx).
      apply list_elem_of_here.
Qed.

Lemma elem_of_add_ids ids l x : x ∈ add_ids ids l <-> x ∈ l \/ x ∈ ids.
Proof.
  revert l. induction ids as [|y ids IH]; intros l; simpl.
  - rewrite elem_of_nil. tauto.
  - rewrite IH, elem_of_cons. case_decide as Hy.
    + split; [tauto|]. intros [?|[->|?]]; auto.
    + rewrite elem_of_app, list_elem_of_singleton. tauto.
Qed.

(** Whatever the index and the fuel, the walk only adds actors. *)
Lemma updateRenderFromTree_adds fuel :
  forall idx w, exists ids, updateRenderFromTree fuel idx w = add_handles ids w.
Proof.
  induction fuel as [|fuel IH]; intros idx w.
  - by exists [].
  - cbn [updateRenderFromTree]. destruct (isValid idx); [|by exists []].
    set (w1 := match _ with Some ac => renderer_AddActor (actor_id ac) w | None => w end).
    assert (exists ids1, w1 = add_handles ids1 w) as [ids1 ->].
    { subst w1. destruct (_ ≫= _) as [ac|]; [by exists [actor_id ac]|by exists []]. }
    generalize (seq 0 (Z.to_nat (ModelPartList.rowCount idx (partList (add_handles ids1 w))))).
    intros l. revert ids1. induction l as [|i l IHl]; intros ids1.
    + by exists ids1.
    + cbn [foldl].
      destruct (IH (ModelPartList.index (Z.of_nat i) 0 idx
                      (partList (add_handles ids1 w))) (add_handles ids1 w))
        as [ids2 ->].
      rewrite <- add_handles_app. apply IHl.
Qed.

Lemma walk_rows_adds fuel idx l :
  forall w, exists ids,
    foldl
      (fun w' i =>
         updateRenderFromTree fuel
           (ModelPartList.index (Z.of_nat i) 0 idx (partList w')) w')
      w l
    = add_handles ids w.
Proof.
  induction l as [|i l IHl]; intros w.
  - by exists [].
  - cbn [foldl].
    destruct (updateRenderFromTree_adds fuel
                (ModelPartList.index (Z.of_nat i) 0 idx (partList w)) w)
      as [ids1 ->].
    destruct (IHl (add_handles ids1 w)) as [ids2 ->].
    exists (ids1 ++ ids2). by rewrite add_handles_app.
Qed.

Lemma updateRender_adds w :
  exists ids,
    updateRender w = emit Render (add_handles ids (renderer_RemoveAllViewProps w)).
Proof.
  unfold updateRender.
  destruct (walk_rows_adds (length (parts (root w))) QModelIndex_invalid
              (seq 0 (Z.to_nat (ModelPartList.rowCount QModelIndex_invalid
                                  (partList (renderer_RemoveAllViewProps w)))))
              (renderer_RemoveAllViewProps w)) as [ids ->].
  by exists ids.
Qed.

Lemma updateRender_partList w : partList (updateRender w) = partList w.
Proof.
  destruct (updateRender_adds w) as [ids ->]. unfold emit. simpl.
  by rewrite add_handles_partList.
Qed.

Lemma updateRender_statusMessages w :
  statusMessages (events (updateRender w)) = statusMessages (events w).
Proof.
  destruct (updateRender_adds w) as [ids ->]. rewrite add_handles_eq.
  unfold emit, with_rendering, renderer_RemoveAllViewProps, statusMessages. simpl.
  rewrite !omap_app. simpl. rewrite !app_nil_r.
  assert (omap (fun e => match e with
                         | StatusUpdateMessage m t => Some (m, t)
                         | _ => None
                         end) (map AddActor ids) = []) as ->; [|by rewrite app_nil_r].
  by induction ids.
Qed.

Lemma updateRender_next w :
  next_part (updateRender w) = next_part w /\
  next_actor (updateRender w) = next_actor w /\
  currentIndex (updateRender w) = currentIndex w.
Proof.
  destruct (updateRender_adds w) as [ids ->]. by rewrite add_handles_eq.
Qed.

(** [resync] rebuilds the view props as the handles of the tree. *)
Lemma updateRender_renderer w :
  NoDup (addrs (root w)) -> 0 < ModelPart.columnCount (root w) ->
  actor (root w) = None -> NoDup (handles (root w)) ->
  renderer (updateRender w) = handles (root w).
Proof.
  intros Hnd Hcols Hac Hh. rewrite updateRender_spec by done.
  rewrite add_handles_eq. cbn [emit with_rendering renderer renderer_RemoveAllViewProps].
  rewrite (handles_unfold (root w)), Hac in Hh |- *. simpl in *.
  by rewrite add_ids_NoDup.
Qed.


(** *** Writing properties *)

Lemma applyProperties_fields name v c upd : fields_only (applyProperties name v c upd).
Proof.
  intros n. unfold applyProperties, setVisible, setColour.
  cbn [m_addr m_childItems m_parentItem].
  assert (forall k x q, m_addr (set k x q) = m_addr q /\
                        m_childItems (set k x q) = m_childItems q /\
                        m_parentItem (set k x q) = m_parentItem q) as Hset.
  { intros k x q. unfold set. by destruct (_ && _). }
  destruct (Hset 2 (QVariant_str
                      (QString_number (red c) ++ "," ++ QString_number (green c)
                       ++ "," ++ QString_number (blue c))%string)
              (set 1 (QVariant_str (if v then "true" else "false"))
                 (if upd then set 0 (QVariant_str name) n else n)))
    as (-> & -> & ->).
  destruct (Hset 1 (QVariant_str (if v then "true" else "false"))
              (if upd then set 0 (QVariant_str name) n else n))
    as (-> & -> & ->).
  destruct upd; [apply Hset|done].
Qed.

Lemma applyProperties_actor name v c upd n :
  actor (applyProperties name v c upd n) = actor n.
Proof.
  unfold applyProperties, setVisible, setColour. cbn [actor].
  rewrite !set_actor. destruct upd; [apply set_actor|done].
Qed.

Lemma applyProperties_columnCount name v c upd n :
  columnCount (applyProperties name v c upd n) = columnCount n.
Proof.
  unfold applyProperties, setVisible, setColour, columnCount. cbn [m_itemData].
  fold (columnCount (ModelPart.set 2
          (QVariant_str
             (QString_number (red c) ++ "," ++ QString_number (green c)
              ++ "," ++ QString_number (blue c))%string)
          (ModelPart.set 1 (QVariant_str (if v then "true" else "false"))
             (if upd then ModelPart.set 0 (QVariant_str name) n else n)))).
  rewrite !set_columnCount. destruct upd; [apply set_columnCount|done].
Qed.

Lemma applied_actor_id name v c upd n :
  actor_id <$> actor (applied name v c upd n) = actor_id <$> actor n.
Proof.
  unfold applied, getActor. rewrite applyProperties_actor.
  destruct (actor n) as [ac|] eqn:E; [done|].
  by rewrite applyProperties_actor, E.
Qed.

Lemma applied_columnCount name v c upd n :
  columnCount (applied name v c upd n) = columnCount n.
Proof.
  unfold applied. destruct (getActor _); [|apply applyProperties_columnCount].
  apply applyProperties_columnCount.
Qed.

Lemma applied_fields name v c upd : fields_only (applied name v c upd).
Proof.
  intros n. unfold applied.
  destruct (getActor _); [|apply applyProperties_fields].
  cbn [with_actor m_addr m_childItems m_parentItem]. apply applyProperties_fields.
Qed.

Lemma applied_visible name v c upd n : visible (applied name v c upd n) = v.
Proof. unfold applied. by destruct (getActor _). Qed.

Lemma applied_color name v c upd n :
  color (applied name v c upd n) = stored_colour c.
Proof. unfold applied. by destruct (getActor _). Qed.

Lemma data_itemData j n n' : m_itemData n = m_itemData n' -> data j n = data j n'.
Proof. unfold data. by intros ->. Qed.

Lemma applied_label v c n : data 0 (applied "" v c false n) = data 0 n.
Proof.
  assert (data 0 (applyProperties "" v c false n) = data 0 n) as H.
  { unfold applyProperties.
    rewrite (data_itemData 0 _ (ModelPart.set 2
               (QVariant_str
                  (QString_number (red c) ++ "," ++ QString_number (green c)
                   ++ "," ++ QString_number (blue c))%string)
               (ModelPart.set 1 (QVariant_str (if v then "true" else "false")) n)))
      by done.
    by rewrite !data_set_other by lia. }
  unfold applied. destruct (getActor _); [|done]. exact H.
Qed.

(** The tree after [applyPropertiesToPart]. *)
Lemma applyPropertiesToPart_root a name v c upd w :
  NoDup (addrs (root w)) ->
  root (applyPropertiesToPart (Some a) name v c upd w)
  = update_part a (applied name v c upd) (root w).
Proof.
  intros Hnd. unfold applyPropertiesToPart.
  set (w1 := call a (applyProperties name v c upd) w).
  set (w2 := emit _ w1).
  assert (root w2 = update_part a (applyProperties name v c upd) (root w)) as Hw2 by done.
  rewrite Hw2.
  rewrite (find_update_fields a _ (root w) a Hnd (applyProperties_fields name v c upd)).
  destruct (find_part a (root w)) as [p|] eqn:Ep.
  - apply find_part_Some in Ep as [Hp Hpa].
    cbn [fmap option_fmap option_map mbind option_bind].
    rewrite update_part_unfold, decide_True by done.
    assert (update_part a (applied name v c upd) (root w)
            = update_part a
                (fun q => match getActor (applyProperties name v c upd p) with
                          | Some ac =>
                              with_actor
                                (Some (SetDiffuseColor (red c) (green c) (blue c)
                                         (SetVisibility v ac)))
                                (applyProperties name v c upd q)
                          | None => applyProperties name v c upd q
                          end) (root w)) as ->.
    { apply update_part_ext. intros q Hq Hqa.
      rewrite (parts_addr_inj (root w) q p Hnd Hq Hp) by congruence. done. }
    destruct (getActor (applyProperties name v c upd p)) as [ac|]; [|done].
    unfold root at 1. rewrite updateRender_partList. cbn [call partList ModelPartList.rootItem].
    fold (root w2). rewrite Hw2.
    rewrite update_part_compose; [done|]. intros q. apply applyProperties_fields.
  - cbn [fmap option_fmap option_map mbind option_bind].
    apply find_part_None in Ep. rewrite Hw2. by rewrite !update_part_notin.
Qed.

Lemma propagated_nil v c root : propagated [] v c root root.
Proof.
  split; [done|]. intros b q Hq. exists q.
  split; [done|]. split; [by split|].
  split; [intros Hb; by apply elem_of_nil in Hb|done].
Qed.

Lemma propagated_app S1 S2 v c root root1 root2 :
  propagated S1 v c root root1 -> propagated S2 v c root1 root2 ->
  propagated (S1 ++ S2) v c root root2.
Proof.
  intros [A1 H1] [A2 H2]. split; [congruence|]. intros b q Hq.
  destruct (H1 b q Hq) as (q1 & Hq1 & [L1 C1] & In1 & Out1).
  destruct (H2 b q1 Hq1) as (q2 & Hq2 & [L2 C2] & In2 & Out2).
  exists q2. split; [done|]. split; [split; congruence|]. split.
  - intros Hb. destruct (decide (b ∈ S2)) as [Hb2|Hb2]; [auto|].
    apply elem_of_app in Hb as [Hb|Hb]; [|done].
    destruct (In1 Hb) as [<- <-]. auto.
  - intros Hb. apply not_elem_of_app in Hb as [Hb1 Hb2].
    destruct (Out1 Hb1) as [<- <-]. auto.
Qed.

Lemma propagated_step a v c root :
  NoDup (addrs root) ->
  propagated [a] v (stored_colour c) root
    (update_part a (applied "" v c false) root).
Proof.
  intros Hnd. pose proof (applied_fields "" v c false) as Hg.
  split; [by apply addrs_update_fields|]. intros b q Hq.
  rewrite find_update_fields, Hq by done.
  cbn [fmap option_fmap option_map]. eexists. split; [done|].
  apply find_part_Some in Hq as [_ Hqa].
  rewrite update_part_unfold. case_decide as Hd.
  - rewrite applied_label, applied_visible, applied_color.
    destruct (Hg q) as (_ & -> & _).
    split; [done|]. split; [done|]. intros Hb. exfalso. apply Hb.
    apply list_elem_of_singleton. congruence.
  - split; [split; [done|]|].
    + cbn [with_children m_childItems]. rewrite map_map. apply map_ext.
      intros x. by apply update_part_fields_addr.
    + split; [|done]. intros Hb%list_elem_of_singleton. congruence.
Qed.

(** [updateChildrenProperties] writes the addresses below [part], parts of
    the tree or not, and nothing else. *)
Lemma updateChildrenProperties_propagated part v c :
  forall w, NoDup (addrs (root w)) ->
  propagated (flat_map addrs (m_childItems part)) v (stored_colour c) (root w)
    (root (updateChildrenProperties part v c w)).
Proof.
  induction part as [a cs d pa vv cc r ac IH] using t_ind. intros w Hnd.
  cbn [updateChildrenProperties m_childItems].
  revert w Hnd. induction cs as [|x cs IHcs]; intros w Hnd.
  - apply propagated_nil.
  - apply Forall_cons in IH as [IHx IHr]. cbn [foldl flat_map].
    set (w1 := applyPropertiesToPart (Some (m_addr x)) "" v c false w).
    set (w2 := updateChildrenProperties x v c w1).
    assert (propagated [m_addr x] v (stored_colour c) (root w) (root w1)) as P1.
    { unfold w1. rewrite applyPropertiesToPart_root by done.
      by apply propagated_step. }
    assert (NoDup (addrs (root w1))) as Hnd1 by (destruct P1 as [-> _]; done).
    assert (propagated (flat_map addrs (m_childItems x)) v (stored_colour c)
              (root w1) (root w2)) as P2 by (by apply IHx).
    assert (NoDup (addrs (root w2))) as Hnd2 by (destruct P2 as [-> _]; done).
    rewrite (addrs_unfold x).
    change (m_addr x :: flat_map addrs (m_childItems x))
      with ([m_addr x] ++ flat_map addrs (m_childItems x)).
    eapply propagated_app; [eapply propagated_app; [exact P1|exact P2]|].
    by apply IHcs.
Qed.


(** *** Unregistering actors *)

Lemma remove_trace_unfold part :
  remove_trace part
  = match actor part with Some a => [RemoveActor (actor_id a)] | None => [] end
    ++ flat_map remove_trace (m_childItems part) ++ [Render].
Proof. by destruct part. Qed.

Lemma remove_ids_app l1 l2 l : remove_ids (l1 ++ l2) l = remove_ids l2 (remove_ids l1 l).
Proof. unfold remove_ids. by rewrite foldl_app. Qed.

Lemma remove_ids_subseteq ids l x : x ∈ remove_ids ids l -> x ∈ l.
Proof.
  revert l. induction ids as [|y ids IH]; intros l; simpl; [done|].
  intros Hx%IH. by apply list_elem_of_filter in Hx as [_ ?].
Qed.

Lemma not_elem_of_remove_ids ids l x : x ∈ ids -> x ∉ remove_ids ids l.
Proof.
  revert l. induction ids as [|y ids IH]; intros l Hx.
  - by apply elem_of_nil in Hx.
  - simpl. apply elem_of_cons in Hx as [->|Hx]; [|by apply IH].
    intros H%remove_ids_subseteq. by apply list_elem_of_filter in H as [? _].
Qed.

Lemma removeActorsRecursively_eq part :
  forall w,
  removeActorsRecursively part w
  = with_rendering (remove_ids (handles part) (renderer w))
      (events w ++ remove_trace part) w.
Proof.
  induction part as [a cs d pa v c r ac IH] using t_ind. intros w.
  rewrite handles_unfold, remove_trace_unfold, remove_ids_app.
  cbn [removeActorsRecursively actor m_childItems].
  set (w1 := match ac with Some a0 => renderer_RemoveActor (actor_id a0) w | None => w end).
  assert (w1 = with_rendering
                 (remove_ids match ac with Some a0 => [actor_id a0] | None => [] end
                    (renderer w))
                 (events w ++ match ac with
                              | Some a0 => [RemoveActor (actor_id a0)]
                              | None => []
                              end) w) as Hw1.
  { subst w1. destruct ac; [done|]. unfold with_rendering. simpl.
    rewrite app_nil_r. by destruct w. }
  assert (forall w',
            foldl (fun w'' c0 => removeActorsRecursively c0 w'') w' cs
            = with_rendering (remove_ids (flat_map handles cs) (renderer w'))
                (events w' ++ flat_map remove_trace cs) w') as Hfold.
  { clear Hw1 w1. induction cs as [|x cs IHcs]; intros w'.
    - unfold with_rendering. simpl. rewrite app_nil_r. by destruct w'.
    - apply Forall_cons in IH as [IHx IHr]. cbn [foldl flat_map].
      rewrite IHx, IHcs by done. rewrite remove_ids_app.
      unfold with_rendering. simpl. by rewrite <- app_assoc. }
  rewrite Hfold, Hw1. unfold emit, with_rendering. simpl.
  by rewrite <- !app_assoc.
Qed.

Lemma remove_trace_handles part :
  forall id, id ∈ handles part -> RemoveActor id ∈ remove_trace part.
Proof.
  induction part as [a cs d pa v c r ac IH] using t_ind. intros id.
  rewrite handles_unfold, remove_trace_unfold. cbn [actor m_childItems].
  rewrite !elem_of_app. intros [Hid|Hid].
  - left. destruct ac; [|by apply elem_of_nil in Hid].
    apply list_elem_of_singleton in Hid as ->. apply list_elem_of_here.
  - right. left. apply elem_of_flat_map in Hid as (x & Hx & Hid).
    apply elem_of_flat_map. exists x. split; [done|].
    rewrite Forall_forall in IH. by apply IH.
Qed.

(** Nothing but [RemoveActor] and [Render] is emitted while unregistering. *)
Lemma remove_trace_events part :
  Forall (fun e => e = Render \/ exists id, e = RemoveActor id) (remove_trace part).
Proof.
  induction part as [a cs d pa v c r ac IH] using t_ind.
  rewrite remove_trace_unfold. cbn [actor m_childItems].
  apply Forall_app. split.
  { destruct ac; [apply Forall_singleton; right; eauto|constructor]. }
  apply Forall_app. split; [|apply Forall_singleton; by left].
  apply Forall_forall. intros e He. apply elem_of_flat_map in He as (x & Hx & He).
  rewrite Forall_forall in IH. specialize (IH x Hx). rewrite Forall_forall in IH.
  by apply IH.
Qed.

(** *** Status messages and loads *)

Lemma statusMessages_app es1 es2 :
  statusMessages (es1 ++ es2) = statusMessages es1 ++ statusMessages es2.
Proof. apply omap_app. Qed.

Lemma root_emit e w : root (emit e w) = root w.
Proof. done. Qed.

Lemma root_addFloor w : root (addFloor w) = root w.
Proof. done. Qed.

Lemma root_updateRender w : root (updateRender w) = root w.
Proof. unfold root. by rewrite updateRender_partList. Qed.

Lemma root_call p f w : root (call p f w) = update_part p f (root w).
Proof. done. Qed.

Lemma events_emit e w : events (emit e w) = events w ++ [e].
Proof. done. Qed.

Lemma events_call p f w : events (call p f w) = events w.
Proof. done. Qed.

Lemma events_addFloor w : events (addFloor w) = events w ++ [AddActor (next_actor w)].
Proof. done. Qed.

Lemma load_completion_root newPart fileName w :
  root (load_completion newPart fileName w)
  = match ModelPartList.getItem (currentIndex w) (partList w) with
    | Some p => update_part p (appendChild newPart) (root w)
    | None => root w
    end.
Proof.
  unfold load_completion, ModelPartList.getItem.
  rewrite root_emit, root_addFloor, root_updateRender, !root_emit.
  by destruct (isValid (currentIndex w)), (internalPointer (currentIndex w)).
Qed.

Lemma load_completion_statusMessages newPart fileName w :
  statusMessages (events (load_completion newPart fileName w))
  = statusMessages (events w)
    ++ [(("Loaded STL file: " ++ fileName)%string, 5000)].
Proof.
  unfold load_completion.
  rewrite events_emit, events_addFloor, !statusMessages_app.
  rewrite updateRender_statusMessages, !events_emit, !statusMessages_app.
  cbn [statusMessages omap list_omap app]. rewrite !app_nil_r. f_equal.
  by destruct (isValid (currentIndex w)), (internalPointer (currentIndex w)).
Qed.

(** *** The new group *)

Lemma on_actionNewGroup_accepted_root index groupName w :
  root (on_actionNewGroup_accepted index groupName w)
  = match ModelPartList.getItem index (partList w) with
    | Some p =>
        update_part p
          (appendChild
             (ModelPart.new (next_part w)
                [QVariant_str groupName; QVariant_str "true";
                 QVariant_str "255,255,255"] None))
          (root w)
    | None => root w
    end.
Proof.
  unfold on_actionNewGroup_accepted, ModelPartList.getItem.
  by destruct (isValid index), (internalPointer index).
Qed.

End WindowFacts.

(** * The invariant of the window *)

Module InvariantFacts.
Import ModelPart Spec TreeFacts RenderFacts ModelFacts WindowFacts MainWindow.
Local Open Scope list_scope.

Lemma omap_handles_update a f (l : list ModelPart.t) :
  Forall (fun q => m_addr q ≠ a) l ->
  omap (fun p => actor_id <$> actor p) (map (update_part a f) l)
  = omap (fun p => actor_id <$> actor p) l.
Proof.
  induction 1 as [|x l Hx _ IH]; [done|].
  cbn [map omap list_omap]. rewrite IH.
  rewrite (update_part_unfold a f x), decide_False by done. done.
Qed.

Lemma handles_update a f p n :
  NoDup (addrs n) -> p ∈ parts n -> m_addr p = a ->
  exists h1 h2, handles n = h1 ++ handles p ++ h2 /\
    handles (update_part a f n) = h1 ++ handles (f p) ++ h2.
Proof.
  intros Hnd Hp Hpa.
  destruct (parts_update a f p n Hnd Hp Hpa) as (l1 & l2 & E1 & E2 & _).
  unfold handles. rewrite E1, E2, !omap_app.
  unfold addrs in Hnd. rewrite E1 in Hnd.
  rewrite omap_handles_update by (by eapply parts_update_l1).
  eauto.
Qed.

Lemma handles_with_parent pa n : handles (with_parent pa n) = handles n.
Proof. by destruct n. Qed.

Lemma handles_appendChild item p :
  handles (appendChild item p) = handles p ++ handles item.
Proof.
  rewrite (handles_unfold (appendChild _ _)), (handles_unfold p).
  cbn [appendChild with_children actor m_childItems].
  rewrite flat_map_app. cbn [flat_map].
  by rewrite app_nil_r, handles_with_parent, app_assoc.
Qed.

Lemma handles_sublist (cs cs' : list ModelPart.t) n :
  cs `sublist_of` m_childItems n ->
  handles (with_children cs n) `sublist_of` handles n.
Proof.
  intros Hsub. rewrite (handles_unfold (with_children _ _)), (handles_unfold n).
  cbn [with_children actor m_childItems].
  apply sublist_app; [done|]. by apply flat_map_sublist.
Qed.

Lemma handles_update_fields a g n :
  NoDup (addrs n) -> fields_only g ->
  (forall q, actor_id <$> actor (g q) = actor_id <$> actor q) ->
  handles (update_part a g n) = handles n.
Proof.
  intros Hnd Hg Hid. unfold handles. rewrite parts_update_fields by done.
  induction (parts n) as [|x l IH]; [done|].
  cbn [map omap list_omap]. rewrite IH.
  rewrite (update_part_unfold a g x). case_decide; [by rewrite Hid|done].
Qed.

(** *** What each handler leaves of the tree *)

Lemma state_ok_model w :
  state_ok w <->
  model_ok (next_part w) (next_actor w) (root w) /\
  Forall (fun id => (id < next_actor w)%nat) (renderer w).
Proof.
  split.
  - intros [H1 H2 H3 H4 H5 H6]. apply Forall_app in H6 as [H6 H7]. by split.
  - intros [[H1 H2 H3 H4 H5 H6] H7]. split; try done. by apply Forall_app.
Qed.

Lemma model_ok_mono na nh na' nh' root :
  (na <= na')%nat -> (nh <= nh')%nat ->
  model_ok na nh root -> model_ok na' nh' root.
Proof.
  intros Ha Hh [H1 H2 H3 H4 H5 H6]. split; try done.
  - eapply Forall_impl; [exact H5|]. simpl. lia.
  - eapply Forall_impl; [exact H6|]. simpl. lia.
Qed.

(** Appending a childless part with a new address and, if it has an actor,
    a new handle. *)
Lemma model_ok_appendChild na nh na' nh' p item root :
  model_ok na nh root ->
  m_childItems item = [] -> (na <= m_addr item < na')%nat ->
  Forall (fun id => (nh <= id < nh')%nat) (handles item) -> (nh <= nh')%nat ->
  model_ok na' nh' (update_part p (appendChild item) root).
Proof.
  intros Hm Hleaf Hfresh Hfreshh Hnh'.
  assert (model_ok na' nh' root) as Hmono by (eapply model_ok_mono; [| |exact Hm]; lia).
  destruct Hm as [[Hnd Hok Htop] Hcols Hact Hh Hna Hnh].
  destruct (decide (p ∈ addrs root)) as [Hin|Hout].
  2:{ by rewrite update_part_notin. }
  apply elem_of_addrs in Hin as (P & HP & HPa).
  assert (addrs item = [m_addr item]) as Haddrs.
  { by rewrite addrs_unfold, Hleaf. }
  assert (handles item
          = match actor item with Some ac => [actor_id ac] | None => [] end) as Hhi.
  { by rewrite handles_unfold, Hleaf, app_nil_r. }
  assert (m_addr item ∉ addrs root) as Hnew.
  { intros Hin. rewrite Forall_forall in Hna. specialize (Hna _ Hin). lia. }
  destruct Hmono as [_ _ _ _ Hna' Hnh''].
  split.
  - apply tree_ok_appendChild; [done| | |].
    + rewrite Haddrs. apply NoDup_singleton.
    + constructor; rewrite Hleaf; constructor.
    + intros b Hb. rewrite Haddrs in Hb. by apply list_elem_of_singleton in Hb as ->.
  - unfold columnCount in *. by rewrite update_part_itemData.
  - by rewrite update_part_actor.
  - destruct (handles_update p (appendChild item) P root Hnd HP HPa)
      as (h1 & h2 & E1 & E2).
    rewrite E2, handles_appendChild. rewrite E1 in Hh, Hnh.
    assert (forall id, id ∈ handles item -> id ∉ h1 ++ handles P ++ h2) as Hdis.
    { intros id Hid Hin. rewrite Forall_forall in Hnh, Hfreshh.
      specialize (Hnh _ Hin). specialize (Hfreshh _ Hid). lia. }
    assert (NoDup (handles item)) as Hndi.
    { rewrite Hhi. destruct (actor item); [apply NoDup_singleton|constructor]. }
    apply NoDup_app in Hh as (N1 & D1 & Hh).
    apply NoDup_app in Hh as (N2 & D2 & N3).
    apply NoDup_app. split; [done|]. split.
    + intros x Hx Hx'. apply elem_of_app in Hx' as [Hx'|Hx'].
      * apply elem_of_app in Hx' as [Hx'|Hx'].
        -- apply (D1 x Hx). apply elem_of_app. by left.
        -- apply (Hdis x Hx'). apply elem_of_app. by left.
      * apply (D1 x Hx). apply elem_of_app. by right.
    + apply NoDup_app. split; [|split; [|done]].
      * apply NoDup_app. split; [done|]. split; [|done].
        intros x Hx Hx'. apply (Hdis x Hx'). rewrite !elem_of_app. auto.
      * intros x Hx Hx'. apply elem_of_app in Hx as [Hx|Hx].
        -- by apply (D2 x Hx).
        -- apply (Hdis x Hx). rewrite !elem_of_app. auto.
  - destruct (addrs_update p (appendChild item) P root Hnd HP HPa)
      as (l1 & l2 & E1 & E2).
    rewrite E2, addrs_appendChild, Haddrs. rewrite E1 in Hna'.
    apply Forall_app in Hna' as [F1 F2]. apply Forall_app in F2 as [F2 F3].
    apply Forall_app. split; [done|]. apply Forall_app. split; [|done].
    apply Forall_app. split; [done|]. apply Forall_singleton. lia.
  - destruct (handles_update p (appendChild item) P root Hnd HP HPa)
      as (h1 & h2 & E1 & E2).
    rewrite E2, handles_appendChild. rewrite E1 in Hnh''.
    apply Forall_app in Hnh'' as [F1 F2]. apply Forall_app in F2 as [F2 F3].
    apply Forall_app. split; [done|]. apply Forall_app. split; [|done].
    apply Forall_app. split; [done|].
    eapply Forall_impl; [exact Hfreshh|]. simpl. lia.
Qed.

(** Removing a child. *)
Lemma model_ok_removeChild na nh p position root :
  model_ok na nh root -> model_ok na nh (update_part p (removeChild position) root).
Proof.
  intros Hm. pose proof Hm as [[Hnd Hok Htop] Hcols Hact Hh Hna Hnh].
  destruct (decide (p ∈ addrs root)) as [Hin|Hout].
  2:{ by rewrite update_part_notin. }
  apply elem_of_addrs in Hin as (P & HP & HPa).
  assert (exists cs, cs `sublist_of` m_childItems P /\
                     removeChild position P = with_children cs P) as (cs & Hcs & Hrm).
  { destruct (removeChild_cases position P) as [->|(i & ->)].
    - exists (m_childItems P). by rewrite with_children_id.
    - eexists. split; [apply sublist_delete|done]. }
  destruct (handles_update p (removeChild position) P root Hnd HP HPa)
    as (h1 & h2 & E1 & E2).
  destruct (addrs_update p (removeChild position) P root Hnd HP HPa)
    as (l1 & l2 & E3 & E4).
  assert (handles (update_part p (removeChild position) root)
            `sublist_of` handles root) as Hsubh.
  { rewrite E1, E2, Hrm. apply sublist_app; [done|]. apply sublist_app; [|done].
    by apply handles_sublist. }
  assert (addrs (update_part p (removeChild position) root)
            `sublist_of` addrs root) as Hsuba.
  { rewrite E3, E4, Hrm. apply sublist_app; [done|]. apply sublist_app; [|done].
    rewrite addrs_with_children, (addrs_unfold P). apply sublist_skip.
    by apply flat_map_sublist. }
  split.
  - by apply tree_ok_removeChild.
  - unfold columnCount in *. rewrite update_part_itemData; [done|].
    unfold removeChild. by destruct (_ || _).
  - rewrite update_part_actor; [done|]. unfold removeChild. by destruct (_ || _).
  - by eapply sublist_NoDup.
  - apply Forall_forall. intros x Hx. rewrite Forall_forall in Hna. apply Hna.
    by eapply sublist_subseteq.
  - apply Forall_forall. intros x Hx. rewrite Forall_forall in Hnh. apply Hnh.
    by eapply sublist_subseteq.
Qed.

(** Writing the properties of a part. *)
Lemma model_ok_applied na nh a name v c upd root :
  model_ok na nh root -> model_ok na nh (update_part a (applied name v c upd) root).
Proof.
  intros [[Hnd Hok Htop] Hcols Hact Hh Hna Hnh].
  pose proof (applied_fields name v c upd) as Hg.
  pose proof (applied_actor_id name v c upd) as Hid.
  split.
  - by apply tree_ok_fields.
  - rewrite update_part_unfold. case_decide; [|done].
    by rewrite applied_columnCount.
  - rewrite update_part_unfold. case_decide; [|done].
    specialize (Hid root). rewrite Hact in Hid.
    by destruct (actor (applied name v c upd root)).
  - by rewrite handles_update_fields.
  - by rewrite addrs_update_fields.
  - by rewrite handles_update_fields.
Qed.


(** *** The handlers keep the invariant *)

Lemma state_ok_ext w w' :
  root w' = root w -> renderer w' = renderer w ->
  next_part w' = next_part w -> next_actor w' = next_actor w ->
  state_ok w -> state_ok w'.
Proof.
  intros E1 E2 E3 E4 [H1 H2 H3 H4 H5 H6].
  split; rewrite ?E1, ?E2, ?E3, ?E4; done.
Qed.

Lemma state_ok_emit e w : state_ok w -> state_ok (emit e w).
Proof. by apply state_ok_ext. Qed.

Lemma state_ok_setCurrentIndex i w : state_ok w -> state_ok (setCurrentIndex i w).
Proof. by apply state_ok_ext. Qed.

Lemma updateRender_renderer_bound nh w :
  model_ok (next_part w) nh (root w) ->
  Forall (fun id => (id < nh)%nat) (renderer (updateRender w)).
Proof.
  intros [[Hnd _ _] Hcols Hact Hh _ Hnh].
  rewrite updateRender_renderer; try done. rewrite Hcols. lia.
Qed.

Lemma state_ok_updateRender w : state_ok w -> state_ok (updateRender w).
Proof.
  intros [Hm Hr]%state_ok_model. apply state_ok_model.
  destruct (updateRender_next w) as (-> & -> & _). rewrite root_updateRender.
  split; [done|]. by apply updateRender_renderer_bound.
Qed.

Lemma state_ok_addFloor w : state_ok w -> state_ok (addFloor w).
Proof.
  intros [Hm Hr]%state_ok_model. apply state_ok_model.
  cbn [addFloor renderer_AddActor next_part next_actor renderer].
  change (root (addFloor w)) with (root w). split.
  - eapply model_ok_mono; [| |exact Hm]; lia.
  - case_decide.
    + eapply Forall_impl; [exact Hr|]. simpl. lia.
    + apply Forall_app. split; [|apply Forall_singleton; lia].
      eapply Forall_impl; [exact Hr|]. simpl. lia.
Qed.

(** Appending a part made with identities the allocators handed out since
    the state [w0]. *)
Lemma state_ok_append w0 w p item :
  state_ok w0 -> root w = root w0 -> renderer w = renderer w0 ->
  (next_part w0 <= m_addr item < next_part w)%nat ->
  Forall (fun id => (next_actor w0 <= id < next_actor w)%nat) (handles item) ->
  (next_actor w0 <= next_actor w)%nat ->
  m_childItems item = [] ->
  state_ok (call p (appendChild item) w).
Proof.
  intros [Hm Hr]%state_ok_model E1 E2 Ha Hh Hn Hleaf. apply state_ok_model.
  rewrite root_call, E1. cbn [call next_part next_actor renderer]. rewrite E2.
  split.
  - by eapply model_ok_appendChild.
  - eapply Forall_impl; [exact Hr|]. simpl. lia.
Qed.

Lemma state_ok_on_actionNewGroup_accepted index groupName w :
  state_ok w -> state_ok (on_actionNewGroup_accepted index groupName w).
Proof.
  intros Hok. unfold on_actionNewGroup_accepted. apply state_ok_emit.
  set (w0 := MainWindow.mk _ _ _ _ (S (next_part w)) _).
  destruct (if isValid index then _ else _) as [p|].
  - apply (state_ok_append w); try done.
    all: try (cbn [ModelPart.new m_addr w0 next_part next_actor]; lia).
    all: constructor.
  - apply state_ok_model in Hok as [Hm Hr]. apply state_ok_model. split; [|done].
    eapply model_ok_mono; [| |exact Hm]; cbn [w0 next_part next_actor]; lia.
Qed.

Lemma state_ok_createModelPartFromFile fileName outcome w :
  state_ok w -> state_ok (createModelPartFromFile fileName outcome w).
Proof.
  intros Hok. unfold createModelPartFromFile, load_completion.
  set (w0 := MainWindow.mk _ _ _ _ (S (next_part w)) (S (next_actor w))).
  apply state_ok_emit, state_ok_addFloor, state_ok_updateRender.
  do 3 apply state_ok_emit.
  destruct (if isValid (currentIndex w0) then _ else _) as [p|].
  - apply (state_ok_append w); try done.
    all: try (cbn [load_worker setVisible setColour loadSTL with_actor
                   ModelPart.new m_addr w0 next_part next_actor]; lia).
    apply Forall_singleton. cbn [w0 next_actor actor_id vtkActor_new]. lia.
  - apply state_ok_model in Hok as [Hm Hr]. apply state_ok_model. split.
    + eapply model_ok_mono; [| |exact Hm]; cbn [w0 next_part next_actor]; lia.
    + eapply Forall_impl; [exact Hr|]. cbn [w0 next_actor]. simpl. lia.
Qed.

Lemma state_ok_applyPropertiesToPart part name v c upd w :
  state_ok w -> state_ok (applyPropertiesToPart part name v c upd w).
Proof.
  intros Hok. destruct part as [a|]; [|done].
  pose proof Hok as [[Hnd _ _] _ _ _ _ _].
  pose proof (applyPropertiesToPart_root a name v c upd w Hnd) as Hroot.
  apply state_ok_model in Hok as [Hm Hr].
  pose proof (model_ok_applied _ _ a name v c upd _ Hm) as Hm'.
  apply state_ok_model. rewrite Hroot.
  unfold applyPropertiesToPart in *.
  set (w2 := emit _ (call a _ w)) in *.
  destruct (find_part a (root w2) ≫= getActor) as [ac|].
  - destruct (updateRender_next
                (call a (with_actor
                           (Some (SetDiffuseColor (red c) (green c) (blue c)
                                    (SetVisibility v ac)))) w2)) as (-> & -> & _).
    split; [done|].
    apply updateRender_renderer_bound.
    rewrite root_updateRender in Hroot. by rewrite Hroot.
  - by split.
Qed.

Lemma state_ok_updateChildrenProperties part v c :
  forall w, state_ok w -> state_ok (updateChildrenProperties part v c w).
Proof.
  induction part as [a cs d pa vv cc r ac IH] using t_ind. intros w Hok.
  cbn [updateChildrenProperties]. revert w Hok.
  induction cs as [|x cs IHcs]; intros w Hok; [done|].
  apply Forall_cons in IH as [IHx IHr]. cbn [foldl].
  apply IHcs; [done|]. apply IHx. by apply state_ok_applyPropertiesToPart.
Qed.

Lemma state_ok_on_actionItemOptions_triggered dialog w :
  state_ok w -> state_ok (on_actionItemOptions_triggered dialog w).
Proof.
  intros Hok. unfold on_actionItemOptions_triggered.
  destruct (isValid (currentIndex w)); cbn [negb]; [|by apply state_ok_emit].
  destruct (internalPointer (currentIndex w)) as [a|]; [|by apply state_ok_emit].
  destruct dialog as [[[name v] c]|]; [|done].
  apply state_ok_emit.
  pose proof (state_ok_applyPropertiesToPart (Some a) name v c true w Hok) as Hok1.
  destruct (find_part a _); [|done].
  by apply state_ok_updateChildrenProperties.
Qed.

Lemma remove_ids_bound ids l nh :
  Forall (fun id => (id < nh)%nat) l ->
  Forall (fun id => (id < nh)%nat) (remove_ids ids l).
Proof.
  intros H. apply Forall_forall. intros x Hx%remove_ids_subseteq.
  rewrite Forall_forall in H. auto.
Qed.

Lemma state_ok_on_actionDeleteFile_triggered yes w :
  state_ok w -> state_ok (on_actionDeleteFile_triggered yes w).
Proof.
  intros Hok. unfold on_actionDeleteFile_triggered.
  destruct (isValid (currentIndex w)); cbn [negb]; [|by apply state_ok_emit].
  destruct (ModelPartList.deref _ _) as [sel|]; [|done].
  case_decide; [by apply state_ok_emit|].
  destruct yes; [|by apply state_ok_emit].
  rewrite removeActorsRecursively_eq.
  set (w1 := emit _ w). set (w2 := with_rendering _ _ w1).
  assert (state_ok w2) as Hok2.
  { apply state_ok_model in Hok as [Hm Hr]. apply state_ok_model.
    split; [done|]. cbn [w2 with_rendering renderer next_actor w1 emit].
    by apply remove_ids_bound. }
  unfold ModelPartList.removeRows.
  destruct (ModelPartList.deref
              (ModelPartList.getItem
                 (ModelPartList.parent (currentIndex w) (partList w2)) (partList w2))
              (partList w2)) as [P|].
  2:{ apply state_ok_emit. revert Hok2. by apply state_ok_ext. }
  destruct (_ || _).
  { apply state_ok_emit. revert Hok2. by apply state_ok_ext. }
  apply state_ok_emit.
  apply state_ok_model in Hok2 as [Hm Hr]. apply state_ok_model.
  split; [|done].
  cbn [root partList ModelPartList.rootItem next_part next_actor].
  change (Nat.iter (Z.to_nat 1) (removeChild (ix_row (currentIndex w))))
    with (removeChild (ix_row (currentIndex w))).
  by apply model_ok_removeChild.
Qed.

Lemma state_ok_new : state_ok MainWindow.new.
Proof.
  split.
  - split.
    + by_evaluation.
    + vm_compute. repeat constructor.
    + reflexivity.
  - reflexivity.
  - reflexivity.
  - by_evaluation.
  - by_evaluation.
  - by_evaluation.
Defined.

(** Every state the window reaches satisfies the invariant. *)
Lemma run_state_ok w : run w -> state_ok w.
Proof.
  induction 1 as [|w w' _ IH Hstep].
  - exact state_ok_new.
  - destruct Hstep.
    + by apply state_ok_setCurrentIndex.
    + by apply state_ok_createModelPartFromFile.
    + by apply state_ok_on_actionNewGroup_accepted.
    + by apply state_ok_on_actionItemOptions_triggered.
    + by apply state_ok_on_actionDeleteFile_triggered.
Qed.

End InvariantFacts.

(** * The claims *)

Module Claims.
Import ModelPart Spec TreeFacts RenderFacts ModelFacts WindowFacts InvariantFacts
  MainWindow.
Local Open Scope list_scope.


(** ** C2: resync *)

(** C2, as amended.  [updateRender] replaces the view props of the renderer
    by exactly the render handles met on a depth-first pre-order walk of the
    tree, one for every part that has a handle attached, whatever the
    visibility flag of the part. *)
Theorem updateRender_collects_all_handles w :
  state_ok w -> renderer (updateRender w) = handles (root w).
Proof.
  intros [[Hnd _ _] Hcols Htop Hh _ _].
  apply updateRender_renderer; try done. rewrite Hcols. lia.
Qed.

Lemma state_ok_w_hidden : state_ok w_hidden.
Proof.
  split.
  - split.
    + by_evaluation.
    + vm_compute. repeat constructor.
    + by vm_compute.
  - by vm_compute.
  - by vm_compute.
  - by_evaluation.
  - by_evaluation.
  - by_evaluation.
Defined.

Lemma updateRender_collects_all_handles_witness :
  state_ok w_hidden /\ renderer (updateRender w_hidden) = handles (root w_hidden).
Proof.
  split; [exact state_ok_w_hidden|].
  apply (updateRender_collects_all_handles w_hidden). exact state_ok_w_hidden.
Defined.

(** C2, as written, fails: once the loaded part has been hidden through
    Item Options its visibility flag is off, yet resync puts its handle back
    into the renderer. *)
Lemma resync_keeps_hidden_handle : ~ resync_shows_visible_only w_hidden.
Proof.
  intros H. specialize (H 1%nat).
  assert (renderer (updateRender w_hidden) = [1%nat]) as E1 by by vm_compute.
  assert (visible_handles (root w_hidden) = []) as E2 by by vm_compute.
  rewrite E1, E2 in H. destruct H as [H _].
  apply (not_elem_of_nil 1%nat), H, list_elem_of_here.
Qed.

(** ** C3: cloning the render handle *)

(** C3, the code at the failing input.  After [loadSTL] a part has its
    actor, but the member [reader] that [getNewActor] tests is still unset,
    so [getNewActor] returns null. *)
Theorem getNewActor_null_after_loadSTL a data parent fileName mesh id id' :
  let part := loadSTL fileName (ParseOk mesh) id (ModelPart.new a data parent) in
  getActor part = Some (vtkActor_new id (ParseOk mesh)) /\
  getNewActor id' part = None.
Proof. done. Qed.

(** The half of C3 that holds: without an actor there is no clone. *)
Lemma getNewActor_without_actor id part :
  getActor part = None -> getNewActor id part = None.
Proof. unfold getActor, getNewActor. by intros ->. Qed.

(** No method of the model assigns [reader]: parts are born without one. *)
Lemma new_part_has_no_reader a data parent :
  reader (ModelPart.new a data parent) = None.
Proof. done. Qed.

(** ** C4: the root and the delete handler *)

(** The invalid index is the root's: [getItem] maps it to the root, and no
    index the model makes for a row points at the root. *)
Lemma root_index m :
  ModelPartList.getItem QModelIndex_invalid m = Some (ModelPartList.getRootItem m).
Proof. done. Qed.

Lemma index_never_root row column parent m :
  NoDup (addrs (ModelPartList.rootItem m)) ->
  (forall P, ModelPartList.deref (ModelPartList.getItem parent m) m = Some P ->
             P ∈ parts (ModelPartList.rootItem m)) ->
  internalPointer (ModelPartList.index row column parent m)
  ≠ Some (ModelPartList.getRootItem m).
Proof.
  intros Hnd Hlive. unfold ModelPartList.index.
  destruct (negb _); [done|].
  destruct (ModelPartList.deref _ _) as [P|] eqn:EP; [|done].
  cbn [mbind option_bind]. destruct (child row P) as [c|] eqn:Ec; [|done].
  cbn [createIndex internalPointer]. intros [= Heq].
  assert (c ∈ m_childItems P) as Hc.
  { unfold child in Ec. destruct (_ || _); [done|].
    by eapply list_elem_of_lookup_2. }
  specialize (Hlive P eq_refl).
  assert (c = ModelPartList.rootItem m) as Hroot.
  { apply (parts_addr_inj (ModelPartList.rootItem m)); try done.
    - eapply parts_trans; [exact Hlive|]. by apply parts_child.
    - apply elem_of_parts_self. }
  pose proof (parts_length_child P c Hc) as Hlen.
  assert (length (parts P) <= length (parts (ModelPartList.rootItem m)))%nat.
  { apply sublist_length. clear -Hlive.
    revert Hlive. generalize (ModelPartList.rootItem m) as n.
    induction n as [a cs d pa v cc r ac IH] using t_ind. intros Hin.
    rewrite (parts_unfold (ModelPart.mk _ _ _ _ _ _ _ _)) in *. cbn [m_childItems] in *.
    apply elem_of_cons in Hin as [->|Hin].
    - by rewrite parts_unfold.
    - apply sublist_cons. apply elem_of_flat_map in Hin as (x & Hx & Hin).
      rewrite Forall_forall in IH. specialize (IH x Hx Hin).
      clear -Hx IH. induction cs as [|y cs IHcs]; [by apply elem_of_nil in Hx|].
      cbn [flat_map]. apply elem_of_cons in Hx as [->|Hx].
      + by apply sublist_inserts_r.
      + apply sublist_inserts_l. by apply IHcs. }
  subst c. lia.
Qed.





(** What the code does there: the row of the seeded part is gone. *)
Lemma renamed_root_is_deleted_result :
  ModelPartList.rowCount QModelIndex_invalid (partList w_renamed) = 1 /\
  ModelPartList.rowCount QModelIndex_invalid
    (partList (on_actionDeleteFile_triggered true w_renamed)) = 0.
Proof. by vm_compute. Qed.

(** A request that points at the sentinel itself, which the view never
    makes ([index_never_root]), is not refused either: the sentinel stays,
    and the first row under it is removed. *)
Lemma sentinel_request_removes_a_row : ~ root_delete_claim 0%nat MainWindow.new.
Proof.
  intros H. specialize (H true (createIndex 0 0 0%nat) eq_refl eq_refl).
  vm_compute in H. discriminate H.
Qed.

(** ** C5: removeRows *)

(** C5, as amended.  For a count that is not negative and a sum
    [position + rows] that stays within [int], [removeRows] on the
    children of the part [P] that the parent index stands for returns false
    and leaves the model as it is exactly when the range is out of bounds;
    otherwise it returns true, the children of [P] lose the [rows] parts
    from [position] on, its row count drops by exactly [rows], and no part
    of the removed subtrees is left in the tree. *)
Theorem removeRows_nonnegative_count position rows parentIndex P m :
  0 <= rows -> position + rows <= INT_MAX ->
  NoDup (addrs (ModelPartList.rootItem m)) ->
  ModelPartList.deref (ModelPartList.getItem parentIndex m) m = Some P ->
  removeRows_claim position rows parentIndex P m.
Proof. intros Hrows _. by apply removeRows_correct. Qed.

Lemma removeRows_nonnegative_count_witness :
  0 <= 1 /\ 1 + 1 <= INT_MAX /\
  removeRows_claim 1 1 QModelIndex_invalid (root w_loaded) (partList w_loaded).
Proof.
  split; [lia|]. split; [by vm_compute|].
  apply (removeRows_nonnegative_count 1 1 QModelIndex_invalid (root w_loaded)
           (partList w_loaded)).
  - lia.
  - by vm_compute.
  - by_evaluation.
  - reflexivity.
Defined.

(** C5, as written, fails for a negative count: with one part under the
    root, [removeRows(0, -1)] is not out of bounds for the test the code
    makes, returns true and removes nothing, so the row count has not
    dropped by the count. *)
Lemma removeRows_negative_count :
  ~ removeRows_claim 0 (-1) QModelIndex_invalid (root MainWindow.new)
      (partList MainWindow.new).
Proof.
  unfold removeRows_claim. intros [_ H].
  destruct H as (_ & P' & HP' & _ & Hcount & _).
  - vm_compute. intros [H|H]; discriminate H.
  - vm_compute in HP'. injection HP' as <-. vm_compute in Hcount. discriminate.
Qed.

(** What the code does there. *)
Lemma removeRows_negative_count_result :
  ModelPartList.removeRows 0 (-1) QModelIndex_invalid (partList MainWindow.new)
  = (true, partList MainWindow.new,
     [BeginRemoveRows QModelIndex_invalid 0 (-2); EndRemoveRows]).
Proof. reflexivity. Qed.


(** ** C8: the position of a part *)

(** C8.  In every tree built from the constructor by [appendChild],
    [removeChild] and field writes, hence after each [appendChild] and each
    [removeChild], every part [n] below the top has a parent pointer that
    leads to a part [P] of the tree, and the child of [P] at index [row()]
    of [n] is [n] itself. *)
Theorem position_invariant root n :
  reachable root -> n ∈ parts root -> n ≠ root ->
  exists P,
    parentItem n = Some (m_addr P) /\
    find_part (m_addr P) root = Some P /\
    child (row root n) P = Some n.
Proof.
  intros [Hnd Hok _]%reachable_tree_ok Hn Hne.
  destruct (position_ok root n Hnd Hok Hn Hne) as (P & i & H1 & H2 & _ & _ & H3).
  by exists P.
Qed.

(** The tree after a first group has been put under the seeded part and
    then the seeded part's first child removed again, and a second group
    appended: a tree reached through [appendChild] and [removeChild]. *)
Lemma reachable_example :
  reachable
    (update_part 0%nat
       (appendChild (ModelPart.new 3%nat [QVariant_str "B"] None))
       (update_part 0%nat (removeChild 0)
          (update_part 0%nat
             (appendChild (ModelPart.new 2%nat [QVariant_str "A"] None))
             (update_part 0%nat
                (appendChild (ModelPart.new 1%nat [QVariant_str "Model"] None))
                (ModelPartList.rootItem (ModelPartList.new 0%nat)))))).
Proof.
  apply reachable_appendChild.
  - apply reachable_removeChild. apply reachable_appendChild.
    + apply reachable_appendChild.
      * apply reachable_new.
      * by_evaluation.
      * by constructor.
      * intros b Hb. vm_compute in Hb. apply list_elem_of_singleton in Hb as ->.
        by_evaluation.
    + by_evaluation.
    + by constructor.
    + intros b Hb. vm_compute in Hb. apply list_elem_of_singleton in Hb as ->.
      by_evaluation.
  - by_evaluation.
  - by constructor.
  - intros b Hb. vm_compute in Hb. apply list_elem_of_singleton in Hb as ->.
    by_evaluation.
Defined.

Lemma position_invariant_witness :
  exists root n,
    reachable root /\ n ∈ parts root /\ n ≠ root /\
    exists P,
      parentItem n = Some (m_addr P) /\
      find_part (m_addr P) root = Some P /\
      child (row root n) P = Some n.
Proof.
  eexists _, (with_parent (Some 0%nat) (ModelPart.new 3%nat [QVariant_str "B"] None)).
  split; [exact reachable_example|].
  split; [vm_compute; repeat constructor|]. split; [discriminate|].
  apply position_invariant;
    [exact reachable_example|vm_compute; repeat constructor|discriminate].
Defined.

(** ** C9: inserting through the model *)

(** C9, as amended.  For a parent index that is invalid (the root) or lies
    in column 0, [ModelPartList::appendChild] puts a new part with the given
    data last under the part the index stands for and returns a valid index
    of it; the child of the parent index at that row is the new part. *)
Theorem appendChild_roundtrip_column0 p d a P m :
  NoDup (addrs (ModelPartList.rootItem m)) ->
  0 < columnCount (ModelPartList.rootItem m) ->
  a ∉ addrs (ModelPartList.rootItem m) ->
  ModelPartList.deref (ModelPartList.getItem p m) m = Some P ->
  (isValid p = true -> ix_column p = 0) ->
  insert_roundtrip p d a P m.
Proof. apply appendChild_correct. Qed.

Lemma appendChild_roundtrip_column0_witness :
  insert_roundtrip
    (ModelPartList.index 0 0 QModelIndex_invalid (partList MainWindow.new))
    [QVariant_str "Wheel"; QVariant_str "true"; QVariant_str "255,255,255"]
    2%nat
    (ModelPart.with_parent (Some 0%nat)
       (ModelPart.new 1%nat
          [QVariant_str "Model"; QVariant_str "true"; QVariant_str "255,255,255"]
          None))
    (partList MainWindow.new).
Proof.
  apply appendChild_roundtrip_column0.
  - by_evaluation.
  - reflexivity.
  - by_evaluation.
  - reflexivity.
  - reflexivity.
Defined.

(** C9, as written, fails for a parent index outside column 0, such as the
    cell of the seeded part in the "Visible?" column: [rowCount] is 0 for
    it, so the index returned has row -1 and is invalid, and asking for the
    child at that row gives nothing back. *)
Lemma appendChild_roundtrip_other_column :
  ~ insert_roundtrip
      (createIndex 0 1 1%nat)
      [QVariant_str "Wheel"; QVariant_str "true"; QVariant_str "255,255,255"]
      2%nat
      (ModelPart.with_parent (Some 0%nat)
         (ModelPart.new 1%nat
            [QVariant_str "Model"; QVariant_str "true";
             QVariant_str "255,255,255"]
            None))
      (partList MainWindow.new).
Proof.
  unfold insert_roundtrip. intros (_ & _ & _ & Hback). vm_compute in Hback.
  discriminate.
Qed.

(** What the code returns there. *)
Lemma appendChild_other_column_result :
  let '(result, m', _) :=
    ModelPartList.appendChild (createIndex 0 1 1%nat) [QVariant_str "Wheel"]
      2%nat (partList MainWindow.new) in
  result = createIndex (-1) 0 2%nat /\
  ModelPartList.index (ix_row result) 0 (createIndex 0 1 1%nat) m'
  = QModelIndex_invalid /\
  (m_addr <$> find_part 1%nat (ModelPartList.rootItem m')
                ≫= fun P => last (m_childItems P)) = Some 2%nat.
Proof. by vm_compute. Qed.


(** ** C10: new parts are not visible *)



(** ** C1: a load whose parse fails *)

(** C1, as amended.  Whatever the STL reader produced, the completion of a
    load appends the new part as the last child of the selected part (of
    the root without a selection): the row count of that part grows by one,
    the new part carries the file's base name and an actor, every other part
    keeps its row count, and the one status message emitted is the success
    message. *)
Theorem load_appends_whatever_the_parse fileName outcome a id P w :
  NoDup (addrs (root w)) -> a ∉ addrs (root w) ->
  ModelPartList.deref
    (ModelPartList.getItem (currentIndex w) (partList w)) (partList w) = Some P ->
  let w' := load_completion (load_worker fileName outcome a id) fileName w in
  (exists P' c,
     find_part (m_addr P) (root w') = Some P' /\
     m_childItems P' = m_childItems P ++ [c] /\
     childCount P' = childCount P + 1 /\
     find_part a (root w') = Some c /\
     label c = QFileInfo_fileName fileName /\
     visible c = true /\
     getActor c = Some (vtkActor_new id outcome)) /\
  (forall q, q ∈ parts (root w) -> m_addr q ≠ m_addr P ->
     childCount <$> find_part (m_addr q) (root w') = Some (childCount q)) /\
  statusMessages (events w')
  = statusMessages (events w) ++ [(("Loaded STL file: " ++ fileName)%string, 5000)].
Proof.
  intros Hnd Ha HP w'. subst w'.
  rewrite load_completion_statusMessages, load_completion_root.
  unfold ModelPartList.deref in HP.
  destruct (ModelPartList.getItem (currentIndex w) (partList w)) as [pa|]; [|done].
  simpl in HP. apply find_part_Some in HP as [HPin HPa]. subst pa.
  set (newPart := load_worker fileName outcome a id).
  assert (m_addr newPart = a) as Hna by done.
  assert (a ∉ addrs P) as HaP.
  { intros Hin. apply Ha. by eapply addrs_parts_subseteq. }
  split; [|split; [|done]].
  - exists (appendChild newPart P), (with_parent (Some (m_addr P)) newPart).
    split; [by apply find_update_same|]. split; [done|]. split.
    { unfold childCount. cbn [appendChild with_children m_childItems].
      rewrite length_app. simpl. lia. }
    split; [|done].
    rewrite (find_update_within (m_addr P) _ P (root w)); auto.
    rewrite <- Hna. apply find_appendChild_new. by rewrite Hna.
  - intros q Hq Hne.
    destruct (decide (m_addr q ∈ addrs P)) as [Hin|Hout].
    + rewrite (find_update_within (m_addr P) _ P (root w)); auto.
      rewrite find_appendChild_old by done.
      apply elem_of_addrs in Hin as (q2 & Hq2 & Heq).
      assert (q2 = q) as ->.
      { apply (parts_addr_inj (root w) q2 q Hnd); [|done|done].
        eapply parts_trans; [exact HPin|exact Hq2]. }
      rewrite find_part_NoDup; [done| |done].
      by eapply NoDup_addrs_part.
    + rewrite (find_update_other (m_addr P) _ P (root w)); auto.
      * rewrite find_part_NoDup by done. cbn [fmap option_fmap option_map].
        f_equal. rewrite update_part_unfold, decide_False by done.
        unfold childCount. cbn [with_children m_childItems].
        by rewrite length_map.
      * rewrite addrs_appendChild, elem_of_app. intros [?|Hin]; [done|].
        apply Ha. unfold newPart in Hin. cbn in Hin.
        apply list_elem_of_singleton in Hin. rewrite <- Hin.
        apply elem_of_addrs. eauto.
Qed.

Lemma load_appends_whatever_the_parse_witness :
  childCount <$> find_part 0%nat
    (root (load_completion (load_worker "missing.stl" ParseFailed 2%nat 1%nat)
             "missing.stl" MainWindow.new)) = Some 2.
Proof.
  destruct (load_appends_whatever_the_parse "missing.stl" ParseFailed 2%nat 1%nat
              (root MainWindow.new) MainWindow.new)
    as ((P' & c & H1 & _ & H3 & _) & _).
  - by_evaluation.
  - by_evaluation.
  - reflexivity.
  - change (m_addr (root MainWindow.new)) with 0%nat in H1.
    rewrite H1. cbn [fmap option_fmap option_map]. by rewrite H3.
Defined.

(** C1, as written, fails: loading a missing file under the root of the
    initial window adds a part all the same and emits the success message,
    not a failure notification. *)
Lemma load_failure_inserts_part : ~ load_failure_claim "missing.stl" MainWindow.new.
Proof.
  intros [H _]. specialize (H (root MainWindow.new) (elem_of_parts_self _)).
  vm_compute in H. discriminate.
Qed.

(** What the code does there. *)
Lemma load_failure_result :
  let w' := createModelPartFromFile "missing.stl" ParseFailed MainWindow.new in
  ModelPartList.rowCount QModelIndex_invalid (partList MainWindow.new) = 1 /\
  ModelPartList.rowCount QModelIndex_invalid (partList w') = 2 /\
  statusMessages (events w') = [("Loaded STL file: missing.stl", 5000)] /\
  load_failure_messages "missing.stl"
    (drop (length (events MainWindow.new)) (events w')) = [].
Proof.
  split; [reflexivity|]. split; [reflexivity|]. split; by vm_compute.
Qed.


(** ** C6: propagation *)

Lemma stored_colour_in_range c : QColor_in_range c -> stored_colour c = c.
Proof.
  intros (Hr & Hg & Hb). destruct c as [r g b]. unfold stored_colour, to_uchar.
  cbn [red green blue] in *. by rewrite !Z.mod_small by lia.
Qed.

(** C6, as amended.  [updateChildrenProperties(n, v, c)], for a colour [c]
    as [QColor] holds them (components in 0..255), sets the visibility to
    [v] and the colour to [c] on every part below [n]; [n] itself and the
    parts outside its subtree keep their visibility and colour (Item Options
    writes [n] itself with a separate [applyPropertiesToPart] call before);
    the label and the children of every part are unchanged. *)
Theorem updateChildrenProperties_writes_descendants part v c w :
  NoDup (addrs (root w)) -> part ∈ parts (root w) -> QColor_in_range c ->
  let w' := updateChildrenProperties part v c w in
  forall q, q ∈ parts (root w) ->
    exists q',
      find_part (m_addr q) (root w') = Some q' /\
      label q' = label q /\
      map m_addr (m_childItems q') = map m_addr (m_childItems q) /\
      (q ∈ flat_map parts (m_childItems part) -> visible q' = v /\ color q' = c) /\
      (q ∉ flat_map parts (m_childItems part) ->
       visible q' = visible q /\ color q' = color q).
Proof.
  intros Hnd Hpart Hc w' q Hq.
  destruct (updateChildrenProperties_propagated part v c w Hnd) as [_ H].
  rewrite (stored_colour_in_range c Hc) in H.
  destruct (H (m_addr q) q (find_part_NoDup _ _ Hnd Hq))
    as (q' & Hq' & [Hl Hcs] & Hin & Hout).
  exists q'. split; [done|]. split; [unfold label; by rewrite Hl|].
  split; [done|].
  assert (m_addr q ∈ flat_map addrs (m_childItems part)
          <-> q ∈ flat_map parts (m_childItems part)) as Hiff.
  { split.
    - intros (x & Hx & Hb)%elem_of_flat_map.
      apply elem_of_addrs in Hb as (q2 & Hq2 & Heq).
      assert (q2 ∈ flat_map parts (m_childItems part)) as Hq2'.
      { apply elem_of_flat_map. eauto. }
      assert (q2 = q) as <-; [|done].
      apply (parts_addr_inj (root w) q2 q Hnd); [|done|done].
      eapply parts_trans; [exact Hpart|].
      rewrite parts_unfold. by apply list_elem_of_further.
    - intros (x & Hx & Hb)%elem_of_flat_map.
      apply elem_of_flat_map. exists x. split; [done|].
      apply elem_of_addrs. eauto. }
  split.
  - intros Hd. apply Hin. by apply Hiff.
  - intros Hd. apply Hout. intros Hd'. apply Hd. by apply Hiff.
Qed.

Lemma updateChildrenProperties_writes_descendants_witness :
  exists q',
    find_part 2%nat
      (root (updateChildrenProperties w_group_model true (mkQColor 255 0 0)
               w_group))
    = Some q' /\
    label q' = "Assembly" /\ visible q' = true /\ color q' = mkQColor 255 0 0.
Proof.
  destruct (updateChildrenProperties_writes_descendants
              w_group_model true (mkQColor 255 0 0) w_group)
    with (q := w_group_assembly) as (q' & H1 & H2 & _ & H3 & _).
  - by_evaluation.
  - vm_compute. apply list_elem_of_further, list_elem_of_here.
  - unfold QColor_in_range. simpl. lia.
  - vm_compute. apply list_elem_of_further, list_elem_of_further, list_elem_of_here.
  - exists q'. split; [exact H1|]. split; [exact H2|].
    apply H3. vm_compute. apply list_elem_of_here.
Defined.

(** C6, as written, fails on [n] itself: with a group under the seeded part,
    propagating "visible" from the seeded part writes the group and leaves
    the seeded part invisible, as it was created. *)
Lemma propagate_skips_the_part_itself :
  ~ propagate_claim w_group_model true (mkQColor 255 0 0) w_group.
Proof.
  intros [H _].
  destruct (H _ (elem_of_parts_self _)) as (q' & Hq' & Hv & _).
  vm_compute in Hq'. injection Hq' as <-. discriminate.
Qed.

(** What the code does there: the group is written, the part is not. *)
Lemma propagate_skips_the_part_itself_result :
  let w' :=
    updateChildrenProperties w_group_model true (mkQColor 255 0 0) w_group in
  find_part 1%nat (root w_group) = Some w_group_model /\
  (visible <$> find_part 1%nat (root w')) = Some false /\
  (visible <$> find_part 2%nat (root w')) = Some true /\
  (color <$> find_part 2%nat (root w')) = Some (mkQColor 255 0 0).
Proof. by vm_compute. Qed.

(** Item Options writes the selected part itself, label included, before it
    propagates: afterwards that part has the visibility, the colour and the
    name of the dialog. *)
Lemma item_options_writes_selection name v c a sel w :
  NoDup (addrs (root w)) ->
  isValid (currentIndex w) = true -> internalPointer (currentIndex w) = Some a ->
  find_part a (root w) = Some sel ->
  QColor_in_range c -> 0 < columnCount sel ->
  exists sel',
    find_part a (root (on_actionItemOptions_triggered (Some (name, v, c)) w))
    = Some sel' /\
    visible sel' = v /\ color sel' = c /\ label sel' = name.
Proof.
  intros Hnd Hv Hptr Hsel Hc Hcols.
  unfold on_actionItemOptions_triggered. rewrite Hv, Hptr. cbn [negb].
  rewrite root_emit.
  pose proof (applyPropertiesToPart_root a name v c true w Hnd) as Hroot.
  set (w1 := applyPropertiesToPart (Some a) name v c true w) in *.
  apply find_part_Some in Hsel as Hsel'. destruct Hsel' as [Hin Ha].
  pose proof (applied_fields name v c true) as Hg.
  assert (find_part a (root w1) = Some (applied name v c true sel)) as Hfind.
  { rewrite Hroot. apply find_update_same; try done. by rewrite (proj1 (Hg sel)). }
  rewrite Hfind.
  assert (NoDup (addrs (root w1))) as Hnd1.
  { rewrite Hroot, addrs_update_fields; done. }
  destruct (updateChildrenProperties_propagated (applied name v c true sel) v c w1 Hnd1)
    as [_ H].
  destruct (H a _ Hfind) as (sel' & Hsel' & [Hl _] & _ & Hout).
  exists sel'. split; [done|].
  destruct Hout as [Hvis Hcol].
  { destruct (Hg sel) as (_ & -> & _).
    pose proof (NoDup_addrs_part _ _ Hnd Hin) as Hnds.
    rewrite addrs_unfold in Hnds. apply NoDup_cons in Hnds as [Hnot _].
    by rewrite <- Ha. }
  rewrite Hvis, Hcol, applied_visible, applied_color, (stored_colour_in_range c Hc).
  split; [done|]. split; [done|].
  unfold label. rewrite Hl. unfold applied.
  assert (data 0 (applyProperties name v c true sel) = QVariant_str name) as Hname.
  { unfold applyProperties.
    rewrite (data_itemData 0 _ (ModelPart.set 2
               (QVariant_str
                  (QString_number (red c) ++ "," ++ QString_number (green c)
                   ++ "," ++ QString_number (blue c))%string)
               (ModelPart.set 1 (QVariant_str (if v then "true" else "false"))
                  (ModelPart.set 0 (QVariant_str name) sel)))) by done.
    rewrite !data_set_other by lia. apply data_set_same. lia. }
  destruct (getActor _); by rewrite ?Hname; try (cbn [with_actor]; rewrite (data_itemData 0 _ (applyProperties name v c true sel)) by done; rewrite Hname).
Qed.

(** ** C7: unregistering before removal *)

(** C7.  When the delete handler carries a deletion out (a part below the
    root is selected through an index that names its row, it is not
    labelled "Model", and the confirmation is Yes), what it emits after the
    confirmation box is first the trace of [removeActorsRecursively], which
    holds a [RemoveActor] for every render handle of the selected subtree
    and nothing but [RemoveActor] and [Render], and only then the
    [BeginRemoveRows]/[EndRemoveRows] pair of the model and the status
    message.  Afterwards no handle of the subtree is among the view props
    and no part of the subtree is in the tree. *)
Theorem delete_unregisters_before_removal a selectedItem w :
  tree_ok (root w) ->
  isValid (currentIndex w) = true ->
  internalPointer (currentIndex w) = Some a ->
  find_part a (root w) = Some selectedItem ->
  selectedItem ≠ root w ->
  ix_row (currentIndex w) = row (root w) selectedItem ->
  label selectedItem ≠ "Model" ->
  let w' := on_actionDeleteFile_triggered true w in
  (exists parentIndex first last,
     events w'
     = events w
       ++ [MessageBoxQuestion "Confirm Deletion"
             "Are you sure you want to delete this item?"]
       ++ remove_trace selectedItem
       ++ [BeginRemoveRows parentIndex first last; EndRemoveRows;
           StatusUpdateMessage "Item deleted successfully." 5000]) /\
  (forall id, id ∈ handles selectedItem ->
     RemoveActor id ∈ remove_trace selectedItem /\ id ∉ renderer w') /\
  Forall (fun e => e = Render \/ exists id, e = RemoveActor id)
    (remove_trace selectedItem) /\
  (forall b, b ∈ addrs selectedItem -> find_part b (root w') = None).
Proof.
  intros Hok Hv Hptr Hsel Hne Hrow Hlabel w'. subst w'.
  pose proof Hok as [Hnd _ _].
  apply find_part_Some in Hsel as Hsel'. destruct Hsel' as [Hin Ha]. subst a.
  unfold on_actionDeleteFile_triggered.
  rewrite Hv. cbn [negb].
  assert (ModelPartList.deref (internalPointer (currentIndex w)) (partList w)
          = Some selectedItem) as -> by (by rewrite Hptr).
  rewrite decide_False by done.
  rewrite removeActorsRecursively_eq.
  set (w1 := emit _ w).
  set (w2 := with_rendering _ _ w1).
  change (partList w2) with (partList w).
  destruct (parent_index (currentIndex w) selectedItem (partList w) Hok Hin Hne Hv Hptr)
    as (P & i & HP & Hi & Hrow').
  fold (root w) in Hrow'. rewrite Hrow, Hrow'.
  destruct (removeRows_one i (ModelPartList.parent (currentIndex w) (partList w))
              P selectedItem (partList w) Hnd HP Hi)
    as (m' & -> & _ & Hgone).
  split; [|split; [|split]].
  - do 3 eexists. cbn [emit events w2 with_rendering w1].
    rewrite <- !app_assoc. reflexivity.
  - intros id Hid. split; [by apply remove_trace_handles|].
    cbn [emit renderer w2 with_rendering]. by apply not_elem_of_remove_ids.
  - apply remove_trace_events.
  - intros b Hb. by apply Hgone.
Qed.

Lemma delete_unregisters_before_removal_witness :
  let w' := on_actionDeleteFile_triggered true w_selected in
  renderer w_selected = [1%nat; 2%nat] /\
  renderer w' = [2%nat] /\
  find_part 2%nat (root w') = None.
Proof.
  split; [reflexivity|].
  destruct (delete_unregisters_before_removal 2%nat w_selected_part w_selected)
    as (_ & H2 & _ & H3).
  - split; [by_evaluation|vm_compute; repeat constructor|reflexivity].
  - reflexivity.
  - reflexivity.
  - reflexivity.
  - discriminate.
  - reflexivity.
  - by vm_compute.
  - split; [reflexivity|]. apply H3. vm_compute. apply list_elem_of_here.
Defined.


(** ** The claims over the states the window reaches *)

(** In every state reached from the constructor resync shows the handles
    of the tree and every part below the root sits in its parent at [row()]. *)
Lemma run_resync_and_position w :
  run w ->
  renderer (updateRender w) = handles (root w) /\
  forall n, n ∈ parts (root w) -> n ≠ root w ->
    exists P, parentItem n = Some (m_addr P) /\
              find_part (m_addr P) (root w) = Some P /\
              child (row (root w) n) P = Some n.
Proof.
  intros Hok%run_state_ok. pose proof Hok as [[Hnd Hpar _] Hcols Htop Hh _ _].
  split.
  - apply updateRender_renderer; try done. rewrite Hcols. lia.
  - intros n Hn Hne.
    destruct (position_ok (root w) n Hnd Hpar Hn Hne) as (P & i & H1 & H2 & _ & _ & H3).
    by exists P.
Qed.

End Claims.

(** * Further facts about parts and the model *)

Module PartFacts.
Import ModelPart Spec TreeFacts RenderFacts.
Local Open Scope list_scope.

Lemma data_set k j x n :
  data j (set k x n)
  = if (j =? k) && (0 <=? k) && (k <? columnCount n) then x else data j n.
Proof.
  unfold data, set, columnCount.
  destruct ((0 <=? k) && (k <? Z.of_nat (length (m_itemData n)))) eqn:Hk;
    cbn [m_itemData].
  - rewrite length_insert.
    destruct (j =? k) eqn:Hj; cbn [andb].
    + assert (j = k) as -> by lia. rewrite Hk.
      replace ((k <? 0) || (Z.of_nat (length (m_itemData n)) <=? k)) with false
        by lia.
      rewrite list_lookup_insert_eq by lia. done.
    + destruct ((j <? 0) || (Z.of_nat (length (m_itemData n)) <=? j)) eqn:Hr;
        [done|].
      rewrite list_lookup_insert_ne by lia. done.
  - destruct (j =? k) eqn:Hj; cbn [andb]; [|done].
    assert (j = k) as -> by lia. by rewrite Hk.
Qed.

Lemma child_Some r n c :
  child r n = Some c <-> 0 <= r /\ m_childItems n !! Z.to_nat r = Some c.
Proof.
  unfold child. split.
  - destruct ((r <? 0) || _) eqn:E; [done|]. intros H. split; [lia|done].
  - intros [Hr H]. pose proof (lookup_lt_Some _ _ _ H).
    replace ((r <? 0) || (Z.of_nat (length (m_childItems n)) <=? r)) with false
      by lia.
    done.
Qed.

Lemma child_lookup_Z r n :
  child r n = if r <? 0 then None else m_childItems n !! Z.to_nat r.
Proof.
  unfold child. destruct (r <? 0) eqn:E; [done|]. cbn [orb].
  destruct (Z.of_nat (length (m_childItems n)) <=? r) eqn:E2; [|done].
  symmetry. apply lookup_ge_None. lia.
Qed.

Lemma removeChild_children position n :
  0 <= position < childCount n ->
  m_childItems (removeChild position n)
  = delete (Z.to_nat position) (m_childItems n).
Proof.
  unfold childCount, removeChild. intros H.
  replace ((position <? 0) || (Z.of_nat (length (m_childItems n)) <=? position))
    with false by lia.
  done.
Qed.

Lemma removeChild_out_of_range position n :
  position < 0 \/ childCount n <= position -> removeChild position n = n.
Proof.
  unfold childCount, removeChild. intros H.
  replace ((position <? 0) || (Z.of_nat (length (m_childItems n)) <=? position))
    with true by lia.
  done.
Qed.

Lemma removeChildren_loop_spec (k : nat) position n :
  removeChildren_loop k position n
  = match k with
    | O => Some n
    | S _ =>
        if (0 <=? position) && (position + Z.of_nat k <=? childCount n)
        then Some (with_children
                     (take (Z.to_nat position) (m_childItems n)
                      ++ drop (Z.to_nat position + k) (m_childItems n)) n)
        else None
    end.
Proof.
  revert n. induction k as [|k IH]; intros n; [done|].
  cbn [removeChildren_loop]. unfold delete_takeAt, childCount.
  destruct ((0 <=? position) && (position <? Z.of_nat (length (m_childItems n))))
    eqn:E.
  - cbn [mbind option_bind]. rewrite IH. destruct k as [|k].
    + replace ((0 <=? position)
               && (position + Z.of_nat 1 <=? Z.of_nat (length (m_childItems n))))
        with true by lia.
      f_equal. f_equal. rewrite delete_take_drop. f_equal. f_equal. lia.
    + unfold childCount. cbn [m_childItems with_children].
      rewrite length_delete by (apply lookup_lt_is_Some; lia).
      destruct ((0 <=? position)
                && (position + Z.of_nat (S (S k))
                    <=? Z.of_nat (length (m_childItems n)))) eqn:E2.
      * replace ((0 <=? position)
                 && (position + Z.of_nat (S k)
                     <=? Z.of_nat (length (m_childItems n) - 1))) with true by lia.
        rewrite with_children_twice. f_equal. f_equal.
        rewrite delete_take_drop.
        rewrite take_app_le by (rewrite length_take; lia).
        rewrite take_take, Nat.min_id.
        rewrite drop_app_ge by (rewrite length_take; lia).
        rewrite length_take, drop_drop. f_equal. f_equal. lia.
      * replace ((0 <=? position)
                 && (position + Z.of_nat (S k)
                     <=? Z.of_nat (length (m_childItems n) - 1))) with false by lia.
        done.
  - cbn [mbind option_bind].
    replace ((0 <=? position)
             && (position + Z.of_nat (S k) <=? Z.of_nat (length (m_childItems n))))
      with false by lia.
    done.
Qed.

End PartFacts.

Module IndexFacts.
Import ModelPart Spec Notions TreeFacts RenderFacts ModelFacts PartFacts.
Local Open Scope list_scope.

Lemma deref_live a P m :
  ModelPartList.deref a m = Some P ->
  a = Some (m_addr P) /\ P ∈ parts (ModelPartList.rootItem m).
Proof.
  unfold ModelPartList.deref. destruct a as [a|]; [|done]. simpl.
  intros [H <-]%find_part_Some. done.
Qed.

Lemma deref_part P m :
  NoDup (addrs (ModelPartList.rootItem m)) ->
  P ∈ parts (ModelPartList.rootItem m) ->
  ModelPartList.deref (Some (m_addr P)) m = Some P.
Proof. intros Hnd HP. simpl. by apply find_part_NoDup. Qed.

Lemma isValid_createIndex r c a :
  isValid (createIndex r c a) = (0 <=? r) && (0 <=? c).
Proof. unfold isValid. simpl. by rewrite andb_true_r. Qed.

(** [index] under a parent index that stands for [P] through column 0 or
    as the invalid index. *)
Lemma index_eq r c parent P m :
  ModelPartList.deref (ModelPartList.getItem parent m) m = Some P ->
  (isValid parent = true -> ix_column parent = 0) ->
  ModelPartList.index r c parent m
  = if (0 <=? r) && (r <? childCount P) && (0 <=? c)
       && (c <? columnCount (ModelPartList.rootItem m))
    then match m_childItems P !! Z.to_nat r with
         | Some ch => createIndex r c (m_addr ch)
         | None => QModelIndex_invalid
         end
    else QModelIndex_invalid.
Proof.
  intros HP Hcol.
  unfold ModelPartList.index, ModelPartList.hasIndex, ModelPartList.rowCount,
    ModelPartList.columnCount.
  rewrite HP.
  assert (isValid parent && negb (ix_column parent =? 0) = false) as ->.
  { destruct (isValid parent); [|done]. rewrite Hcol by done. done. }
  cbn [mbind option_bind]. rewrite child_lookup_Z.
  destruct (0 <=? r) eqn:E1; destruct (r <? childCount P) eqn:E2;
    destruct (0 <=? c) eqn:E3;
    destruct (c <? columnCount (ModelPartList.rootItem m)) eqn:E4;
    cbn [andb orb negb];
    repeat match goal with
           | |- context [?x <? 0] =>
               first [replace (x <? 0) with false by lia
                     |replace (x <? 0) with true by lia]
           end; cbn [andb orb negb]; done.
Qed.

(** The canonical index of a part of the tree stands for that part. *)
Lemma index_for_of_part P m :
  tree_ok (ModelPartList.rootItem m) -> P ∈ parts (ModelPartList.rootItem m) ->
  index_of_part (index_for (ModelPartList.rootItem m) P) P m /\
  (isValid (index_for (ModelPartList.rootItem m) P) = true ->
   ix_column (index_for (ModelPartList.rootItem m) P) = 0).
Proof.
  intros [Hnd Hok Htop] HP. unfold index_for. case_decide as Hd.
  - assert (P = ModelPartList.rootItem m) as ->.
    { eapply parts_addr_inj; eauto using elem_of_parts_self. }
    split; [apply invalid_of_part|done].
  - assert (P ≠ ModelPartList.rootItem m) as Hne by (intros ->; by apply Hd).
    destruct (position_ok _ P Hnd Hok HP Hne) as (_ & j & _ & _ & _ & -> & _).
    split; [|done]. apply createIndex_of_part; [lia|done|done].
Qed.

Lemma row_of_child root P (i : nat) ch :
  tree_ok root -> P ∈ parts root -> m_childItems P !! i = Some ch ->
  row root ch = Z.of_nat i /\ m_parentItem ch = Some (m_addr P) /\
  ch ∈ parts root /\ m_addr ch ≠ m_addr root.
Proof.
  intros [Hnd Hok Htop] HP Hi.
  assert (ch ∈ m_childItems P) as Hch by (by eapply list_elem_of_lookup_2).
  assert (ch ∈ parts root) as Hin.
  { eapply parts_trans; [exact HP|]. by apply parts_child. }
  pose proof (parents_ok_child root P ch Hok HP Hch) as Hpar.
  split; [|split; [done|split; [done|]]].
  - unfold row. rewrite Hpar, (find_part_NoDup root P Hnd HP).
    apply indexOf_lookup; [|done].
    apply NoDup_children. by eapply NoDup_addrs_part.
  - intros Heq.
    assert (ch = root) as -> by
      (eapply parts_addr_inj; eauto using elem_of_parts_self).
    congruence.
Qed.

Lemma parent_of_child idx P ch m :
  tree_ok (ModelPartList.rootItem m) -> P ∈ parts (ModelPartList.rootItem m) ->
  ch ∈ m_childItems P ->
  isValid idx = true -> internalPointer idx = Some (m_addr ch) ->
  ModelPartList.parent idx m = index_for (ModelPartList.rootItem m) P.
Proof.
  intros Hok HP Hch Hv Hptr. pose proof Hok as [Hnd Hpok Htop].
  apply list_elem_of_lookup_1 in Hch as [i Hi].
  destruct (row_of_child _ P i ch Hok HP Hi) as (_ & Hpar & Hin & _).
  unfold ModelPartList.parent, ModelPartList.getItem. rewrite Hv, Hptr.
  cbn [negb]. rewrite (deref_part ch m Hnd Hin).
  cbn [mbind option_bind]. unfold parentItem. rewrite Hpar.
  unfold index_for, ModelPartList.getRootItem.
  destruct (decide (m_addr P = m_addr (ModelPartList.rootItem m))); [done|].
  by rewrite (find_part_NoDup _ P Hnd HP).
Qed.

Lemma update_part_id a n : update_part a (fun q => q) n = n.
Proof.
  induction n as [a' cs d p v c r ac IH] using t_ind.
  rewrite update_part_unfold. case_decide; [done|].
  assert (map (update_part a (fun q => q)) cs = cs) as Hcs.
  { clear H. induction IH as [|x l Hx _ IHl]; [done|]. cbn [map]. by rewrite Hx, IHl. }
  cbn [m_childItems]. rewrite Hcs. apply with_children_id.
Qed.

Lemma removeChild_appendChild item P :
  removeChild (childCount P) (appendChild item P) = P.
Proof.
  unfold removeChild, childCount, appendChild.
  rewrite children_with_children, length_app. cbn [length].
  replace ((Z.of_nat (length (m_childItems P)) <? 0)
           || (Z.of_nat (length (m_childItems P) + 1)
               <=? Z.of_nat (length (m_childItems P)))) with false by lia.
  rewrite with_children_twice, Nat2Z.id.
  rewrite delete_take_drop, take_app_length.
  rewrite drop_app_ge by lia.
  replace (S (length (m_childItems P)) - length (m_childItems P))%nat with 1%nat
    by lia.
  cbn [drop]. rewrite app_nil_r. apply with_children_id.
Qed.

End IndexFacts.

(** * Facts about the search *)

Module SearchFacts.
Import ModelPart Spec Notions TreeFacts RenderFacts ModelFacts PartFacts
  IndexFacts MainWindow.
Local Open Scope list_scope.

Lemma lfirst_cons s x l :
  lfirst s (x :: l) = if matches s x then Some x else lfirst s l.
Proof.
  unfold lfirst. cbn [list_find]. case_decide as Hd.
  - by rewrite Hd.
  - destruct (matches s x); [done|].
    by destruct (list_find _ l) as [[? ?]|].
Qed.

Lemma lfirst_app s l1 l2 :
  lfirst s (l1 ++ l2)
  = match lfirst s l1 with Some x => Some x | None => lfirst s l2 end.
Proof.
  induction l1 as [|x l1 IH]; [done|].
  cbn [app]. rewrite !lfirst_cons. by destruct (matches s x).
Qed.

Lemma lfirst_Some s l p :
  lfirst s l = Some p ->
  matches s p = true /\
  exists l1 l2, l = l1 ++ p :: l2 /\ Forall (fun q => matches s q = false) l1.
Proof.
  induction l as [|x l IH]; [done|]. rewrite lfirst_cons.
  destruct (matches s x) eqn:E.
  - intros [= <-]. split; [done|]. by exists [], l.
  - intros H. destruct (IH H) as (Hm & l1 & l2 & -> & Hl1).
    split; [done|]. exists (x :: l1), l2. split; [done|]. by constructor.
Qed.

Lemma lfirst_None s l :
  lfirst s l = None <-> Forall (fun q => matches s q = false) l.
Proof.
  induction l as [|x l IH]; [by split; [constructor|]|]. rewrite lfirst_cons.
  destruct (matches s x) eqn:E.
  - split; [done|]. intros [H _]%Forall_cons. congruence.
  - rewrite IH. split; [by constructor|]. by intros [_ H]%Forall_cons.
Qed.

Lemma below_root root p :
  NoDup (addrs root) -> p ∈ flat_map parts (m_childItems root) ->
  p ∈ parts root /\ m_addr p ≠ m_addr root.
Proof.
  intros Hnd Hp. split.
  - rewrite parts_unfold. by apply list_elem_of_further.
  - rewrite addrs_unfold in Hnd. apply NoDup_cons in Hnd as [Hn _].
    intros Heq. apply Hn. rewrite <- Heq.
    apply elem_of_flat_map in Hp as (c & Hc & Hp).
    apply elem_of_flat_map. exists c. split; [done|].
    apply elem_of_addrs. by exists p.
Qed.

Lemma proper_descendant root x p :
  x ∈ parts root -> m_addr x ≠ m_addr root -> p ∈ parts x ->
  p ∈ flat_map parts (m_childItems root).
Proof.
  intros Hx Hne Hp. rewrite parts_unfold in Hx.
  apply elem_of_cons in Hx as [->|Hx]; [done|].
  apply elem_of_flat_map in Hx as (c & Hc & Hx).
  apply elem_of_flat_map. exists c. split; [done|]. by eapply parts_trans.
Qed.

Lemma index_for_valid root p :
  tree_ok root -> p ∈ parts root -> m_addr p ≠ m_addr root ->
  index_for root p = createIndex (row root p) 0 (m_addr p) /\
  0 <= row root p /\ isValid (index_for root p) = true.
Proof.
  intros [Hnd Hok Htop] Hp Hne. unfold index_for. rewrite decide_False by done.
  assert (p ≠ root) as Hne' by (intros ->; by apply Hne).
  destruct (position_ok _ p Hnd Hok Hp Hne') as (_ & j & _ & _ & _ & Hrow & _).
  split; [done|]. split; [lia|]. rewrite isValid_createIndex. lia.
Qed.

Lemma isValid_found_index root o :
  tree_ok root ->
  (forall p, o = Some p -> p ∈ parts root /\ m_addr p ≠ m_addr root) ->
  isValid (found_index root o) = bool_decide (is_Some o).
Proof.
  intros Hok Ho. destruct o as [p|]; cbn [found_index from_option].
  - destruct (Ho p eq_refl) as [Hp Hne].
    by destruct (index_for_valid root p Hok Hp Hne) as (_ & _ & ->).
  - done.
Qed.

(** The loop over the rows below an index looks at the children in order,
    each with what lies below it. *)
Lemma search_rows_spec below s idx P m :
  tree_ok (ModelPartList.rootItem m) ->
  0 < columnCount (ModelPartList.rootItem m) ->
  P ∈ parts (ModelPartList.rootItem m) ->
  index_of_part idx P m ->
  (forall c r, c ∈ m_childItems P -> 0 <= r ->
     below (createIndex r 0 (m_addr c))
     = found_index (ModelPartList.rootItem m)
         (lfirst s (flat_map parts (m_childItems c)))) ->
  forall suf pre, m_childItems P = pre ++ suf ->
  search_rows below s idx m (seq (length pre) (length suf))
  = found_index (ModelPartList.rootItem m) (lfirst s (flat_map parts suf)).
Proof.
  intros Hok Hcols HP Hidx IH. pose proof Hok as [Hnd Hpok Htop].
  induction suf as [|x suf IHs]; intros pre Hsplit; [done|].
  cbn [length seq search_rows flat_map].
  assert (m_childItems P !! length pre = Some x) as Hx.
  { rewrite Hsplit. by rewrite list_lookup_middle. }
  assert (x ∈ m_childItems P) as Hxin by (by eapply list_elem_of_lookup_2).
  destruct (row_of_child _ P (length pre) x Hok HP Hx) as (Hrow & _ & Hxp & Hne).
  rewrite (index_child idx P m (length pre) x Hidx Hcols Hx).
  assert (toString
            (ModelPartList.data (createIndex (Z.of_nat (length pre)) 0 (m_addr x))
               DisplayRole m) = label x) as ->.
  { unfold ModelPartList.data. rewrite isValid_createIndex.
    replace ((0 <=? Z.of_nat (length pre)) && (0 <=? 0)) with true by lia.
    cbn [negb orb Z.eqb DisplayRole internalPointer createIndex ix_column].
    by rewrite deref_part. }
  fold (matches s x). rewrite (parts_unfold x).
  change ((x :: flat_map parts (m_childItems x)) ++ flat_map parts suf)
    with (x :: (flat_map parts (m_childItems x) ++ flat_map parts suf)).
  rewrite lfirst_cons.
  destruct (matches s x) eqn:Em.
  - cbn [found_index from_option].
    destruct (index_for_valid _ x Hok Hxp Hne) as (-> & _ & _).
    by rewrite Hrow.
  - rewrite IH by (done || lia). rewrite lfirst_app.
    rewrite isValid_found_index; [|done|].
    2:{ intros p Hp. apply lfirst_Some in Hp as (_ & l1 & l2 & Hl & _).
        assert (p ∈ parts x) as Hpx.
        { rewrite parts_unfold, Hl. apply list_elem_of_further, elem_of_app.
          right. apply list_elem_of_here. }
        apply below_root; [done|]. by apply (proper_descendant _ x). }
    destruct (lfirst s (flat_map parts (m_childItems x))) as [p|];
      [by rewrite bool_decide_true by eauto|].
    rewrite bool_decide_false by (by intros [? ?]).
    replace (S (length pre)) with (length (pre ++ [x]))
      by (rewrite length_app; simpl; lia).
    apply IHs. by rewrite <- app_assoc.
Qed.

Lemma searchInTreeView_below n s m :
  forall fuel r,
  tree_ok (ModelPartList.rootItem m) ->
  0 < columnCount (ModelPartList.rootItem m) ->
  n ∈ parts (ModelPartList.rootItem m) -> (length (parts n) <= fuel)%nat ->
  0 <= r ->
  searchInTreeView fuel s (createIndex r 0 (m_addr n)) m
  = found_index (ModelPartList.rootItem m)
      (lfirst s (flat_map parts (m_childItems n))).
Proof.
  induction n as [a cs d pa v c rd ac IH] using t_ind.
  intros fuel r Hok Hcols Hn Hfuel Hr. pose proof Hok as [Hnd _ _].
  set (n := ModelPart.mk a cs d pa v c rd ac) in *.
  destruct fuel as [|fuel]; [pose proof (parts_length_pos n); lia|].
  cbn [searchInTreeView].
  pose proof (createIndex_of_part r n m Hr Hnd Hn) as Hidx.
  pose proof Hidx as [Hrows _]. rewrite Hrows.
  unfold childCount. rewrite Nat2Z.id.
  apply (search_rows_spec _ s _ n m Hok Hcols Hn Hidx) with (pre := []); [|done].
  intros c0 r0 Hc0 Hr0. rewrite Forall_forall in IH. apply IH; try done.
  - eapply parts_trans; [exact Hn|]. by apply parts_child.
  - pose proof (parts_length_child n c0 Hc0). lia.
Qed.

(** The search from the root. *)
Lemma searchInTreeView_root s m :
  tree_ok (ModelPartList.rootItem m) ->
  0 < columnCount (ModelPartList.rootItem m) ->
  searchInTreeView (length (parts (ModelPartList.rootItem m))) s
    QModelIndex_invalid m
  = found_index (ModelPartList.rootItem m)
      (first_match s (ModelPartList.rootItem m)).
Proof.
  intros Hok Hcols. pose proof Hok as [Hnd _ _].
  pose proof (parts_length_pos (ModelPartList.rootItem m)) as Hpos.
  destruct (length (parts (ModelPartList.rootItem m))) as [|fuel] eqn:Ef; [lia|].
  cbn [searchInTreeView].
  pose proof (invalid_of_part m) as Hidx. pose proof Hidx as [Hrows _].
  rewrite Hrows. unfold childCount. rewrite Nat2Z.id.
  apply (search_rows_spec _ s _ (ModelPartList.rootItem m) m Hok Hcols
           (elem_of_parts_self _) Hidx) with (pre := []); [|done].
  intros c r Hc Hr. apply searchInTreeView_below; try done.
  - by apply parts_child.
  - pose proof (parts_length_child _ c Hc). lia.
Qed.

(** What a match is. *)
Lemma first_match_Some s root p :
  NoDup (addrs root) -> first_match s root = Some p ->
  p ∈ parts root /\ m_addr p ≠ m_addr root /\ matches s p = true.
Proof.
  intros Hnd Hp. apply lfirst_Some in Hp as (Hm & l1 & l2 & Hl & _).
  assert (p ∈ flat_map parts (m_childItems root)) as Hin.
  { rewrite Hl. apply elem_of_app. right. apply list_elem_of_here. }
  destruct (below_root root p Hnd Hin). done.
Qed.

End SearchFacts.

(** * Facts about what the tree shows *)

Module GridFacts.
Import ModelPart Spec Notions TreeFacts RenderFacts ModelFacts WindowFacts
  InvariantFacts PartFacts IndexFacts SearchFacts MainWindow.
Local Open Scope list_scope.

Lemma row_ok_ext n n' :
  m_itemData n' = m_itemData n -> isVisible n' = isVisible n ->
  color n' = color n -> actor n' = actor n ->
  row_ok n -> row_ok n'.
Proof.
  intros Ed Ev Ec Ea [(x & y & z & Hd) Hs]. split.
  - exists x, y, z. congruence.
  - intros ac Hac. rewrite Ea in Hac. destruct (Hs ac Hac) as (H1 & H2 & H3 & H4).
    unfold visible in *. rewrite Ev, Ec.
    rewrite (data_itemData 1 n' n Ed), (data_itemData 2 n' n Ed). done.
Qed.

Lemma row_ok_with_children cs n : row_ok n -> row_ok (with_children cs n).
Proof. by apply row_ok_ext. Qed.

Lemma row_ok_with_parent pa n : row_ok n -> row_ok (with_parent pa n).
Proof. by apply row_ok_ext. Qed.

(** A call on one part keeps the rows well-formed if it does so for the
    part it is made on. *)
Lemma rows_update a f n :
  Forall row_ok (parts n) ->
  (forall p, p ∈ parts n -> m_addr p = a -> Forall row_ok (parts (f p))) ->
  Forall row_ok (parts (update_part a f n)).
Proof.
  induction n as [a' cs d pa v c r ac IH] using t_ind. intros Hall Hf.
  set (n := ModelPart.mk a' cs d pa v c r ac) in *.
  rewrite update_part_unfold. case_decide as Hd.
  - apply Hf; [apply elem_of_parts_self|done].
  - rewrite parts_unfold, children_with_children.
    rewrite (parts_unfold n) in Hall. apply Forall_cons in Hall as [Hn Hcs].
    constructor; [by apply row_ok_with_children|].
    change (m_childItems n) with cs in *.
    apply Forall_forall. intros q Hq.
    apply elem_of_flat_map in Hq as (x' & Hx' & Hq).
    apply list_elem_of_fmap in Hx' as (x & -> & Hx).
    rewrite Forall_forall in IH. specialize (IH x Hx).
    assert (Forall row_ok (parts x)) as Hallx.
    { apply Forall_forall. intros y Hy. rewrite Forall_forall in Hcs. apply Hcs.
      apply elem_of_flat_map. eauto. }
    assert (Forall row_ok (parts (update_part a f x))) as Hres.
    { apply IH; [done|]. intros p Hp Hpa. apply Hf; [|done].
      eapply parts_trans; [|exact Hp]. by apply (parts_child n). }
    rewrite Forall_forall in Hres. by apply Hres.
Qed.

Lemma rows_appendChild item q :
  Forall row_ok (parts q) -> Forall row_ok (parts item) ->
  Forall row_ok (parts (appendChild item q)).
Proof.
  intros Hq Hi. unfold appendChild. rewrite parts_unfold, children_with_children.
  rewrite parts_unfold in Hq. apply Forall_cons in Hq as [Hq Hcs].
  constructor; [by apply row_ok_with_children|].
  rewrite flat_map_app. apply Forall_app. split; [done|].
  cbn [flat_map]. rewrite app_nil_r.
  rewrite parts_unfold in Hi. apply Forall_cons in Hi as [Hi Hics].
  rewrite parts_unfold. constructor; [by apply row_ok_with_parent|done].
Qed.

Lemma rows_sublist cs q :
  cs `sublist_of` m_childItems q ->
  Forall row_ok (parts q) -> Forall row_ok (parts (with_children cs q)).
Proof.
  intros Hsub Hq. rewrite parts_unfold, children_with_children.
  rewrite parts_unfold in Hq. apply Forall_cons in Hq as [Hq Hcs].
  constructor; [by apply row_ok_with_children|].
  apply Forall_forall. intros x Hx. rewrite Forall_forall in Hcs. apply Hcs.
  eapply sublist_subseteq; [|exact Hx]. by apply flat_map_sublist.
Qed.

Lemma rows_removeChild position q :
  Forall row_ok (parts q) -> Forall row_ok (parts (removeChild position q)).
Proof.
  intros Hq. destruct (removeChild_cases position q) as [->|(i & ->)]; [done|].
  apply rows_sublist; [apply sublist_delete|done].
Qed.

(** The data of a part after [applyPropertiesToPart]. *)
Lemma itemData_set k x n :
  m_itemData (set k x n)
  = if (0 <=? k) && (k <? columnCount n) then <[Z.to_nat k := x]> (m_itemData n)
    else m_itemData n.
Proof. unfold set, columnCount. by destruct (_ && _). Qed.

Lemma applied_itemData name v c upd n x y z :
  m_itemData n = [QVariant_str x; QVariant_str y; QVariant_str z] ->
  m_itemData (applied name v c upd n)
  = [QVariant_str (if upd then name else x); QVariant_str (visible_text v);
     QVariant_str (colour_text c)].
Proof.
  intros Hd.
  assert (m_itemData (applyProperties name v c upd n)
          = [QVariant_str (if upd then name else x); QVariant_str (visible_text v);
             QVariant_str (colour_text c)]) as H.
  { unfold applyProperties.
    change (m_itemData (setVisible v (setColour (red c) (green c) (blue c) ?q)))
      with (m_itemData q).
    cbn [m_itemData setVisible setColour].
    rewrite !itemData_set, !set_columnCount. unfold columnCount.
    destruct upd; rewrite ?itemData_set; unfold columnCount; rewrite Hd; done. }
  unfold applied. destruct (getActor _); [|done]. exact H.
Qed.

Lemma row_ok_applied name v c upd n :
  three_strings n -> QColor_in_range c -> row_ok (applied name v c upd n).
Proof.
  intros (x & y & z & Hd) Hc.
  pose proof (applied_itemData name v c upd n x y z Hd) as Hd'.
  assert (stored_colour c = c) as Hsc.
  { destruct c as [r g b]. destruct Hc as (Hr & Hg & Hb). cbn in *.
    unfold stored_colour, to_uchar. cbn.
    by rewrite !Z.mod_small by lia. }
  split; [by eexists _, _, _|].
  intros ac Hac. rewrite applied_visible, applied_color, Hsc.
  unfold data. rewrite Hd'. cbn [length].
  split; [done|]. split; [done|].
  unfold applied in Hac.
  destruct (getActor (applyProperties name v c upd n)) as [ac0|] eqn:E.
  - cbn [with_actor actor] in Hac. injection Hac as <-. done.
  - unfold getActor in E. congruence.
Qed.

Lemma rows_applied name v c upd q :
  QColor_in_range c ->
  Forall row_ok (parts q) -> Forall row_ok (parts (applied name v c upd q)).
Proof.
  intros Hc Hq. destruct (applied_fields name v c upd q) as (_ & Hcs & _).
  rewrite parts_unfold, Hcs.
  rewrite parts_unfold in Hq. apply Forall_cons in Hq as [[Hq _] Hall].
  constructor; [by apply row_ok_applied|done].
Qed.

(** *** The tree invariant under the calls the handlers make *)

Lemma grid_ok_appendChild p item root :
  grid_ok root -> Forall row_ok (parts item) ->
  grid_ok (update_part p (appendChild item) root).
Proof.
  intros [Ht Hh Hc] Hi. split.
  - by rewrite update_part_top_addr.
  - by rewrite update_part_itemData.
  - apply rows_update; [done|]. intros q Hq _. apply rows_appendChild; [|done].
    apply Forall_forall. intros y Hy. rewrite Forall_forall in Hc. apply Hc.
    by eapply parts_trans.
Qed.

Lemma grid_ok_removeChild p position root :
  grid_ok root -> grid_ok (update_part p (removeChild position) root).
Proof.
  intros [Ht Hh Hc].
  assert (forall q, m_addr (removeChild position q) = m_addr q /\
                    m_itemData (removeChild position q) = m_itemData q) as Hf.
  { intros q. unfold removeChild. by destruct (_ || _). }
  split.
  - rewrite update_part_top_addr; [done|apply Hf].
  - rewrite update_part_itemData; [done|apply Hf].
  - apply rows_update; [done|]. intros q Hq _. apply rows_removeChild.
    apply Forall_forall. intros y Hy. rewrite Forall_forall in Hc. apply Hc.
    by eapply parts_trans.
Qed.

Lemma grid_ok_applied a name v c upd root :
  grid_ok root -> a ≠ 0%nat -> QColor_in_range c ->
  grid_ok (update_part a (applied name v c upd) root).
Proof.
  intros [Ht Hh Hc] Ha Hcol. split.
  - rewrite update_part_fields_addr; [done|apply applied_fields].
  - rewrite update_part_unfold, decide_False by congruence. done.
  - apply rows_update; [done|]. intros q Hq _. apply rows_applied; [done|].
    apply Forall_forall. intros y Hy. rewrite Forall_forall in Hc. apply Hc.
    by eapply parts_trans.
Qed.

Lemma grid_ok_write_all v c S :
  forall root, grid_ok root -> Forall (fun a => a ≠ 0%nat) S ->
  QColor_in_range c -> grid_ok (write_all v c S root).
Proof.
  induction S as [|a S IH]; intros root Hg HS Hc; [done|].
  apply Forall_cons in HS as [Ha HS]. cbn [write_all foldl].
  apply IH; [|done|done]. by apply grid_ok_applied.
Qed.

End GridFacts.

(** * Facts about the handlers *)

Module HandlerFacts.
Import ModelPart Spec Notions TreeFacts RenderFacts ModelFacts WindowFacts
  InvariantFacts PartFacts IndexFacts SearchFacts GridFacts MainWindow.
Local Open Scope list_scope.

(** *** The tree after a propagation *)

Lemma write_all_app v c S1 S2 root :
  write_all v c (S1 ++ S2) root = write_all v c S2 (write_all v c S1 root).
Proof. unfold write_all. by rewrite foldl_app. Qed.

Lemma write_all_NoDup v c S :
  forall root, NoDup (addrs root) -> addrs (write_all v c S root) = addrs root.
Proof.
  induction S as [|a S IH]; intros root Hnd; [done|]. cbn [write_all foldl].
  fold (write_all v c S (update_part a (applied "" v c false) root)).
  pose proof (addrs_update_fields a _ root Hnd (applied_fields "" v c false)) as E.
  rewrite IH by (by rewrite E). done.
Qed.

Lemma updateChildrenProperties_root part v c :
  forall w, NoDup (addrs (root w)) ->
  root (updateChildrenProperties part v c w)
  = write_all v c (flat_map addrs (m_childItems part)) (root w).
Proof.
  induction part as [a cs d pa vv cc r ac IH] using t_ind. intros w Hnd.
  cbn [updateChildrenProperties m_childItems].
  revert w Hnd. induction cs as [|x cs IHcs]; intros w Hnd; [done|].
  apply Forall_cons in IH as [IHx IHr]. cbn [foldl flat_map].
  set (w1 := applyPropertiesToPart (Some (m_addr x)) "" v c false w).
  set (w2 := updateChildrenProperties x v c w1).
  assert (root w1 = write_all v c [m_addr x] (root w)) as E1.
  { unfold w1. by rewrite applyPropertiesToPart_root. }
  assert (NoDup (addrs (root w1))) as Hnd1.
  { rewrite E1, write_all_NoDup; done. }
  assert (root w2 = write_all v c (flat_map addrs (m_childItems x)) (root w1)) as E2.
  { by apply IHx. }
  assert (NoDup (addrs (root w2))) as Hnd2.
  { rewrite E2, write_all_NoDup; done. }
  rewrite (IHcs IHr w2 Hnd2), E2, E1, <- !write_all_app.
  by rewrite (addrs_unfold x).
Qed.

(** *** The selection *)

Lemma currentIndex_applyPropertiesToPart part name v c upd w :
  currentIndex (applyPropertiesToPart part name v c upd w) = currentIndex w.
Proof.
  destruct part as [a|]; [|done]. unfold applyPropertiesToPart.
  destruct (_ ≫= _); [|done].
  match goal with
  | |- currentIndex (updateRender ?x) = _ =>
      by destruct (updateRender_next x) as (_ & _ & ->)
  end.
Qed.

Lemma currentIndex_updateChildrenProperties part v c :
  forall w, currentIndex (updateChildrenProperties part v c w) = currentIndex w.
Proof.
  induction part as [a cs d pa vv cc r ac IH] using t_ind. intros w.
  cbn [updateChildrenProperties]. revert w.
  induction cs as [|x cs IHcs]; intros w; [done|].
  apply Forall_cons in IH as [IHx IHr]. cbn [foldl].
  rewrite (IHcs IHr), IHx. apply currentIndex_applyPropertiesToPart.
Qed.

Lemma currentIndex_on_actionItemOptions_triggered dialog w :
  currentIndex (on_actionItemOptions_triggered dialog w) = currentIndex w.
Proof.
  unfold on_actionItemOptions_triggered.
  destruct (isValid (currentIndex w)); cbn [negb]; [|done].
  destruct (internalPointer (currentIndex w)) as [a|]; [|done].
  destruct dialog as [[[name v] c]|]; [|done].
  cbn [emit currentIndex].
  destruct (find_part a _).
  - rewrite currentIndex_updateChildrenProperties.
    apply currentIndex_applyPropertiesToPart.
  - apply currentIndex_applyPropertiesToPart.
Qed.

Lemma currentIndex_createModelPartFromFile fileName outcome w :
  currentIndex (createModelPartFromFile fileName outcome w) = currentIndex w.
Proof.
  unfold createModelPartFromFile, load_completion.
  cbn [emit addFloor renderer_AddActor currentIndex].
  match goal with
  | |- currentIndex (updateRender ?x) = _ =>
      destruct (updateRender_next x) as (_ & _ & ->)
  end.
  cbn [currentIndex]. by destruct (if isValid _ then _ else _).
Qed.

Lemma currentIndex_on_actionNewGroup_accepted index groupName w :
  currentIndex (on_actionNewGroup_accepted index groupName w) = currentIndex w.
Proof.
  unfold on_actionNewGroup_accepted. cbn [emit currentIndex].
  by destruct (if isValid _ then _ else _).
Qed.

Lemma currentIndex_on_actionDeleteFile_triggered yes w :
  currentIndex (on_actionDeleteFile_triggered yes w) = currentIndex w.
Proof.
  unfold on_actionDeleteFile_triggered.
  destruct (isValid (currentIndex w)); cbn [negb]; [|done].
  destruct (ModelPartList.deref _ _) as [sel|]; [|done].
  case_decide; [done|]. destruct yes; [|done].
  rewrite removeActorsRecursively_eq.
  destruct (ModelPartList.removeRows _ _ _ _) as [[ok m] signals].
  by destruct ok.
Qed.

Lemma currentIndex_completions tasks :
  forall w, currentIndex (completions tasks w) = currentIndex w.
Proof.
  unfold completions.
  induction tasks as [|[f o] l IH]; intros w; [done|]. cbn [foldl fst snd].
  rewrite IH. apply currentIndex_createModelPartFromFile.
Qed.

(** *** The renderer *)

Lemma existsb_ext {A} (f g : A -> bool) l :
  (forall x, f x = g x) -> existsb f l = existsb g l.
Proof. intros H. induction l as [|x l IH]; [done|]. cbn. by rewrite H, IH. Qed.

Lemma handles_applied a name v c upd root :
  NoDup (addrs root) ->
  handles (update_part a (applied name v c upd) root) = handles root.
Proof.
  intros Hnd. apply handles_update_fields; [done|apply applied_fields|].
  apply applied_actor_id.
Qed.

Lemma has_handle_update a g root b :
  NoDup (addrs root) -> fields_only g ->
  (forall q, actor_id <$> actor (g q) = actor_id <$> actor q) ->
  has_handle (update_part a g root) b = has_handle root b.
Proof.
  intros Hnd Hg Hid. unfold has_handle. rewrite find_update_fields by done.
  destruct (find_part b root) as [p|]; [|done].
  cbn [fmap option_fmap option_map mbind option_bind]. unfold getActor.
  rewrite update_part_unfold. case_decide.
  - specialize (Hid p). apply bool_decide_ext.
    destruct (actor (g p)), (actor p); try done; split; intros [? ?]; eauto.
  - done.
Qed.

Lemma handles_write_all v c S :
  forall root, NoDup (addrs root) ->
  handles (write_all v c S root) = handles root /\
  forall b, has_handle (write_all v c S root) b = has_handle root b.
Proof.
  induction S as [|a S IH]; intros root Hnd; [done|]. cbn [write_all foldl].
  fold (write_all v c S (update_part a (applied "" v c false) root)).
  pose proof (addrs_update_fields a _ root Hnd (applied_fields "" v c false)) as E.
  destruct (IH (update_part a (applied "" v c false) root)) as [-> H2];
    [by rewrite E|].
  split; [by apply handles_applied|]. intros b. rewrite H2.
  apply has_handle_update; [done|apply applied_fields|apply applied_actor_id].
Qed.

(** [applyPropertiesToPart] resyncs the renderer when the part has a render
    handle and leaves it alone otherwise. *)
Lemma applyPropertiesToPart_renderer a name v c upd w :
  state_ok w ->
  renderer (applyPropertiesToPart (Some a) name v c upd w)
  = if has_handle (root w) a then handles (root w) else renderer w.
Proof.
  intros Hok. pose proof Hok as [[Hnd _ _] _ _ _ _ _].
  pose proof (applyPropertiesToPart_root a name v c upd w Hnd) as Hroot.
  apply state_ok_model in Hok as [Hm Hr].
  pose proof (model_ok_applied _ _ a name v c upd _ Hm) as Hm'.
  unfold applyPropertiesToPart in *.
  set (w1 := call a (applyProperties name v c upd) w) in *.
  set (w2 := emit _ w1) in *.
  assert (find_part a (root w2) ≫= getActor = find_part a (root w) ≫= getActor)
    as Hsame.
  { change (root w2) with (update_part a (applyProperties name v c upd) (root w)).
    rewrite find_update_fields by (done || apply applyProperties_fields).
    destruct (find_part a (root w)) as [p|] eqn:Ep; [|done].
    apply find_part_Some in Ep as [_ Hpa].
    cbn [fmap option_fmap option_map mbind option_bind]. unfold getActor.
    rewrite update_part_unfold, decide_True by done.
    by rewrite applyProperties_actor. }
  unfold has_handle. rewrite <- Hsame.
  destruct (find_part a (root w2) ≫= getActor) as [ac|] eqn:E.
  - rewrite bool_decide_true by eauto.
    rewrite root_updateRender in Hroot.
    destruct Hm' as [[Hnd' _ _] Hcols' Hact' Hh' _ _]. rewrite <- Hroot in *.
    rewrite updateRender_renderer; try done; [|rewrite Hcols'; lia].
    rewrite Hroot. by apply handles_applied.
  - rewrite bool_decide_false by (by intros [? ?]). done.
Qed.

Lemma updateChildrenProperties_renderer part v c :
  forall w, state_ok w ->
  renderer (updateChildrenProperties part v c w)
  = if existsb (has_handle (root w)) (flat_map addrs (m_childItems part))
    then handles (root w) else renderer w.
Proof.
  induction part as [a cs d pa vv cc r ac IH] using t_ind. intros w Hok.
  cbn [updateChildrenProperties m_childItems].
  revert w Hok. induction cs as [|x cs IHcs]; intros w Hok; [done|].
  apply Forall_cons in IH as [IHx IHr]. cbn [foldl flat_map].
  pose proof Hok as [[Hnd _ _] _ _ _ _ _].
  set (w1 := applyPropertiesToPart (Some (m_addr x)) "" v c false w).
  set (w2 := updateChildrenProperties x v c w1).
  assert (state_ok w1) as Hok1 by (by apply state_ok_applyPropertiesToPart).
  assert (state_ok w2) as Hok2 by (by apply state_ok_updateChildrenProperties).
  assert (root w1 = write_all v c [m_addr x] (root w)) as E1.
  { unfold w1. by rewrite applyPropertiesToPart_root. }
  assert (root w2 = write_all v c (flat_map addrs (m_childItems x)) (root w1)) as E2.
  { apply updateChildrenProperties_root. by destruct Hok1 as [[? _ _] _ _ _ _ _]. }
  destruct (handles_write_all v c [m_addr x] (root w) Hnd) as [Hh1 Hb1].
  rewrite <- E1 in Hh1, Hb1.
  destruct (handles_write_all v c (flat_map addrs (m_childItems x)) (root w1))
    as [Hh2 Hb2]; [by destruct Hok1 as [[? _ _] _ _ _ _ _]|].
  rewrite <- E2 in Hh2, Hb2.
  rewrite (IHcs IHr w2 Hok2).
  rewrite (existsb_ext (has_handle (root w2)) (has_handle (root w)))
    by (intros b; by rewrite Hb2, Hb1).
  rewrite Hh2, Hh1. unfold w2. rewrite (IHx w1 Hok1).
  rewrite (existsb_ext (has_handle (root w1)) (has_handle (root w)))
    by (intros b; by rewrite Hb1).
  rewrite Hh1. unfold w1. rewrite applyPropertiesToPart_renderer by done.
  rewrite (addrs_unfold x). cbn [existsb app]. rewrite existsb_app.
  destruct (has_handle (root w) (m_addr x)); cbn [orb];
    destruct (existsb (has_handle (root w)) (flat_map addrs (m_childItems x)));
    cbn [orb];
    destruct (existsb (has_handle (root w)) (flat_map addrs cs)); done.
Qed.

(** A part of the tree has a render handle somewhere below or at itself
    exactly when [handles] of it is not empty. *)
Lemma existsb_has_handle root p :
  NoDup (addrs root) -> p ∈ parts root ->
  existsb (has_handle root) (addrs p) = negb (bool_decide (handles p = [])).
Proof.
  intros Hnd Hp.
  assert (forall l : list ModelPart.t, Forall (fun q => q ∈ parts root) l ->
            existsb (has_handle root) (map m_addr l)
            = negb (bool_decide (omap (fun q => actor_id <$> actor q) l = []))) as H.
  { induction l as [|q l IHl]; [done|]. intros [Hq Hl]%Forall_cons.
    cbn [map existsb omap list_omap]. rewrite (IHl Hl). unfold has_handle.
    rewrite (find_part_NoDup root q Hnd Hq).
    cbn [mbind option_bind]. unfold getActor.
    destruct (actor q) as [ac|]; cbn [fmap option_fmap option_map].
    - rewrite bool_decide_true by eauto. cbn [orb].
      by rewrite bool_decide_false.
    - rewrite bool_decide_false by (by intros [? ?]). done. }
  apply H. apply Forall_forall. intros q Hq. by eapply parts_trans.
Qed.

Lemma NoDup_add_ids ids : forall l, NoDup l -> NoDup (add_ids ids l).
Proof.
  induction ids as [|id ids IH]; intros l Hl; [done|]. cbn [add_ids foldl].
  apply IH. case_decide; [done|]. apply NoDup_app. split; [done|].
  split; [|apply NoDup_singleton].
  intros x Hx Hx'%list_elem_of_singleton. by subst.
Qed.

Lemma NoDup_remove_ids ids : forall l, NoDup l -> NoDup (remove_ids ids l).
Proof.
  induction ids as [|id ids IH]; intros l Hl; [done|]. cbn [remove_ids foldl].
  apply IH. by apply NoDup_filter.
Qed.

Lemma filter_all {A} (P : A -> Prop) `{!forall x, Decision (P x)} (l : list A) :
  Forall P l -> filter P l = l.
Proof.
  induction 1 as [|x l Hx _ IH]; [done|]. by rewrite filter_cons_True, IH.
Qed.

Lemma remove_ids_filter ids :
  forall l, remove_ids ids l = filter (fun x => x ∉ ids) l.
Proof.
  induction ids as [|id ids IH]; intros l.
  - cbn [remove_ids foldl]. symmetry. apply filter_all.
    apply Forall_forall. intros x _. apply not_elem_of_nil.
  - cbn [remove_ids foldl]. fold (remove_ids ids (filter (fun x => x ≠ id) l)).
    rewrite IH. rewrite list_filter_filter. apply list_filter_iff.
    intros x. rewrite not_elem_of_cons. tauto.
Qed.

End HandlerFacts.

(** * The invariant of a session *)

Module SessionFacts.
Import ModelPart Spec Notions TreeFacts RenderFacts ModelFacts WindowFacts
  InvariantFacts PartFacts IndexFacts SearchFacts GridFacts HandlerFacts
  MainWindow.
Local Open Scope list_scope.

(** No index that the model makes points at the root. *)
Lemma index_not_root r c parent m :
  tree_ok (ModelPartList.rootItem m) ->
  internalPointer (ModelPartList.index r c parent m)
  ≠ Some (m_addr (ModelPartList.rootItem m)).
Proof.
  intros Hok. unfold ModelPartList.index.
  destruct (negb _); [done|].
  destruct (ModelPartList.deref _ m) as [P|] eqn:EP; [|done].
  cbn [mbind option_bind].
  destruct (child r P) as [ch|] eqn:Ech; [|done].
  apply deref_live in EP as [_ HP]. apply child_Some in Ech as [_ Hch].
  destruct (row_of_child _ P _ ch Hok HP Hch) as (_ & _ & _ & Hne).
  cbn [createIndex internalPointer]. congruence.
Qed.

(** *** Indices that lead to a part of the tree *)

Lemma live_spec index m :
  live index m = true
  <-> exists a, internalPointer index = Some a /\ a ∈ addrs (ModelPartList.rootItem m).
Proof.
  unfold live, ModelPartList.deref. rewrite bool_decide_eq_true.
  destruct (internalPointer index) as [a|]; cbn [mbind option_bind].
  - split.
    + intros [p Hp]. exists a. split; [done|].
      apply find_part_Some in Hp as [Hp <-]. apply elem_of_addrs. eauto.
    + intros (b & [= <-] & Hb). by apply find_part_is_Some.
  - split; [by intros [? ?]|by intros (? & ? & _)].
Qed.

Lemma usable_mono index m m' :
  (forall a, a ∈ addrs (ModelPartList.rootItem m) ->
             a ∈ addrs (ModelPartList.rootItem m')) ->
  usable index m = true -> usable index m' = true.
Proof.
  intros Hsub. unfold usable. intros [H|H]%orb_true_iff; apply orb_true_iff.
  - by left.
  - right. apply live_spec in H as (a & Ha & Hin). apply live_spec. eauto.
Qed.

Lemma usable_invalid m : usable QModelIndex_invalid m = true.
Proof. done. Qed.

Lemma live_part r c p m :
  p ∈ parts (ModelPartList.rootItem m) -> live (createIndex r c (m_addr p)) m = true.
Proof.
  intros Hp. apply live_spec. exists (m_addr p). split; [done|].
  apply elem_of_addrs. eauto.
Qed.

(** Every index that the model makes is usable. *)
Lemma usable_index r c parent m : usable (ModelPartList.index r c parent m) m = true.
Proof.
  unfold ModelPartList.index. destruct (negb _); [done|].
  destruct (ModelPartList.deref _ m) as [P|] eqn:EP; [|done].
  cbn [mbind option_bind].
  destruct (child r P) as [ch|] eqn:Ech; [|done].
  apply deref_live in EP as [_ HP]. apply child_Some in Ech as [_ Hch].
  unfold usable. apply orb_true_iff. right. apply live_part.
  eapply parts_trans; [exact HP|]. apply parts_child.
  by eapply list_elem_of_lookup_2.
Qed.

(** A usable index stands for a part of the tree: the root for the invalid
    index, else the part its pointer leads to. *)
Lemma usable_getItem index m :
  usable index m = true ->
  exists P,
    ModelPartList.getItem index m = Some (m_addr P) /\
    P ∈ parts (ModelPartList.rootItem m).
Proof.
  unfold usable, ModelPartList.getItem. destruct (isValid index); cbn [negb orb].
  - intros (a & Ha & Hin)%live_spec. apply elem_of_addrs in Hin as (P & HP & <-).
    by exists P.
  - intros _. exists (ModelPartList.rootItem m). split; [done|].
    apply elem_of_parts_self.
Qed.

Lemma addrs_update_appendChild a item n x :
  NoDup (addrs n) -> x ∈ addrs n -> x ∈ addrs (update_part a (appendChild item) n).
Proof.
  intros Hnd Hx. destruct (decide (a ∈ addrs n)) as [Ha|Ha].
  - apply elem_of_addrs in Ha as (p & Hp & Hpa).
    destruct (addrs_update a (appendChild item) p n Hnd Hp Hpa)
      as (l1 & l2 & E1 & E2).
    rewrite E1 in Hx. rewrite E2, addrs_appendChild.
    rewrite !elem_of_app in *. tauto.
  - by rewrite update_part_notin.
Qed.

Lemma addrs_applyPropertiesToPart part name v c upd w :
  NoDup (addrs (root w)) ->
  addrs (root (applyPropertiesToPart part name v c upd w)) = addrs (root w).
Proof.
  intros Hnd. destruct part as [a|]; [|done].
  rewrite applyPropertiesToPart_root by done.
  by apply addrs_update_fields, applied_fields.
Qed.

Lemma addrs_updateChildrenProperties part v c w :
  NoDup (addrs (root w)) ->
  addrs (root (updateChildrenProperties part v c w)) = addrs (root w).
Proof.
  intros Hnd. rewrite updateChildrenProperties_root by done.
  by apply write_all_NoDup.
Qed.

Lemma addrs_on_actionItemOptions_triggered dialog w :
  NoDup (addrs (root w)) ->
  addrs (root (on_actionItemOptions_triggered dialog w)) = addrs (root w).
Proof.
  intros Hnd. unfold on_actionItemOptions_triggered.
  destruct (isValid (currentIndex w)); cbn [negb]; [|done].
  destruct (internalPointer (currentIndex w)) as [a|]; [|done].
  destruct dialog as [[[name v] c]|]; [|done].
  rewrite root_emit.
  pose proof (addrs_applyPropertiesToPart (Some a) name v c true w Hnd) as E.
  destruct (find_part a _); [|done].
  rewrite addrs_updateChildrenProperties; [done|]. by rewrite E.
Qed.

(** *** The renderer never holds a prop twice *)

Lemma NoDup_renderer_updateRender w : NoDup (renderer (updateRender w)).
Proof.
  destruct (updateRender_adds w) as [ids ->]. rewrite add_handles_eq.
  cbn [emit with_rendering renderer renderer_RemoveAllViewProps].
  apply NoDup_add_ids. constructor.
Qed.

Lemma NoDup_renderer_AddActor id w :
  NoDup (renderer w) -> NoDup (renderer (renderer_AddActor id w)).
Proof.
  intros H. cbn [renderer_AddActor renderer]. case_decide; [done|].
  apply NoDup_app. split; [done|]. split; [|apply NoDup_singleton].
  intros x Hx Hx'%list_elem_of_singleton. by subst.
Qed.

Lemma NoDup_renderer_addFloor w :
  NoDup (renderer w) -> NoDup (renderer (addFloor w)).
Proof. intros H. unfold addFloor. by apply NoDup_renderer_AddActor. Qed.

Lemma NoDup_renderer_applyPropertiesToPart part name v c upd w :
  NoDup (renderer w) ->
  NoDup (renderer (applyPropertiesToPart part name v c upd w)).
Proof.
  intros H. destruct part as [a|]; [|done]. unfold applyPropertiesToPart.
  destruct (_ ≫= _); [apply NoDup_renderer_updateRender|done].
Qed.

Lemma NoDup_renderer_updateChildrenProperties part v c :
  forall w, NoDup (renderer w) ->
  NoDup (renderer (updateChildrenProperties part v c w)).
Proof.
  induction part as [a cs d pa vv cc r ac IH] using t_ind. intros w.
  cbn [updateChildrenProperties]. revert w.
  induction cs as [|x cs IHcs]; intros w H; [done|].
  apply Forall_cons in IH as [IHx IHr]. cbn [foldl].
  apply (IHcs IHr), IHx. by apply NoDup_renderer_applyPropertiesToPart.
Qed.

(** *** What the delete handler leaves *)

Lemma on_actionDeleteFile_triggered_cases yes w :
  (root (on_actionDeleteFile_triggered yes w) = root w \/
   exists p position,
     root (on_actionDeleteFile_triggered yes w)
     = update_part p (removeChild position) (root w)) /\
  (renderer (on_actionDeleteFile_triggered yes w) = renderer w \/
   exists ids,
     renderer (on_actionDeleteFile_triggered yes w)
     = remove_ids ids (renderer w)).
Proof.
  unfold on_actionDeleteFile_triggered.
  destruct (isValid (currentIndex w)); cbn [negb]; [|by split; left].
  destruct (ModelPartList.deref _ _) as [sel|]; [|by split; left].
  case_decide; [by split; left|]. destruct yes; [|by split; left].
  rewrite removeActorsRecursively_eq.
  set (w1 := emit _ w). set (w2 := with_rendering _ _ w1).
  unfold ModelPartList.removeRows.
  destruct (ModelPartList.deref
              (ModelPartList.getItem
                 (ModelPartList.parent (currentIndex w) (partList w2)) (partList w2))
              (partList w2)) as [P|].
  2:{ split; [by left|right]. by eexists. }
  destruct (_ || _).
  { split; [by left|right]. by eexists. }
  split; [right|right; by eexists].
  exists (m_addr P), (ix_row (currentIndex w)). done.
Qed.

(** *** Each action keeps the invariant *)

Lemma row_ok_load_worker fileName outcome a id :
  Forall row_ok (parts (load_worker fileName outcome a id)).
Proof.
  apply Forall_singleton. split; [by eexists _, _, _|].
  intros ac [= <-]. done.
Qed.

Lemma row_ok_new_group a groupName :
  Forall row_ok
    (parts (ModelPart.new a
              [QVariant_str groupName; QVariant_str "true";
               QVariant_str "255,255,255"] None)).
Proof. apply Forall_singleton. split; [by eexists _, _, _|]. by intros ac. Qed.

Lemma session_ok_new : session_ok MainWindow.new.
Proof.
  split.
  - exact state_ok_new.
  - split; [done|done|].
    set (l := parts (root MainWindow.new)). vm_compute in l. subst l.
    apply Forall_cons. split; [split; [by eexists _, _, _|by intros ac]|].
    apply Forall_singleton. split; [by eexists _, _, _|by intros ac].
  - by_evaluation.
  - done.
  - done.
Qed.

Lemma session_ok_select r c parent w :
  session_ok w ->
  session_ok (setCurrentIndex (ModelPartList.index r c parent (partList w)) w).
Proof.
  intros [Hs Hg Hr Hsel Hu]. split; try done.
  - by apply state_ok_setCurrentIndex.
  - cbn [setCurrentIndex currentIndex]. destruct Hg as [Ht _ _].
    rewrite <- Ht. apply index_not_root. by destruct Hs.
  - apply usable_index.
Qed.

Lemma session_ok_click w :
  live (currentIndex w) (partList w) = true ->
  session_ok w -> session_ok (handleTreeClicked w).
Proof.
  intros [p Hp]%bool_decide_eq_true [Hs Hg Hr Hsel Hu]. unfold handleTreeClicked.
  rewrite Hp. split; try done. by apply state_ok_emit.
Qed.

Lemma session_ok_load fileName outcome w :
  session_ok w -> session_ok (createModelPartFromFile fileName outcome w).
Proof.
  intros [Hs Hg Hr Hsel Hu]. pose proof Hs as [[Hnd _ _] _ _ _ _ _].
  destruct (usable_getItem _ _ Hu) as (P & HP & _).
  assert (root (createModelPartFromFile fileName outcome w)
          = update_part (m_addr P)
              (appendChild (load_worker fileName outcome (next_part w) (next_actor w)))
              (root w)) as Hroot.
  { unfold createModelPartFromFile. rewrite load_completion_root.
    cbn [currentIndex partList]. by rewrite HP. }
  split.
  - by apply state_ok_createModelPartFromFile.
  - rewrite Hroot.
    apply grid_ok_appendChild; [done|apply row_ok_load_worker].
  - unfold createModelPartFromFile, load_completion.
    cbn [emit renderer]. apply NoDup_renderer_addFloor, NoDup_renderer_updateRender.
  - by rewrite currentIndex_createModelPartFromFile.
  - rewrite currentIndex_createModelPartFromFile.
    revert Hu. apply usable_mono. intros x Hx.
    fold (root (createModelPartFromFile fileName outcome w)). rewrite Hroot.
    by apply addrs_update_appendChild.
Qed.

Lemma session_ok_group index groupName w :
  usable index (partList w) = true ->
  session_ok w -> session_ok (on_actionNewGroup_accepted index groupName w).
Proof.
  intros Hi [Hs Hg Hr Hsel Hu]. pose proof Hs as [[Hnd _ _] _ _ _ _ _].
  destruct (usable_getItem _ _ Hi) as (P & HP & _).
  pose proof (on_actionNewGroup_accepted_root index groupName w) as Hroot.
  rewrite HP in Hroot.
  split.
  - by apply state_ok_on_actionNewGroup_accepted.
  - rewrite Hroot.
    apply grid_ok_appendChild; [done|apply row_ok_new_group].
  - unfold on_actionNewGroup_accepted. cbn [emit renderer].
    by destruct (if isValid index then _ else _).
  - by rewrite currentIndex_on_actionNewGroup_accepted.
  - rewrite currentIndex_on_actionNewGroup_accepted.
    revert Hu. apply usable_mono. intros x Hx.
    fold (root (on_actionNewGroup_accepted index groupName w)). rewrite Hroot.
    by apply addrs_update_appendChild.
Qed.

Lemma grid_ok_options a name v c w :
  state_ok w -> grid_ok (root w) -> a ≠ 0%nat -> QColor_in_range c ->
  let w1 := applyPropertiesToPart (Some a) name v c true w in
  grid_ok (root w1) /\
  forall part, find_part a (root w1) = Some part ->
    grid_ok (root (updateChildrenProperties part v c w1)).
Proof.
  intros Hs Hg Ha Hc w1.
  pose proof Hs as [[Hnd _ _] _ _ _ _ _].
  assert (state_ok w1) as Hs1 by (by apply state_ok_applyPropertiesToPart).
  pose proof Hs1 as [[Hnd1 _ _] _ _ _ _ _].
  assert (grid_ok (root w1)) as Hg1.
  { unfold w1. rewrite applyPropertiesToPart_root by done.
    by apply grid_ok_applied. }
  split; [done|]. intros part Hpart.
  rewrite updateChildrenProperties_root by done.
  apply grid_ok_write_all; [done| |done].
  apply find_part_Some in Hpart as [Hin Hpa].
  destruct Hg1 as [Ht1 _ _].
  apply Forall_forall. intros b Hb.
  assert (b ∈ addrs part) as Hb'.
  { rewrite addrs_unfold. by apply list_elem_of_further. }
  apply elem_of_addrs in Hb' as (p & Hp & <-).
  rewrite <- Ht1. apply (below_root (root w1) p Hnd1).
  apply (proper_descendant _ part); [done| |done]. congruence.
Qed.

Lemma session_ok_options dialog w :
  (forall name v c, dialog = Some (name, v, c) -> QColor_in_range c) ->
  session_ok w -> session_ok (on_actionItemOptions_triggered dialog w).
Proof.
  intros Hd [Hs Hg Hr Hsel Hu]. pose proof Hs as [[Hnd _ _] _ _ _ _ _]. split.
  - by apply state_ok_on_actionItemOptions_triggered.
  - unfold on_actionItemOptions_triggered.
    destruct (isValid (currentIndex w)); cbn [negb]; [|done].
    destruct (internalPointer (currentIndex w)) as [a|] eqn:Ea; [|done].
    destruct dialog as [[[name v] c]|]; [|done].
    rewrite root_emit.
    assert (a ≠ 0%nat) as Ha by (intros ->; by apply Hsel).
    destruct (grid_ok_options a name v c w Hs Hg Ha (Hd _ _ _ eq_refl)) as [H1 H2].
    destruct (find_part a _) as [part|] eqn:E; [by apply H2|done].
  - unfold on_actionItemOptions_triggered.
    destruct (isValid (currentIndex w)); cbn [negb]; [|done].
    destruct (internalPointer (currentIndex w)) as [a|]; [|done].
    destruct dialog as [[[name v] c]|]; [|done].
    cbn [emit renderer].
    destruct (find_part a _).
    + by apply NoDup_renderer_updateChildrenProperties,
        NoDup_renderer_applyPropertiesToPart.
    + by apply NoDup_renderer_applyPropertiesToPart.
  - by rewrite currentIndex_on_actionItemOptions_triggered.
  - rewrite currentIndex_on_actionItemOptions_triggered.
    revert Hu. apply usable_mono. intros x Hx.
    fold (root (on_actionItemOptions_triggered dialog w)).
    by rewrite addrs_on_actionItemOptions_triggered.
Qed.

Lemma session_ok_delete yes index w :
  view_after_delete index (on_actionDeleteFile_triggered yes w) ->
  session_ok w ->
  session_ok (setCurrentIndex index (on_actionDeleteFile_triggered yes w)).
Proof.
  intros Hview [Hs Hg Hr Hsel Hu].
  destruct (on_actionDeleteFile_triggered_cases yes w) as [Hroot Hrend].
  pose proof (state_ok_on_actionDeleteFile_triggered yes w Hs) as Hs'.
  assert (grid_ok (root (on_actionDeleteFile_triggered yes w))) as Hg'.
  { destruct Hroot as [->|(p & pos & ->)]; [done|]. by apply grid_ok_removeChild. }
  split.
  - by apply state_ok_setCurrentIndex.
  - done.
  - cbn [setCurrentIndex renderer].
    destruct Hrend as [->|(ids & ->)]; [done|]. by apply NoDup_remove_ids.
  - cbn [setCurrentIndex currentIndex].
    destruct Hview as [[-> _]|(r & c & parent & ->)].
    + by rewrite currentIndex_on_actionDeleteFile_triggered.
    + destruct Hg' as [Ht _ _]. rewrite <- Ht. apply index_not_root.
      by destruct Hs'.
  - cbn [setCurrentIndex currentIndex partList].
    destruct Hview as [[_ H]|(r & c & parent & ->)]; [done|apply usable_index].
Qed.

Lemma usable_found_index o m :
  (forall p, o = Some p -> p ∈ parts (ModelPartList.rootItem m)) ->
  usable (found_index (ModelPartList.rootItem m) o) m = true.
Proof.
  intros Ho. destruct o as [p|]; [|done].
  cbn [found_index from_option]. unfold index_for. case_decide; [done|].
  unfold usable. apply orb_true_iff. right. apply live_part. by apply Ho.
Qed.

Lemma session_ok_search ok searchTerm w :
  session_ok w -> session_ok (on_actionSearchItem_triggered ok searchTerm w).
Proof.
  intros Hw. pose proof Hw as [Hs Hg Hr Hsel Hu].
  unfold on_actionSearchItem_triggered.
  destruct (ok && _); [|done].
  pose proof Hs as [Hok Hcols _ _ _ _]. pose proof Hok as [Hnd _ _].
  unfold root.
  rewrite (searchInTreeView_root searchTerm (partList w) Hok)
    by (fold (root w); lia).
  fold (root w).
  destruct (isValid _) eqn:Ev.
  - split; try done.
    + by apply state_ok_setCurrentIndex.
    + cbn [selectItemInTreeView setCurrentIndex currentIndex].
      destruct (first_match searchTerm (root w)) as [p|] eqn:Ep; [|done].
      destruct (first_match_Some _ _ _ Hnd Ep) as (Hp & Hne & _).
      cbn [found_index from_option]. unfold index_for.
      rewrite decide_False by done. cbn [createIndex internalPointer].
      destruct Hg as [Ht _ _]. congruence.
    + cbn [selectItemInTreeView setCurrentIndex currentIndex partList].
      apply usable_found_index. intros p Hp.
      by destruct (first_match_Some _ _ _ Hnd Hp) as (? & _).
  - split; try done. by apply state_ok_emit.
Qed.

(** The invariant holds throughout every session. *)
Lemma session_session_ok w : session w -> session_ok w.
Proof.
  induction 1 as [|w w' _ IH Hact].
  - exact session_ok_new.
  - destruct Hact.
    + by apply session_ok_select.
    + by apply session_ok_click.
    + by apply session_ok_load.
    + by apply session_ok_group.
    + by apply session_ok_options.
    + by apply session_ok_delete.
    + by apply session_ok_search.
Qed.

End SessionFacts.

(** * Further facts about the handlers *)

Module MoreHandlerFacts.
Import ModelPart Spec Notions TreeFacts RenderFacts ModelFacts WindowFacts
  InvariantFacts PartFacts IndexFacts SearchFacts GridFacts HandlerFacts
  SessionFacts MainWindow.
Local Open Scope list_scope.

(** *** Resync *)

Lemma updateRender_events_model w :
  NoDup (addrs (root w)) -> 0 < columnCount (root w) -> actor (root w) = None ->
  events (updateRender w)
  = events w ++ [RemoveAllViewProps] ++ map AddActor (handles (root w)) ++ [Render].
Proof.
  intros Hnd Hcols Hact. rewrite updateRender_spec by done.
  rewrite add_handles_eq.
  cbn [emit with_rendering events renderer_RemoveAllViewProps].
  rewrite (handles_unfold (root w)), Hact. cbn [app].
  by rewrite <- !app_assoc.
Qed.

Lemma updateRender_events w :
  state_ok w ->
  events (updateRender w)
  = events w ++ [RemoveAllViewProps] ++ map AddActor (handles (root w)) ++ [Render].
Proof.
  intros [[Hnd _ _] Hcols Hact _ _ _].
  apply updateRender_events_model; [done|rewrite Hcols; lia|done].
Qed.

(** *** Loading *)




(** *** Item Options *)

Lemma on_actionItemOptions_triggered_renderer name v c a sel w :
  state_ok w ->
  isValid (currentIndex w) = true -> internalPointer (currentIndex w) = Some a ->
  find_part a (root w) = Some sel ->
  renderer (on_actionItemOptions_triggered (Some (name, v, c)) w)
  = (if bool_decide (handles sel = []) then renderer w else handles (root w)) /\
  handles (root (on_actionItemOptions_triggered (Some (name, v, c)) w))
  = handles (root w).
Proof.
  intros Hok Hv Hptr Hsel. pose proof Hok as [[Hnd _ _] _ _ _ _ _].
  unfold on_actionItemOptions_triggered. rewrite Hv, Hptr. cbn [negb].
  rewrite root_emit. cbn [emit renderer].
  pose proof (applyPropertiesToPart_root a name v c true w Hnd) as Hroot.
  pose proof (applyPropertiesToPart_renderer a name v c true w Hok) as Hrend.
  pose proof (state_ok_applyPropertiesToPart (Some a) name v c true w Hok) as Hok1.
  set (w1 := applyPropertiesToPart (Some a) name v c true w) in *.
  pose proof Hok1 as [[Hnd1 _ _] _ _ _ _ _].
  apply find_part_Some in Hsel as Hsel'. destruct Hsel' as [Hin Ha].
  pose proof (applied_fields name v c true) as Hg.
  assert (find_part a (root w1) = Some (applied name v c true sel)) as Hfind.
  { rewrite Hroot. apply find_update_same; try done. by rewrite (proj1 (Hg sel)). }
  rewrite Hfind.
  assert (handles (root w1) = handles (root w)) as Hh1.
  { rewrite Hroot. by apply handles_applied. }
  assert (forall b, has_handle (root w1) b = has_handle (root w) b) as Hb1.
  { intros b. rewrite Hroot.
    apply has_handle_update; [done|done|apply applied_actor_id]. }
  split.
  - rewrite updateChildrenProperties_renderer by done.
    rewrite (existsb_ext (has_handle (root w1)) (has_handle (root w)) _ Hb1).
    rewrite Hh1, Hrend. destruct (Hg sel) as (_ & -> & _).
    pose proof (existsb_has_handle (root w) sel Hnd Hin) as He.
    rewrite addrs_unfold in He. cbn [existsb] in He. rewrite Ha in He.
    destruct (has_handle (root w) a); cbn [orb] in He;
      destruct (existsb (has_handle (root w)) (flat_map addrs (m_childItems sel)));
      destruct (bool_decide (handles sel = [])); done.
  - rewrite updateChildrenProperties_root by done.
    destruct (handles_write_all v c
                (flat_map addrs (m_childItems (applied name v c true sel)))
                (root w1) Hnd1) as [-> _].
    done.
Qed.

(** *** Unregistering *)

Lemma remove_trace_renders part :
  length (filter (fun e => e = Render) (remove_trace part)) = length (parts part).
Proof.
  induction part as [a cs d pa v c r ac IH] using t_ind.
  rewrite remove_trace_unfold, parts_unfold. cbn [m_childItems actor length].
  rewrite !filter_app, !length_app.
  assert (length (filter (fun e => e = Render)
                    match ac with
                    | Some a0 => [RemoveActor (actor_id a0)]
                    | None => []
                    end) = 0%nat) as ->.
  { by destruct ac. }
  assert (length (filter (fun e => e = Render) (flat_map remove_trace cs))
          = length (flat_map parts cs)) as ->.
  { induction IH as [|x l Hx _ IHl]; [done|]. cbn [flat_map].
    rewrite filter_app, !length_app. congruence. }
  rewrite filter_cons_True by done. rewrite filter_nil. cbn [length]. lia.
Qed.

Lemma statusMessages_remove_trace part : statusMessages (remove_trace part) = [].
Proof.
  pose proof (remove_trace_events part) as Hev. unfold statusMessages.
  induction Hev as [|e l He _ IH]; [done|].
  cbn [omap list_omap]. by destruct He as [->|[id ->]].
Qed.

(** *** Deleting *)

Lemma removeRows_row (i : nat) pidx P sel m :
  ModelPartList.deref (ModelPartList.getItem pidx m) m = Some P ->
  m_childItems P !! i = Some sel ->
  ModelPartList.removeRows (Z.of_nat i) 1 pidx m
  = (true,
     ModelPartList.mk
       (update_part (m_addr P) (removeChild (Z.of_nat i)) (ModelPartList.rootItem m)),
     [BeginRemoveRows pidx (Z.of_nat i) (Z.of_nat i + 1 - 1); EndRemoveRows]).
Proof.
  intros HP Hi. unfold ModelPartList.removeRows. rewrite HP.
  pose proof (lookup_lt_Some _ _ _ Hi) as Hlt. unfold childCount.
  replace ((Z.of_nat i <? 0)
           || (Z.of_nat (length (m_childItems P)) <? Z.of_nat i + 1))
    with false by lia.
  done.
Qed.

Lemma addrs_removeChild_row root P (i : nat) sel :
  NoDup (addrs root) -> P ∈ parts root -> m_childItems P !! i = Some sel ->
  exists l1 l2,
    addrs root = l1 ++ addrs sel ++ l2 /\
    addrs (update_part (m_addr P) (removeChild (Z.of_nat i)) root) = l1 ++ l2.
Proof.
  intros Hnd HP Hi. pose proof (lookup_lt_Some _ _ _ Hi) as Hlt.
  destruct (addrs_update (m_addr P) (removeChild (Z.of_nat i)) P root Hnd HP eq_refl)
    as (l1 & l2 & E1 & E2).
  rewrite removeChild_in_range in E2 by done.
  rewrite addrs_with_children in E2. rewrite (addrs_unfold P) in E1.
  rewrite <- (take_drop_middle _ _ _ Hi) in E1.
  rewrite delete_take_drop in E2.
  rewrite flat_map_app in E1, E2. cbn [flat_map] in E1.
  exists (l1 ++ m_addr P :: flat_map addrs (take i (m_childItems P))),
    (flat_map addrs (drop (S i) (m_childItems P)) ++ l2).
  rewrite E1, E2.
  split; rewrite <- !app_assoc; cbn [app]; by rewrite <- !app_assoc.
Qed.

(** The delete handler on a selection that names the row [i] of [P], where
    [sel] sits: what it returns. *)
Lemma on_actionDeleteFile_triggered_row (i : nat) P sel w :
  tree_ok (root w) -> P ∈ parts (root w) -> m_childItems P !! i = Some sel ->
  isValid (currentIndex w) = true ->
  internalPointer (currentIndex w) = Some (m_addr sel) ->
  ix_row (currentIndex w) = Z.of_nat i ->
  label sel ≠ "Model" ->
  on_actionDeleteFile_triggered true w
  = emit (StatusUpdateMessage "Item deleted successfully." 5000)
      (MainWindow.mk
         (ModelPartList.mk
            (update_part (m_addr P) (removeChild (Z.of_nat i)) (root w)))
         (currentIndex w)
         (remove_ids (handles sel) (renderer w))
         (events w
          ++ [MessageBoxQuestion "Confirm Deletion"
                "Are you sure you want to delete this item?"]
          ++ remove_trace sel
          ++ [BeginRemoveRows (index_for (root w) P) (Z.of_nat i)
                (Z.of_nat i + 1 - 1);
              EndRemoveRows])
         (next_part w) (next_actor w)).
Proof.
  intros Hok HP Hi Hv Hptr Hrow Hlabel. pose proof Hok as [Hnd _ _].
  assert (sel ∈ m_childItems P) as Hsel by (by eapply list_elem_of_lookup_2).
  assert (sel ∈ parts (root w)) as Hin.
  { eapply parts_trans; [exact HP|]. by apply parts_child. }
  unfold on_actionDeleteFile_triggered. rewrite Hv, Hptr. cbn [negb].
  rewrite (deref_part sel (partList w) Hnd Hin).
  rewrite decide_False by done.
  rewrite removeActorsRecursively_eq.
  set (w1 := emit _ w). set (w2 := with_rendering _ _ w1).
  change (partList w2) with (partList w).
  rewrite (parent_of_child (currentIndex w) P sel (partList w) Hok HP Hsel Hv Hptr).
  destruct (index_for_of_part P (partList w) Hok HP) as [[_ Hitem] _].
  rewrite Hrow.
  rewrite (removeRows_row i _ P sel (partList w) Hitem Hi).
  cbn [emit w2 with_rendering w1 currentIndex renderer events next_part next_actor].
  fold (root w). by rewrite <- !app_assoc.
Qed.

End MoreHandlerFacts.

(** * Facts about loading several files, new groups and text *)

Module LoadFacts.
Import ModelPart Spec Notions TreeFacts RenderFacts ModelFacts WindowFacts
  InvariantFacts PartFacts IndexFacts SearchFacts GridFacts HandlerFacts
  SessionFacts MoreHandlerFacts MainWindow.
Local Open Scope list_scope.

Lemma getItem_root_addr idx m m' :
  m_addr (ModelPartList.rootItem m') = m_addr (ModelPartList.rootItem m) ->
  ModelPartList.getItem idx m' = ModelPartList.getItem idx m.
Proof.
  intros H. unfold ModelPartList.getItem, ModelPartList.getRootItem. by rewrite H.
Qed.

(** One load under a parent that is in the tree. *)
Lemma createModelPartFromFile_parent fileName outcome P w :
  NoDup (addrs (root w)) ->
  ModelPartList.deref
    (ModelPartList.getItem (currentIndex w) (partList w)) (partList w) = Some P ->
  let w' := createModelPartFromFile fileName outcome w in
  let newPart := load_worker fileName outcome (next_part w) (next_actor w) in
  ModelPartList.deref
    (ModelPartList.getItem (currentIndex w') (partList w')) (partList w')
  = Some (appendChild newPart P) /\
  statusMessages (events w')
  = statusMessages (events w)
    ++ [(("Loaded STL file: " ++ fileName)%string, 5000)].
Proof.
  intros Hnd HP w' newPart. pose proof HP as HP'.
  apply deref_live in HP' as [Eitem HPin].
  assert (root w' = update_part (m_addr P) (appendChild newPart) (root w)) as Hroot.
  { unfold w', createModelPartFromFile. rewrite load_completion_root.
    cbn [currentIndex partList]. by rewrite Eitem. }
  split.
  - unfold w'. rewrite currentIndex_createModelPartFromFile. fold w'.
    rewrite (getItem_root_addr _ (partList w)).
    2:{ fold (root w') (root w). rewrite Hroot. by rewrite update_part_top_addr. }
    rewrite Eitem. cbn [ModelPartList.deref mbind option_bind].
    fold (root w'). rewrite Hroot. by apply find_update_same.
  - unfold w', createModelPartFromFile.
    by rewrite load_completion_statusMessages.
Qed.

(** Loads completed in a row under a parent that is in the tree. *)
Lemma completions_parent tasks :
  forall P w,
  state_ok w ->
  ModelPartList.deref
    (ModelPartList.getItem (currentIndex w) (partList w)) (partList w) = Some P ->
  let w' := completions tasks w in
  (exists P',
     ModelPartList.deref
       (ModelPartList.getItem (currentIndex w') (partList w')) (partList w')
     = Some P' /\
     m_addr P' = m_addr P /\
     childCount P' = childCount P + Z.of_nat (length tasks) /\
     take (length (m_childItems P)) (m_childItems P') = m_childItems P) /\
  statusMessages (events w')
  = statusMessages (events w)
    ++ map (fun fo => (("Loaded STL file: " ++ fst fo)%string, 5000)) tasks.
Proof.
  unfold completions.
  induction tasks as [|[f o] l IH]; intros P w Hok HP.
  - cbn [foldl map length]. rewrite app_nil_r. split; [|done]. exists P.
    split; [done|]. split; [done|]. split; [lia|]. apply firstn_all.
  - cbn [foldl fst snd].
    pose proof Hok as [[Hnd _ _] _ _ _ _ _].
    destruct (createModelPartFromFile_parent f o P w Hnd HP) as [HP1 Hs1].
    pose proof (state_ok_createModelPartFromFile f o w Hok) as Hok1.
    destruct (IH _ _ Hok1 HP1) as [(P' & HP' & Ha & Hc & Ht) Hs].
    split.
    + exists P'. split; [done|]. split; [done|]. split.
      * rewrite Hc. unfold childCount, appendChild.
        rewrite children_with_children, length_app. cbn [length]. lia.
      * unfold appendChild in Ht. rewrite children_with_children in Ht.
        rewrite length_app in Ht. cbn [length] in Ht.
        apply (f_equal (take (length (m_childItems P)))) in Ht.
        rewrite take_take in Ht.
        rewrite Nat.min_l in Ht by lia.
        rewrite take_app_length in Ht. done.
    + rewrite Hs, Hs1. cbn [map fst]. by rewrite <- app_assoc.
Qed.

Lemma state_ok_completions tasks :
  forall w, state_ok w -> state_ok (completions tasks w).
Proof.
  unfold completions.
  induction tasks as [|[f o] l IH]; intros w Hok; [done|].
  cbn [foldl fst snd]. apply IH. by apply state_ok_createModelPartFromFile.
Qed.

(** A new group under a parent that is in the tree. *)
Lemma on_actionNewGroup_accepted_parent index groupName P w :
  NoDup (addrs (root w)) ->
  ModelPartList.deref (ModelPartList.getItem index (partList w)) (partList w)
  = Some P ->
  let w' := on_actionNewGroup_accepted index groupName w in
  let newGroup :=
    ModelPart.new (next_part w)
      [QVariant_str groupName; QVariant_str "true"; QVariant_str "255,255,255"]
      None in
  find_part (m_addr P) (root w') = Some (appendChild newGroup P) /\
  renderer w' = renderer w /\
  events w' = events w ++ [LayoutChanged].
Proof.
  intros Hnd HP w' newGroup. apply deref_live in HP as [Eitem HPin].
  split; [|split].
  - unfold w'. rewrite on_actionNewGroup_accepted_root, Eitem.
    by apply find_update_same.
  - unfold w', on_actionNewGroup_accepted. cbn [emit renderer].
    by destruct (if isValid index then _ else _).
  - unfold w', on_actionNewGroup_accepted. cbn [emit events].
    by destruct (if isValid index then _ else _).
Qed.

(** *** Text *)

Lemma prefix_refl s : String.prefix s s = true.
Proof.
  induction s as [|c s IH]; [done|]. cbn [String.prefix].
  by destruct (Ascii.ascii_dec c c).
Qed.

Lemma occurs_in_refl s : occurs_in s s = true.
Proof. destruct s; cbn [occurs_in]; by rewrite prefix_refl. Qed.

End LoadFacts.

(** * Facts about the signals of [applyPropertiesToPart] *)

Module SignalFacts.
Import ModelPart Spec Notions TreeFacts RenderFacts ModelFacts WindowFacts
  InvariantFacts PartFacts IndexFacts SearchFacts GridFacts HandlerFacts
  SessionFacts MoreHandlerFacts LoadFacts MainWindow.
Local Open Scope list_scope.

(** The column after the last one has no index. *)
Lemma index_past_last_column r parent m :
  ModelPartList.index r (ModelPartList.columnCount parent m) parent m
  = QModelIndex_invalid.
Proof.
  unfold ModelPartList.index, ModelPartList.hasIndex.
  rewrite Z.ltb_irrefl, andb_false_r. by destruct (_ || _).
Qed.

(** The index of a row directly under the root points at the part [a]
    exactly when the part at [a] with that [row()] is a child of the
    root. *)
Lemma top_level_index a p m :
  tree_ok (ModelPartList.rootItem m) ->
  0 < columnCount (ModelPartList.rootItem m) ->
  find_part a (ModelPartList.rootItem m) = Some p ->
  let start :=
    ModelPartList.index (row (ModelPartList.rootItem m) p) 0 QModelIndex_invalid m in
  (parentItem p = Some (m_addr (ModelPartList.rootItem m)) ->
   isValid start = true /\ internalPointer start = Some a) /\
  (parentItem p ≠ Some (m_addr (ModelPartList.rootItem m)) ->
   internalPointer start ≠ Some a).
Proof.
  intros Hok Hcols Hp start. pose proof Hok as [Hnd Hpok Htop].
  apply find_part_Some in Hp as [Hin Ha]. subst a.
  pose proof (invalid_of_part m) as [_ Hitem].
  assert (isValid QModelIndex_invalid = true -> ix_column QModelIndex_invalid = 0)
    as Hcol by done.
  unfold start.
  rewrite (index_eq _ 0 _ (ModelPartList.rootItem m) m Hitem Hcol).
  split.
  - intros Hpar.
    assert (p ≠ ModelPartList.rootItem m) as Hne.
    { intros ->. unfold parentItem in Hpar. congruence. }
    destruct (position_ok _ p Hnd Hpok Hin Hne) as (P & i & HparP & HfP & Hi & Hrow & _).
    unfold parentItem in Hpar. rewrite Hpar in HparP.
    assert (P = ModelPartList.rootItem m) as ->.
    { injection HparP as HparP. rewrite <- HparP, find_part_self in HfP. congruence. }
    pose proof (lookup_lt_Some _ _ _ Hi) as Hlt. rewrite Hrow. unfold childCount.
    replace ((0 <=? Z.of_nat i)
             && (Z.of_nat i <? Z.of_nat (length (m_childItems (ModelPartList.rootItem m))))
             && (0 <=? 0) && (0 <? columnCount (ModelPartList.rootItem m)))
      with true by lia.
    rewrite Nat2Z.id, Hi. rewrite isValid_createIndex. split; [lia|done].
  - intros Hpar.
    destruct (_ && _); [|done].
    destruct (m_childItems (ModelPartList.rootItem m) !! _) as [ch|] eqn:Ech; [|done].
    cbn [createIndex internalPointer]. intros [= Heq].
    assert (ch ∈ m_childItems (ModelPartList.rootItem m)) as Hch
      by (by eapply list_elem_of_lookup_2).
    pose proof (parents_ok_child _ _ ch Hpok (elem_of_parts_self _) Hch) as Hpc.
    assert (ch = p) as ->.
    { apply (parts_addr_inj (ModelPartList.rootItem m)); try done.
      by apply parts_child. }
    by apply Hpar.
Qed.

(** What [applyPropertiesToPart] emits. *)
Lemma applyPropertiesToPart_events a p name v c upd w :
  state_ok w -> find_part a (root w) = Some p ->
  exists start,
    events (applyPropertiesToPart (Some a) name v c upd w)
    = events w ++ [DataChanged start QModelIndex_invalid]
      ++ (if bool_decide (is_Some (getActor p))
          then [RemoveAllViewProps] ++ map AddActor (handles (root w)) ++ [Render]
          else []) /\
    (parentItem p = Some (m_addr (root w)) ->
     isValid start = true /\ internalPointer start = Some a) /\
    (parentItem p ≠ Some (m_addr (root w)) -> internalPointer start ≠ Some a).
Proof.
  intros Hok Hp. pose proof Hok as [Htree Hcols _ _ _ _].
  pose proof Htree as [Hnd _ _].
  pose proof (applyPropertiesToPart_root a name v c upd w Hnd) as Hroot.
  apply state_ok_model in Hok as [Hm Hr].
  pose proof (model_ok_applied _ _ a name v c upd _ Hm) as Hm'.
  pose proof (applyProperties_fields name v c upd) as Hg.
  apply find_part_Some in Hp as Hp'. destruct Hp' as [Hin Ha].
  unfold applyPropertiesToPart in *.
  set (w1 := call a (applyProperties name v c upd) w) in *.
  rewrite index_past_last_column in Hroot |- *.
  set (start := ModelPartList.index (row_of a w1) 0 QModelIndex_invalid (partList w1))
    in *.
  set (w2 := emit _ w1) in *.
  assert (root w1 = update_part a (applyProperties name v c upd) (root w)) as Hroot1
    by done.
  assert (tree_ok (root w1)) as Htree1.
  { rewrite Hroot1. by apply tree_ok_fields. }
  assert (find_part a (root w1) = Some (applyProperties name v c upd p)) as Hfind1.
  { rewrite Hroot1. apply find_update_same; try done. by rewrite (proj1 (Hg p)). }
  assert (0 < columnCount (root w1)) as Hcols1.
  { rewrite Hroot1. unfold columnCount in *.
    rewrite update_part_unfold. case_decide.
    - fold (columnCount (applyProperties name v c upd (root w))).
      rewrite applyProperties_columnCount. unfold columnCount. lia.
    - cbn [with_children m_itemData]. lia. }
  assert (m_addr (root w1) = m_addr (root w)) as Haddr1.
  { rewrite Hroot1. by apply update_part_fields_addr. }
  exists start. split.
  - change (root w2) with (root w1) in Hroot |- *. rewrite Hfind1 in Hroot |- *.
    cbn [mbind option_bind] in Hroot |- *. unfold getActor in Hroot |- *.
    rewrite applyProperties_actor in Hroot |- *.
    destruct (actor p) as [ac|] eqn:Eac.
    + rewrite bool_decide_true by eauto.
      rewrite root_updateRender in Hroot.
      destruct Hm' as [[Hnd' _ _] Hcols' Hact' Hh' _ _]. rewrite <- Hroot in *.
      rewrite updateRender_events_model; try done; [|rewrite Hcols'; lia].
      rewrite Hroot, handles_applied by done.
      cbn [call emit events w2 w1]. by rewrite <- !app_assoc.
    + rewrite bool_decide_false by (by intros [? ?]).
      cbn [emit events w2 w1 call]. done.
  - destruct (top_level_index a (applyProperties name v c upd p) (partList w1)
                Htree1 Hcols1 Hfind1) as [H1 H2].
    assert (row_of a w1 = row (root w1) (applyProperties name v c upd p)) as Hrow.
    { unfold row_of. by rewrite Hfind1. }
    unfold start. rewrite Hrow. fold (root w1) in H1, H2.
    unfold parentItem in *. destruct (Hg p) as (_ & _ & Hpar).
    rewrite Hpar, Haddr1 in H1, H2. by split.
Qed.

End SignalFacts.

(** * Further properties of the code *)

Module Properties.
Import ModelPart Spec Notions TreeFacts RenderFacts ModelFacts WindowFacts
  InvariantFacts PartFacts IndexFacts SearchFacts GridFacts HandlerFacts
  SessionFacts MoreHandlerFacts LoadFacts SignalFacts MainWindow.
Local Open Scope list_scope.

(** ** ModelPart *)

(** X1.  [set] followed by [data]: a write to a column inside the range is
    read back from that column and from no other; a write outside the range
    is dropped; the number of columns never changes. *)
Theorem set_then_data k x n :
  columnCount (set k x n) = columnCount n /\
  forall j,
    data j (set k x n)
    = if (j =? k) && (0 <=? k) && (k <? columnCount n) then x else data j n.
Proof. split; [apply set_columnCount|]. intros j. apply data_set. Qed.

(** X2.  [removeChild] inside the range takes one child out and moves the
    later ones up by one row; outside the range it does nothing. *)
Theorem removeChild_shifts position n :
  (0 <= position < childCount n ->
   childCount (removeChild position n) = childCount n - 1 /\
   forall r,
     child r (removeChild position n)
     = if r <? position then child r n else child (r + 1) n) /\
  (position < 0 \/ childCount n <= position -> removeChild position n = n).
Proof.
  split; [|apply removeChild_out_of_range].
  intros Hp. pose proof (removeChild_children position n Hp) as Hcs.
  unfold childCount in *. rewrite Hcs. split.
  - rewrite length_delete by (apply lookup_lt_is_Some; lia). lia.
  - intros r. rewrite !child_lookup_Z, Hcs.
    destruct (r <? position) eqn:E1.
    + destruct (r <? 0) eqn:E2; [done|]. apply list_lookup_delete_lt. lia.
    + replace (r <? 0) with false by lia.
      replace (r + 1 <? 0) with false by lia.
      rewrite list_lookup_delete_ge by lia. f_equal. lia.
Qed.

(** X3.  [removeChildren(position, count)] does nothing for a count that is
    not positive; for a positive count it is defined exactly when the range
    [position .. position + count - 1] lies inside the child list, and then
    it leaves the children before and after the range.  Where it is defined
    it agrees with the loop of [removeChild] calls that [removeRows] runs. *)
Theorem removeChildren_range position count n :
  removeChildren position count n
  = (if count <=? 0 then Some n
     else if (0 <=? position) && (position + count <=? childCount n)
          then Some (with_children
                       (take (Z.to_nat position) (m_childItems n)
                        ++ drop (Z.to_nat (position + count)) (m_childItems n))
                       n)
          else None) /\
  forall n', removeChildren position count n = Some n' ->
    n' = Nat.iter (Z.to_nat count) (removeChild position) n.
Proof.
  assert (removeChildren position count n
          = if count <=? 0 then Some n
            else if (0 <=? position) && (position + count <=? childCount n)
                 then Some (with_children
                              (take (Z.to_nat position) (m_childItems n)
                               ++ drop (Z.to_nat (position + count))
                                    (m_childItems n)) n)
                 else None) as E.
  { unfold removeChildren. rewrite removeChildren_loop_spec.
    destruct (Z.to_nat count) as [|k] eqn:Ek.
    - replace (count <=? 0) with true by lia. done.
    - replace (count <=? 0) with false by lia.
      replace (Z.of_nat (S k)) with count by lia.
      destruct ((0 <=? position) && (position + count <=? childCount n)) eqn:Eg;
        [|done].
      repeat f_equal. lia. }
  split; [exact E|]. intros n'. rewrite E.
  destruct (count <=? 0) eqn:Ec.
  - intros [= <-]. replace (Z.to_nat count) with 0%nat by lia. done.
  - destruct ((0 <=? position) && (position + count <=? childCount n)) eqn:Eg;
      [|done].
    intros [= <-]. unfold childCount in Eg.
    replace position with (Z.of_nat (Z.to_nat position)) at 3 by lia.
    rewrite iter_removeChild by lia. repeat f_equal. lia.
Qed.

(** X4.  [appendChild] puts the item in the row after the last one with its
    parent pointer set to the part, whatever it was, and leaves the rows
    before as they were. *)
Theorem appendChild_last_row item n :
  childCount (appendChild item n) = childCount n + 1 /\
  child (childCount n) (appendChild item n)
  = Some (with_parent (Some (m_addr n)) item) /\
  forall r, r < childCount n -> child r (appendChild item n) = child r n.
Proof.
  unfold childCount, appendChild.
  split; [|split].
  - rewrite children_with_children, length_app. cbn [length]. lia.
  - rewrite child_lookup_Z, children_with_children.
    replace (Z.of_nat (length (m_childItems n)) <? 0) with false by lia.
    rewrite Nat2Z.id. apply list_lookup_middle. done.
  - intros r Hr. rewrite !child_lookup_Z, children_with_children.
    destruct (r <? 0) eqn:E; [done|]. apply lookup_app_l. lia.
Qed.


(** ** ModelPartList *)

(** X5.  [index(row, column, parent)] under a parent index that stands for
    a part [P] of the tree (the invalid index for the root, or an index in
    column 0): inside the bounds, that is for a row of [P] and a column of
    the header, the index is valid, carries the row, the column and a
    pointer to the child of [P] in that row, and [data] reads the cell of
    that child; outside the bounds the index is invalid. *)
Theorem index_in_bounds r c parent P m :
  NoDup (addrs (ModelPartList.rootItem m)) ->
  ModelPartList.deref (ModelPartList.getItem parent m) m = Some P ->
  (isValid parent = true -> ix_column parent = 0) ->
  (0 <= r < childCount P /\ 0 <= c < columnCount (ModelPartList.rootItem m) ->
   exists ch,
     child r P = Some ch /\
     ModelPartList.index r c parent m = createIndex r c (m_addr ch) /\
     isValid (ModelPartList.index r c parent m) = true /\
     ModelPartList.data (ModelPartList.index r c parent m) DisplayRole m
     = data c ch) /\
  (~ (0 <= r < childCount P /\ 0 <= c < columnCount (ModelPartList.rootItem m)) ->
   ModelPartList.index r c parent m = QModelIndex_invalid).
Proof.
  intros Hnd HP Hcol. rewrite (index_eq r c parent P m HP Hcol).
  apply deref_live in HP as [_ HPin]. split.
  - intros [Hr Hc].
    replace ((0 <=? r) && (r <? childCount P) && (0 <=? c)
             && (c <? columnCount (ModelPartList.rootItem m))) with true by lia.
    unfold childCount in Hr.
    destruct (m_childItems P !! Z.to_nat r) as [ch|] eqn:Ech.
    2:{ apply lookup_ge_None in Ech. lia. }
    exists ch. split; [apply child_Some; split; [lia|done]|].
    split; [done|]. rewrite isValid_createIndex.
    split; [lia|]. unfold ModelPartList.data.
    rewrite isValid_createIndex.
    replace ((0 <=? r) && (0 <=? c)) with true by lia.
    cbn [negb orb Z.eqb DisplayRole internalPointer createIndex ix_column].
    rewrite deref_part; [done|done|].
    eapply parts_trans; [exact HPin|]. apply parts_child.
    by eapply list_elem_of_lookup_2.
  - intros Hn.
    destruct ((0 <=? r) && (r <? childCount P) && (0 <=? c)
              && (c <? columnCount (ModelPartList.rootItem m))) eqn:E; [|done].
    exfalso. apply Hn. lia.
Qed.

Lemma index_in_bounds_witness :
  exists ch,
    child 1 (root w_loaded) = Some ch /\
    ModelPartList.index 1 0 QModelIndex_invalid (partList w_loaded)
    = createIndex 1 0 (m_addr ch) /\
    isValid (ModelPartList.index 1 0 QModelIndex_invalid (partList w_loaded))
    = true /\
    ModelPartList.data
      (ModelPartList.index 1 0 QModelIndex_invalid (partList w_loaded))
      DisplayRole (partList w_loaded)
    = data 0 ch.
Proof.
  apply (index_in_bounds 1 0 QModelIndex_invalid (root w_loaded)
           (partList w_loaded)).
  - by_evaluation.
  - by vm_compute.
  - by vm_compute.
  - by vm_compute.
Defined.

(** X6.  [parent] inverts [index]: for a part [P] of the tree with its
    index [p] (the invalid index for the root, else row of [P], column 0),
    the index made for a child of [P] in any column of the header has [p]
    as its parent, and the one made in column 0 is the index of the
    child. *)
Theorem parent_inverts_index r c P ch m :
  tree_ok (ModelPartList.rootItem m) ->
  P ∈ parts (ModelPartList.rootItem m) ->
  child r P = Some ch ->
  0 <= c < columnCount (ModelPartList.rootItem m) ->
  let p := index_for (ModelPartList.rootItem m) P in
  let idx := ModelPartList.index r c p m in
  idx = createIndex r c (m_addr ch) /\
  ModelPartList.parent idx m = p /\
  (c = 0 -> idx = index_for (ModelPartList.rootItem m) ch).
Proof.
  intros Hok HP Hch Hc p idx.
  destruct (index_for_of_part P m Hok HP) as [[Hrows Hitem] Hcol].
  apply child_Some in Hch as [Hr Hch].
  pose proof (lookup_lt_Some _ _ _ Hch) as Hlt.
  assert (idx = createIndex r c (m_addr ch)) as Hidx.
  { unfold idx, p. rewrite (index_eq r c _ P m Hitem Hcol). unfold childCount.
    replace ((0 <=? r) && (r <? Z.of_nat (length (m_childItems P))) && (0 <=? c)
             && (c <? columnCount (ModelPartList.rootItem m))) with true by lia.
    by rewrite Hch. }
  destruct (row_of_child _ P (Z.to_nat r) ch Hok HP Hch) as (Hrow & _ & _ & Hne).
  split; [done|]. split.
  - rewrite Hidx. apply (parent_of_child _ P ch); [done|done| |  |done].
    + by eapply list_elem_of_lookup_2.
    + rewrite isValid_createIndex. lia.
  - intros ->. rewrite Hidx. unfold index_for.
    rewrite decide_False by done. rewrite Hrow. f_equal. lia.
Qed.

Lemma parent_inverts_index_witness :
  ModelPartList.parent
    (ModelPartList.index 0 1
       (index_for (root w_group) w_group_model) (partList w_group))
    (partList w_group)
  = index_for (root w_group) w_group_model.
Proof.
  apply (parent_inverts_index 0 1 w_group_model w_group_assembly (partList w_group)).
  - split.
    + by_evaluation.
    + vm_compute. repeat constructor.
    + by vm_compute.
  - vm_compute. repeat constructor.
  - by vm_compute.
  - by vm_compute.
Defined.

(** X7.  Removing the row that [appendChild] has just returned restores the
    model: for a parent index that is invalid or in column 0 and stands
    for a part of the tree, [removeRows(row, 1, parent)] with the row of the
    returned index succeeds and gives back the model as it was before the
    insertion. *)
Theorem appendChild_then_removeRows p d a P m :
  NoDup (addrs (ModelPartList.rootItem m)) ->
  ModelPartList.deref (ModelPartList.getItem p m) m = Some P ->
  (isValid p = true -> ix_column p = 0) ->
  let '(idx, m', _) := ModelPartList.appendChild p d a m in
  ModelPartList.removeRows (ix_row idx) 1 p m'
  = (true, m,
     [BeginRemoveRows p (childCount P) (childCount P + 1 - 1); EndRemoveRows]).
Proof.
  intros Hnd HP Hcol. unfold ModelPartList.appendChild.
  pose proof HP as HP'. apply deref_live in HP' as [Eitem HPin].
  rewrite Eitem.
  set (childPart := ModelPart.new a d (Some (m_addr P))).
  set (root' := update_part (m_addr P) (appendChild childPart)
                  (ModelPartList.rootItem m)).
  set (m' := ModelPartList.mk root').
  assert (find_part (m_addr P) root' = Some (appendChild childPart P)) as Hfind.
  { by apply find_update_same. }
  assert (ModelPartList.getItem p m' = Some (m_addr P)) as Eitem'.
  { unfold ModelPartList.getItem, ModelPartList.getRootItem in *.
    cbn [m' ModelPartList.rootItem]. unfold root'.
    by rewrite update_part_top_addr. }
  assert (ModelPartList.rowCount p m' = childCount P + 1) as Hrows.
  { unfold ModelPartList.rowCount. rewrite Eitem'.
    cbn [ModelPartList.deref mbind option_bind m' ModelPartList.rootItem].
    rewrite Hfind.
    assert (isValid p && negb (ix_column p =? 0) = false) as ->.
    { destruct (isValid p); [|done]. rewrite Hcol by done. done. }
    unfold childCount, appendChild. rewrite children_with_children, length_app.
    cbn [length]. lia. }
  rewrite Hrows. cbn [createIndex ix_row].
  replace (childCount P + 1 - 1) with (childCount P) by lia.
  unfold ModelPartList.removeRows. rewrite Eitem'.
  cbn [ModelPartList.deref mbind option_bind m' ModelPartList.rootItem].
  rewrite Hfind.
  assert (childCount (appendChild childPart P) = childCount P + 1) as Hcount.
  { unfold childCount, appendChild. rewrite children_with_children, length_app.
    cbn [length]. lia. }
  rewrite Hcount.
  replace ((childCount P <? 0) || (childCount P + 1 <? childCount P + 1))
    with false by (unfold childCount; lia).
  replace (childCount P + 1 - 1) with (childCount P) by lia.
  f_equal. f_equal. destruct m as [root0]. f_equal.
  cbn [ModelPartList.rootItem] in *. unfold root'.
  change (m_addr (appendChild childPart P)) with (m_addr P).
  rewrite update_part_compose by done.
  rewrite <- (update_part_id (m_addr P) root0) at 2.
  apply update_part_ext. intros q Hq Hqa.
  rewrite (parts_addr_inj root0 q P Hnd Hq HPin Hqa).
  change (Z.to_nat 1) with 1%nat. cbn [Nat.iter nat_rect compose].
  apply removeChild_appendChild.
Qed.

Lemma appendChild_then_removeRows_witness :
  let '(idx, m', _) :=
    ModelPartList.appendChild QModelIndex_invalid [QVariant_str "Wheel"] 5%nat
      (partList w_loaded) in
  ModelPartList.removeRows (ix_row idx) 1 QModelIndex_invalid m'
  = (true, partList w_loaded,
     [BeginRemoveRows QModelIndex_invalid (childCount (root w_loaded))
        (childCount (root w_loaded) + 1 - 1); EndRemoveRows]).
Proof.
  apply (appendChild_then_removeRows QModelIndex_invalid [QVariant_str "Wheel"]
           5%nat (root w_loaded) (partList w_loaded)).
  - by_evaluation.
  - by vm_compute.
  - by vm_compute.
Defined.


(** ** Some sessions *)

Lemma session_w_loaded : session w_loaded.
Proof.
  apply (session_action MainWindow.new); [apply session_new|by apply act_load].
Qed.

Lemma session_w_selected : session w_selected.
Proof. apply (session_action w_loaded); [apply session_w_loaded|apply act_select]. Qed.

Lemma session_w_hidden : session w_hidden.
Proof.
  apply (session_action w_selected); [apply session_w_selected|].
  apply act_options; [by vm_compute|].
  intros name v c [= _ _ <-]. unfold QColor_in_range. cbn. lia.
Qed.

Lemma session_w_group : session w_group.
Proof.
  eapply session_action; [|apply act_group; by vm_compute].
  apply (session_action MainWindow.new); [apply session_new|apply act_select].
Qed.

(** ** Search *)

(** X8.  For ASCII text (the search string and the labels below the root):
    [searchInTreeView] from the root returns the index (row, column 0,
    pointer) of the first part below the root, in depth-first pre-order,
    whose label contains the search string in any letter case, and the
    invalid index when no part below the root has such a label.  The
    header labels of the root are not searched. *)
Theorem searchInTreeView_finds_first searchString m :
  is_ascii searchString = true -> ascii_rows (ModelPartList.rootItem m) = true ->
  tree_ok (ModelPartList.rootItem m) ->
  0 < columnCount (ModelPartList.rootItem m) ->
  let res :=
    searchInTreeView (length (parts (ModelPartList.rootItem m))) searchString
      QModelIndex_invalid m in
  (forall l1 p l2,
     flat_map parts (m_childItems (ModelPartList.rootItem m)) = l1 ++ p :: l2 ->
     Forall (fun q => matches searchString q = false) l1 ->
     matches searchString p = true ->
     res = createIndex (row (ModelPartList.rootItem m) p) 0 (m_addr p) /\
     isValid res = true) /\
  (Forall (fun q => matches searchString q = false)
     (flat_map parts (m_childItems (ModelPartList.rootItem m))) ->
   res = QModelIndex_invalid).
Proof.
  intros _ _ Hok Hcols res. unfold res. rewrite searchInTreeView_root by done.
  pose proof Hok as [Hnd _ _]. unfold first_match. split.
  - intros l1 p l2 Hl Hl1 Hp. rewrite Hl, lfirst_app.
    apply lfirst_None in Hl1. rewrite Hl1, lfirst_cons, Hp.
    cbn [found_index from_option].
    assert (p ∈ flat_map parts (m_childItems (ModelPartList.rootItem m))) as Hin.
    { rewrite Hl. apply elem_of_app. right. apply list_elem_of_here. }
    destruct (below_root _ p Hnd Hin) as [Hpr Hne].
    by destruct (index_for_valid _ p Hok Hpr Hne) as (-> & _ & ->).
  - intros Hall. apply lfirst_None in Hall. by rewrite Hall.
Qed.

Lemma searchInTreeView_finds_first_witness :
  searchInTreeView (length (parts (root w_loaded))) "CUBE" QModelIndex_invalid
    (partList w_loaded)
  = createIndex 1 0 2%nat.
Proof.
  assert (tree_ok (root w_loaded)) as Hok.
  { split; [by_evaluation|vm_compute; repeat constructor|reflexivity]. }
  assert (is_ascii "CUBE" = true) as Hs by reflexivity.
  assert (ascii_rows (root w_loaded) = true) as Hl by (by vm_compute).
  destruct (searchInTreeView_finds_first "CUBE" (partList w_loaded) Hs Hl Hok)
    as [H _].
  { by vm_compute. }
  destruct (H [default w_selected_part (child 0 (root w_loaded))] w_selected_part [])
    as [-> _].
  - reflexivity.
  - by repeat constructor.
  - reflexivity.
  - reflexivity.
Defined.

(** X9.  For ASCII text (the term and the labels below the root): the
    search handler touches neither the model nor the renderer.  With the
    dialog cancelled or an empty term it does nothing.  Otherwise,
    when some part below the root matches, it makes the index of the first
    such part the current index of the view, and that part is in the tree,
    is not the root and has a label that contains the term; when none
    matches, all it does is show the box "Item not found.". *)
Theorem search_selects_or_reports ok searchTerm w :
  is_ascii searchTerm = true -> ascii_rows (root w) = true ->
  state_ok w ->
  let w' := on_actionSearchItem_triggered ok searchTerm w in
  partList w' = partList w /\ renderer w' = renderer w /\
  (ok = false \/ searchTerm = "" -> w' = w) /\
  (ok = true -> searchTerm ≠ "" ->
   match first_match searchTerm (root w) with
   | Some p =>
       w' = setCurrentIndex (createIndex (row (root w) p) 0 (m_addr p)) w /\
       find_part (m_addr p) (root w) = Some p /\
       m_addr p ≠ m_addr (root w) /\
       matches searchTerm p = true
   | None =>
       w' = emit (MessageBoxInformation "Search Result" "Item not found.") w
   end).
Proof.
  intros _ _ Hs w'. pose proof Hs as [Hok Hcols _ _ _ _].
  pose proof Hok as [Hnd _ _].
  assert (0 < columnCount (ModelPartList.rootItem (partList w))) as Hcols'.
  { fold (root w). lia. }
  pose proof (searchInTreeView_root searchTerm (partList w) Hok Hcols') as Hres.
  fold (root w) in Hres.
  assert (isValid (found_index (root w) (first_match searchTerm (root w)))
          = bool_decide (is_Some (first_match searchTerm (root w)))) as Hvalid.
  { apply isValid_found_index; [done|]. intros p Hp.
    by destruct (first_match_Some _ _ _ Hnd Hp) as (? & ? & _). }
  unfold w', on_actionSearchItem_triggered. rewrite Hres, Hvalid.
  split; [|split; [|split]].
  - destruct (ok && _); [|done]. by destruct (bool_decide _).
  - destruct (ok && _); [|done]. by destruct (bool_decide _).
  - intros [->| ->]; [done|]. by rewrite andb_false_r.
  - intros -> Hne. apply String.eqb_neq in Hne. rewrite Hne. cbn [andb negb].
    destruct (first_match searchTerm (root w)) as [p|] eqn:Ep.
    + rewrite bool_decide_true by eauto.
      destruct (first_match_Some _ _ _ Hnd Ep) as (Hp & Hnep & Hm).
      cbn [found_index from_option].
      destruct (index_for_valid _ p Hok Hp Hnep) as (-> & _ & _).
      split; [done|]. split; [by apply find_part_NoDup|done].
    + by rewrite bool_decide_false by (by intros [? ?]).
Qed.

Lemma search_selects_or_reports_witness :
  currentIndex (on_actionSearchItem_triggered true "cube" w_loaded)
  = createIndex 1 0 2%nat /\
  on_actionSearchItem_triggered true "wheel" w_loaded
  = emit (MessageBoxInformation "Search Result" "Item not found.") w_loaded.
Proof.
  pose proof (session_session_ok _ session_w_loaded) as [Hs _ _ _ _].
  assert (ascii_rows (root w_loaded) = true) as Hl by (by vm_compute).
  split.
  - destruct (search_selects_or_reports true "cube" w_loaded eq_refl Hl Hs)
      as (_ & _ & _ & H).
    specialize (H eq_refl). assert ("cube" ≠ "") as Hne by done.
    specialize (H Hne).
    assert (first_match "cube" (root w_loaded) = Some w_selected_part) as E
      by reflexivity.
    rewrite E in H. destruct H as [-> _]. reflexivity.
  - destruct (search_selects_or_reports true "wheel" w_loaded eq_refl Hl Hs)
      as (_ & _ & _ & H).
    specialize (H eq_refl). assert ("wheel" ≠ "") as Hne by done.
    specialize (H Hne).
    assert (first_match "wheel" (root w_loaded) = None) as E by reflexivity.
    by rewrite E in H.
Defined.

(** X10.  For ASCII text (the term and the labels below the root): a part
    below the root is found by its label typed in any letter case.  A
    search for a term that is not empty and equals the label of some part
    below the root up to the case of the letters selects a part whose
    label contains the term. *)
Theorem search_finds_by_label searchTerm p w :
  is_ascii searchTerm = true -> ascii_rows (root w) = true ->
  state_ok w -> p ∈ parts (root w) -> p ≠ root w ->
  searchTerm ≠ "" -> toLower searchTerm = toLower (label p) ->
  exists q,
    currentIndex (on_actionSearchItem_triggered true searchTerm w)
    = createIndex (row (root w) q) 0 (m_addr q) /\
    find_part (m_addr q) (root w) = Some q /\
    matches searchTerm q = true.
Proof.
  intros _ _ Hs Hp Hne Hterm Hlow. pose proof Hs as [Hok Hcols _ _ _ _].
  pose proof Hok as [Hnd _ _].
  assert (matches searchTerm p = true) as Hm.
  { unfold matches, QString_contains. rewrite Hlow. apply occurs_in_refl. }
  assert (p ∈ flat_map parts (m_childItems (root w))) as Hin.
  { rewrite parts_unfold in Hp. by apply elem_of_cons in Hp as [->|Hp]. }
  destruct (first_match searchTerm (root w)) as [q|] eqn:Eq.
  2:{ apply lfirst_None in Eq. rewrite Forall_forall in Eq.
      specialize (Eq p Hin). congruence. }
  destruct (first_match_Some _ _ _ Hnd Eq) as (Hq & Hneq & Hmq).
  exists q. unfold on_actionSearchItem_triggered.
  apply String.eqb_neq in Hterm. rewrite Hterm. cbn [andb negb].
  assert (0 < columnCount (ModelPartList.rootItem (partList w))) as Hcols'.
  { fold (root w). lia. }
  pose proof (searchInTreeView_root searchTerm (partList w) Hok Hcols') as Hres.
  fold (root w) in Hres. rewrite Hres, Eq. cbn [found_index from_option].
  destruct (index_for_valid _ q Hok Hq Hneq) as (E & _ & Hv).
  rewrite Hv, E.
  split; [done|]. split; [by apply find_part_NoDup|done].
Qed.

Lemma search_finds_by_label_witness :
  exists q,
    currentIndex (on_actionSearchItem_triggered true "Cube.STL" w_loaded)
    = createIndex (row (root w_loaded) q) 0 (m_addr q) /\
    find_part (m_addr q) (root w_loaded) = Some q /\
    matches "Cube.STL" q = true.
Proof.
  apply (search_finds_by_label "Cube.STL" w_selected_part w_loaded).
  - reflexivity.
  - by vm_compute.
  - by destruct (session_session_ok _ session_w_loaded).
  - vm_compute. repeat constructor.
  - discriminate.
  - discriminate.
  - reflexivity.
Defined.

(** X11.  Selecting a cell and clicking: after the view has made the index
    of row [r] and a column of the header under a parent index its current
    index, [handleTreeClicked] shows the label of the part in that row in
    the status bar, and that is all it does. *)
Theorem click_reports_selected_row r c parent P ch w :
  NoDup (addrs (root w)) ->
  ModelPartList.deref (ModelPartList.getItem parent (partList w)) (partList w)
  = Some P ->
  (isValid parent = true -> ix_column parent = 0) ->
  child r P = Some ch -> 0 <= c < columnCount (root w) ->
  let w1 := setCurrentIndex (ModelPartList.index r c parent (partList w)) w in
  handleTreeClicked w1
  = emit (StatusUpdateMessage ("The selected item is: " ++ label ch) 2000) w1.
Proof.
  intros Hnd HP Hcol Hch Hc w1. unfold handleTreeClicked.
  cbn [w1 setCurrentIndex currentIndex partList].
  rewrite (index_eq r c parent P (partList w) HP Hcol).
  apply child_Some in Hch as [Hr Hch].
  pose proof (lookup_lt_Some _ _ _ Hch) as Hlt. unfold childCount.
  fold (root w).
  replace ((0 <=? r) && (r <? Z.of_nat (length (m_childItems P))) && (0 <=? c)
           && (c <? columnCount (root w))) with true by lia.
  rewrite Hch. cbn [createIndex internalPointer].
  apply deref_live in HP as [_ HPin].
  rewrite deref_part; [done|done|].
  eapply parts_trans; [exact HPin|]. apply parts_child.
  by eapply list_elem_of_lookup_2.
Qed.

Lemma click_reports_selected_row_witness :
  handleTreeClicked w_selected
  = emit (StatusUpdateMessage "The selected item is: cube.stl" 2000) w_selected.
Proof.
  apply (click_reports_selected_row 1 0 QModelIndex_invalid (root w_loaded)
           w_selected_part w_loaded).
  - by_evaluation.
  - reflexivity.
  - discriminate.
  - reflexivity.
  - by vm_compute.
Defined.


(** ** Loading and grouping *)

(** X12.  Open File starts one load for every name of the dialog that is
    not empty and none for the empty ones, and leaves the window as it is.
    When the completions of these loads run on the main thread one after
    another, in whatever order the workers finish ([tasks]) and with no
    other event handled between them, under a selection that stands for a
    part of the tree (or none, for the root): that part has afterwards as
    many more children as there were names that are not empty, its former
    children are the first rows as before, and one status message "Loaded
    STL file: ..." per load has been emitted, in the order of completion,
    whatever the reader made of the files. *)
Theorem open_file_completions_in_a_row fileNames tasks P w :
  state_ok w ->
  ModelPartList.deref
    (ModelPartList.getItem (currentIndex w) (partList w)) (partList w) = Some P ->
  map fst tasks ≡ₚ on_actionOpen_File_triggered fileNames ->
  let w' := completions tasks w in
  (exists P',
     find_part (m_addr P) (root w') = Some P' /\
     childCount P'
     = childCount P
       + Z.of_nat (length (filter (fun fileName => fileName ≠ "") fileNames)) /\
     take (length (m_childItems P)) (m_childItems P') = m_childItems P) /\
  Forall (fun fo => fst fo ≠ "") tasks /\
  statusMessages (events w')
  = statusMessages (events w)
    ++ map (fun fo => (("Loaded STL file: " ++ fst fo)%string, 5000)) tasks.
Proof.
  intros Hok HP Hperm w'.
  destruct (completions_parent tasks P w Hok HP)
    as [(P' & HP' & Ha & Hc & Ht) Hs].
  split; [|split; [|done]].
  - exists P'. split; [|split; [|done]].
    + apply deref_live in HP' as [_ HP'in]. rewrite <- Ha.
      apply find_part_NoDup; [|done].
      by destruct (state_ok_completions tasks w Hok) as [[? _ _] _ _ _ _ _].
    + rewrite Hc. apply Permutation_length in Hperm.
      rewrite length_map in Hperm. unfold on_actionOpen_File_triggered in Hperm.
      by rewrite Hperm.
  - apply Forall_forall. intros fo Hfo.
    assert (fst fo ∈ on_actionOpen_File_triggered fileNames) as Hin.
    { rewrite <- Hperm. by apply list_elem_of_fmap_2. }
    unfold on_actionOpen_File_triggered in Hin.
    by apply list_elem_of_filter in Hin as [? _].
Qed.

Lemma open_file_completions_in_a_row_witness :
  let w' := completions [("b.stl", ParseFailed); ("a.stl", ParseOk 1)] w_selected in
  on_actionOpen_File_triggered ["a.stl"; ""; "b.stl"] = ["a.stl"; "b.stl"] /\
  exists P',
    find_part 2%nat (root w') = Some P' /\
    childCount P' = 2 /\
    statusMessages (events w')
    = statusMessages (events w_selected)
      ++ [("Loaded STL file: b.stl", 5000); ("Loaded STL file: a.stl", 5000)].
Proof.
  split; [reflexivity|].
  destruct (open_file_completions_in_a_row ["a.stl"; ""; "b.stl"]
              [("b.stl", ParseFailed); ("a.stl", ParseOk 1)]
              w_selected_part w_selected)
    as [(P' & HP' & Hc & _) [_ Hs]].
  - by destruct (session_session_ok _ session_w_selected).
  - reflexivity.
  - change (["b.stl"; "a.stl"] ≡ₚ ["a.stl"; "b.stl"]). apply Permutation_swap.
  - exists P'. split; [exact HP'|]. split; [exact Hc|exact Hs].
Defined.





(** X15.  A new group becomes the last child of the part that the captured
    index stands for (of the root for the invalid index); the renderer is
    left alone, and the only signal is [layoutChanged]: no row insertion is
    announced to the view. *)
Theorem new_group_is_appended index groupName P w :
  NoDup (addrs (root w)) ->
  ModelPartList.deref (ModelPartList.getItem index (partList w)) (partList w)
  = Some P ->
  let w' := on_actionNewGroup_accepted index groupName w in
  (exists P' g,
     find_part (m_addr P) (root w') = Some P' /\
     m_childItems P' = m_childItems P ++ [g] /\
     m_addr g = next_part w /\ label g = groupName /\
     parentItem g = Some (m_addr P) /\ m_childItems g = [] /\
     getActor g = None) /\
  renderer w' = renderer w /\
  events w' = events w ++ [LayoutChanged].
Proof.
  intros Hnd HP w'.
  destruct (on_actionNewGroup_accepted_parent index groupName P w Hnd HP)
    as (Hfind & Hr & He).
  split; [|by split]. eexists _, _. split; [exact Hfind|]. done.
Qed.

Lemma new_group_is_appended_witness :
  (exists P' g,
     find_part 1%nat (root w_group) = Some P' /\
     m_childItems P' = [] ++ [g] /\
     m_addr g = 2%nat /\ label g = "Assembly" /\
     parentItem g = Some 1%nat /\ m_childItems g = [] /\
     getActor g = None) /\
  renderer w_group = [0%nat] /\
  events w_group = [AddActor 0%nat] ++ [LayoutChanged].
Proof.
  apply (new_group_is_appended
           (ModelPartList.index 0 0 QModelIndex_invalid (partList MainWindow.new))
           "Assembly"
           (default (root MainWindow.new) (child 0 (root MainWindow.new)))
           (setCurrentIndex
              (ModelPartList.index 0 0 QModelIndex_invalid
                 (partList MainWindow.new))
              MainWindow.new)).
  - by_evaluation.
  - reflexivity.
Defined.

(** ** Item Options and the renderer *)

(** X16.  Item Options accepted on a part of the tree: when the part and
    the parts below it have no render handle the renderer is left as it
    is; when one of them has a handle the renderer ends up holding exactly
    the render handles of the tree, so the floor is no longer in it.  The
    handles of the tree are the same as before. *)
Theorem item_options_resyncs name v c a sel w :
  state_ok w ->
  isValid (currentIndex w) = true -> internalPointer (currentIndex w) = Some a ->
  find_part a (root w) = Some sel ->
  let w' := on_actionItemOptions_triggered (Some (name, v, c)) w in
  handles (root w') = handles (root w) /\
  (handles sel = [] -> renderer w' = renderer w) /\
  (handles sel ≠ [] -> renderer w' = handles (root w')).
Proof.
  intros Hok Hv Hptr Hsel w'.
  destruct (on_actionItemOptions_triggered_renderer name v c a sel w Hok Hv Hptr Hsel)
    as [Hr Hh].
  fold w' in Hr, Hh. split; [done|]. rewrite Hr, Hh. split.
  - intros E. by rewrite bool_decide_true.
  - intros E. by rewrite bool_decide_false.
Qed.

Lemma item_options_resyncs_witness :
  renderer w_selected = [1%nat; 2%nat] /\
  renderer w_hidden = [1%nat] /\
  handles (root w_hidden) = [1%nat].
Proof.
  destruct (item_options_resyncs "cube.stl" false (mkQColor 255 255 255) 2%nat
              w_selected_part w_selected) as (Hh & _ & Hr).
  - by destruct (session_session_ok _ session_w_selected).
  - reflexivity.
  - reflexivity.
  - reflexivity.
  - split; [reflexivity|]. split; [|exact Hh].
    assert (handles w_selected_part ≠ []) as Hne by discriminate.
    exact (eq_trans (Hr Hne) Hh).
Defined.

(** X17.  What [updateRender] tells the renderer: it clears the view props,
    adds the render handle of each part of the tree in depth-first
    pre-order, parts with the visibility flag off included, and requests
    one render; the model is left as it is. *)
Theorem updateRender_clears_then_rebuilds w :
  state_ok w ->
  events (updateRender w)
  = events w ++ [RemoveAllViewProps] ++ map AddActor (handles (root w)) ++ [Render] /\
  partList (updateRender w) = partList w.
Proof. intros Hok. split; [by apply updateRender_events|apply updateRender_partList]. Qed.

Lemma updateRender_clears_then_rebuilds_witness :
  events (updateRender w_hidden)
  = events w_hidden ++ [RemoveAllViewProps; AddActor 1%nat; Render].
Proof.
  destruct (updateRender_clears_then_rebuilds w_hidden) as [-> _].
  - by destruct (session_session_ok _ session_w_hidden).
  - reflexivity.
Defined.

(** ** Deleting *)

(** X18.  [removeActorsRecursively] takes out of the renderer the render
    handles of the part and of every part below it and nothing else, keeps
    the order of what stays, leaves the model alone and requests one
    render for every part of the subtree. *)
Theorem removeActorsRecursively_exact part w :
  renderer (removeActorsRecursively part w)
  = filter (fun id => id ∉ handles part) (renderer w) /\
  partList (removeActorsRecursively part w) = partList w /\
  length (filter (fun e => e = Render)
            (drop (length (events w)) (events (removeActorsRecursively part w))))
  = length (parts part).
Proof.
  rewrite removeActorsRecursively_eq.
  cbn [with_rendering renderer partList events].
  split; [apply remove_ids_filter|]. split; [done|].
  rewrite drop_app_length. apply remove_trace_renders.
Qed.

(** X19.  A deletion that is carried out removes the selected part with
    everything below it and no other part: the addresses of the tree, in
    depth-first pre-order, are afterwards those from before without the
    run that belonged to the selected subtree; the renderer has lost the
    handles of that subtree and nothing else. *)
Theorem delete_removes_the_subtree_only a selectedItem w :
  tree_ok (root w) ->
  isValid (currentIndex w) = true ->
  internalPointer (currentIndex w) = Some a ->
  find_part a (root w) = Some selectedItem ->
  selectedItem ≠ root w ->
  ix_row (currentIndex w) = row (root w) selectedItem ->
  label selectedItem ≠ "Model" ->
  let w' := on_actionDeleteFile_triggered true w in
  (exists l1 l2,
     addrs (root w) = l1 ++ addrs selectedItem ++ l2 /\
     addrs (root w') = l1 ++ l2) /\
  renderer w' = filter (fun id => id ∉ handles selectedItem) (renderer w).
Proof.
  intros Hok Hv Hptr Hsel Hne Hrow Hlabel w'. subst w'.
  pose proof Hok as [Hnd _ _].
  apply find_part_Some in Hsel as Hsel'. destruct Hsel' as [Hin Ha]. subst a.
  unfold on_actionDeleteFile_triggered.
  rewrite Hv. cbn [negb].
  assert (ModelPartList.deref (internalPointer (currentIndex w)) (partList w)
          = Some selectedItem) as -> by (by rewrite Hptr).
  rewrite decide_False by done.
  rewrite removeActorsRecursively_eq.
  set (w1 := emit _ w).
  set (w2 := with_rendering _ _ w1).
  change (partList w2) with (partList w).
  destruct (parent_index (currentIndex w) selectedItem (partList w) Hok Hin Hne Hv Hptr)
    as (P & i & HP & Hi & Hrow').
  fold (root w) in Hrow'. rewrite Hrow, Hrow'.
  rewrite (removeRows_row i _ P selectedItem (partList w) HP Hi).
  apply deref_live in HP as [_ HPin].
  split.
  - cbn [emit root partList ModelPartList.rootItem].
    by apply addrs_removeChild_row.
  - cbn [emit renderer w2 with_rendering w1]. apply remove_ids_filter.
Qed.

Lemma delete_removes_the_subtree_only_witness :
  let w' := on_actionDeleteFile_triggered true w_selected in
  (exists l1 l2,
     addrs (root w_selected) = l1 ++ addrs w_selected_part ++ l2 /\
     addrs (root w') = l1 ++ l2) /\
  renderer w'
  = filter (fun id => id ∉ handles w_selected_part) (renderer w_selected).
Proof.
  apply (delete_removes_the_subtree_only 2%nat w_selected_part w_selected).
  - split; [by_evaluation|vm_compute; repeat constructor|reflexivity].
  - reflexivity.
  - reflexivity.
  - reflexivity.
  - discriminate.
  - reflexivity.
  - by vm_compute.
Defined.


(** X20.  Selecting and deleting: after the view has made the index of row
    [r] of a part [P] of the tree, in any column of the header, its current
    index, a delete request that is confirmed removes the part in that row,
    unless it is labelled "Model": afterwards no part of its subtree is in
    the tree, the children of [P] are the former ones without that row, and
    the one status message is "Item deleted successfully.". *)
Theorem select_then_delete r c parent P ch w :
  tree_ok (root w) ->
  ModelPartList.deref (ModelPartList.getItem parent (partList w)) (partList w)
  = Some P ->
  (isValid parent = true -> ix_column parent = 0) ->
  child r P = Some ch -> 0 <= c < columnCount (root w) ->
  label ch ≠ "Model" ->
  let w1 := setCurrentIndex (ModelPartList.index r c parent (partList w)) w in
  let w' := on_actionDeleteFile_triggered true w1 in
  (forall b, b ∈ addrs ch -> find_part b (root w') = None) /\
  (exists P',
     find_part (m_addr P) (root w') = Some P' /\
     m_childItems P' = delete (Z.to_nat r) (m_childItems P)) /\
  statusMessages (drop (length (events w)) (events w'))
  = [("Item deleted successfully.", 5000)].
Proof.
  intros Hok HP Hcol Hch Hc Hlabel w1 w'. pose proof Hok as [Hnd _ _].
  pose proof HP as HPl. apply deref_live in HPl as [_ HPin].
  apply child_Some in Hch as [Hr Hch].
  pose proof (lookup_lt_Some _ _ _ Hch) as Hlt.
  assert (currentIndex w1 = createIndex r c (m_addr ch)) as Hidx.
  { cbn [w1 setCurrentIndex currentIndex].
    rewrite (index_eq r c parent P (partList w) HP Hcol). unfold childCount.
    fold (root w).
    replace ((0 <=? r) && (r <? Z.of_nat (length (m_childItems P))) && (0 <=? c)
             && (c <? columnCount (root w))) with true by lia.
    by rewrite Hch. }
  assert (on_actionDeleteFile_triggered true w1
          = emit (StatusUpdateMessage "Item deleted successfully." 5000)
              (MainWindow.mk
                 (ModelPartList.mk
                    (update_part (m_addr P) (removeChild (Z.of_nat (Z.to_nat r)))
                       (root w1)))
                 (currentIndex w1)
                 (remove_ids (handles ch) (renderer w1))
                 (events w1
                  ++ [MessageBoxQuestion "Confirm Deletion"
                        "Are you sure you want to delete this item?"]
                  ++ remove_trace ch
                  ++ [BeginRemoveRows (index_for (root w1) P)
                        (Z.of_nat (Z.to_nat r)) (Z.of_nat (Z.to_nat r) + 1 - 1);
                      EndRemoveRows])
                 (next_part w1) (next_actor w1))) as Hdel.
  { apply on_actionDeleteFile_triggered_row; try done.
    - rewrite Hidx, isValid_createIndex. lia.
    - by rewrite Hidx.
    - rewrite Hidx. cbn [createIndex ix_row]. lia. }
  unfold w'. rewrite Hdel. change (root w1) with (root w).
  change (events w1) with (events w).
  rewrite root_emit. cbn [root partList ModelPartList.rootItem].
  fold (root w). split; [|split].
  - intros b Hb. apply find_part_None.
    destruct (addrs_removeChild_row (root w) P (Z.to_nat r) ch Hnd HPin Hch)
      as (l1 & l2 & E1 & E2).
    rewrite E2. rewrite E1 in Hnd.
    apply NoDup_app in Hnd as (_ & D1 & Hnd).
    apply NoDup_app in Hnd as (_ & D2 & _).
    intros [H|H]%elem_of_app.
    + apply (D1 b H). apply elem_of_app. by left.
    + by apply (D2 b Hb).
  - exists (removeChild (Z.of_nat (Z.to_nat r)) P). split.
    + apply find_update_same; try done.
      unfold removeChild. by destruct (_ || _).
    + rewrite removeChild_in_range by done. apply children_with_children.
  - cbn [emit events]. rewrite <- !app_assoc, drop_app_length.
    rewrite !statusMessages_app.
    by rewrite statusMessages_remove_trace.
Qed.

Lemma select_then_delete_witness :
  let w' := on_actionDeleteFile_triggered true w_selected in
  (forall b, b ∈ addrs w_selected_part -> find_part b (root w') = None) /\
  (exists P',
     find_part (m_addr (root w_loaded)) (root w') = Some P' /\
     m_childItems P' = delete (Z.to_nat 1) (m_childItems (root w_loaded))) /\
  statusMessages (drop (length (events w_loaded)) (events w'))
  = [("Item deleted successfully.", 5000)].
Proof.
  apply (select_then_delete 1 0 QModelIndex_invalid (root w_loaded)
           w_selected_part w_loaded).
  - split; [by_evaluation|vm_compute; repeat constructor|reflexivity].
  - reflexivity.
  - discriminate.
  - reflexivity.
  - by vm_compute.
  - by vm_compute.
Defined.

(** ** Sessions *)

(** The loaded part as it stands in [w_hidden]. *)
Lemma w_hidden_part_in_tree :
  default w_selected_part (find_part 2%nat (root w_hidden)) ∈ parts (root w_hidden).
Proof. vm_compute. repeat constructor. Qed.

(** X21.  Throughout a session (from the constructor of the window:
    selecting an index of the model, clicking on a part of the tree,
    completing a load, Item Options and deleting on a current index that
    is invalid or leads to a part of the tree, accepting a new group on a
    captured index of that kind, searching ASCII text; after a removal the
    view moves its current index to a row that is left or to none) the
    tree stays sound: no address occurs
    twice, every child points back to the part that holds it, the root has
    no parent, three columns and no actor, no render handle is held by two
    parts, and the addresses and handles in use are older than what the
    allocators hand out next. *)
Theorem session_keeps_the_tree_sound w : session w -> state_ok w.
Proof. intros Hw. by destruct (session_session_ok w Hw). Qed.

Lemma session_keeps_the_tree_sound_witness : state_ok w_hidden.
Proof. apply (session_keeps_the_tree_sound w_hidden). exact session_w_hidden. Defined.

(** X22.  Throughout a session (as in X21: every handler runs on an index
    that is invalid or leads to a part of the tree, a click is on a part,
    the view moves its current index after a removal, searches are in
    ASCII text) the header stays what the constructor of
    the model made it: three columns labelled "Part", "Visible?" and
    "Colour", and nothing outside these sections. *)
Theorem header_never_changes w :
  session w ->
  ModelPartList.columnCount QModelIndex_invalid (partList w) = 3 /\
  ModelPartList.headerData 0 Horizontal DisplayRole (partList w)
  = QVariant_str "Part" /\
  ModelPartList.headerData 1 Horizontal DisplayRole (partList w)
  = QVariant_str "Visible?" /\
  ModelPartList.headerData 2 Horizontal DisplayRole (partList w)
  = QVariant_str "Colour" /\
  forall section, section < 0 \/ 3 <= section ->
    ModelPartList.headerData section Horizontal DisplayRole (partList w)
    = QVariant_invalid.
Proof.
  intros Hw. destruct (session_session_ok w Hw) as [_ [_ Hh _] _ _].
  unfold ModelPartList.columnCount, ModelPartList.headerData, columnCount, data.
  fold (root w). rewrite Hh. cbn [DisplayRole Z.eqb].
  split; [done|]. split; [done|]. split; [done|]. split; [done|].
  intros section Hs. cbn [header length].
  replace ((section <? 0) || (Z.of_nat 3 <=? section)) with true by lia. done.
Qed.

Lemma header_never_changes_witness :
  ModelPartList.headerData 0 Horizontal DisplayRole (partList w_hidden)
  = QVariant_str "Part".
Proof.
  destruct (header_never_changes w_hidden) as (_ & H & _); [|exact H].
  exact session_w_hidden.
Defined.



(** X24.  Throughout a session (as in X21: every handler runs on an index
    that is invalid or leads to a part of the tree, a click is on a part,
    the view moves its current index after a removal, searches are in
    ASCII text) the tree shows what the scene shows: for
    every part that has a render handle, the column "Visible?" of its row
    reads "true" or "false" as its visibility flag is on or off, the column
    "Colour" reads the components of its colour, and its actor has that
    visibility and that diffuse colour. *)
Theorem loaded_parts_show_what_the_scene_shows p ac w :
  session w -> p ∈ parts (root w) -> getActor p = Some ac ->
  data 1 p = QVariant_str (if visible p then "true" else "false") /\
  data 2 p
  = QVariant_str
      (QString_number (red (color p)) ++ "," ++ QString_number (green (color p))
       ++ "," ++ QString_number (blue (color p))) /\
  actor_visibility ac = visible p /\
  actor_diffuse ac = (red (color p), green (color p), blue (color p)).
Proof.
  intros Hw Hp Hac. destruct (session_session_ok w Hw) as [_ [_ _ Hc] _ _].
  rewrite Forall_forall in Hc. destruct (Hc p Hp) as [_ Hs]. by apply Hs.
Qed.

Lemma loaded_parts_show_what_the_scene_shows_witness :
  let p := default w_selected_part (find_part 2%nat (root w_hidden)) in
  data 1 p = QVariant_str "false" /\
  actor_visibility (vtkActor_new 1%nat (ParseOk 0)) = true /\
  (actor_visibility <$> getActor p) = Some false.
Proof.
  intros p.
  destruct (loaded_parts_show_what_the_scene_shows p
              (SetDiffuseColor 255 255 255
                 (SetVisibility false (vtkActor_new 1%nat (ParseOk 0))))
              w_hidden) as (H1 & _ & _ & _).
  - exact session_w_hidden.
  - exact w_hidden_part_in_tree.
  - reflexivity.
  - split; [exact H1|]. split; reflexivity.
Defined.

(** X25.  Throughout a session (as in X21: every handler runs on an index
    that is invalid or leads to a part of the tree, a click is on a part,
    the view moves its current index after a removal, searches are in
    ASCII text) every cell the view can ask for has a text: the data of every valid index that the model makes, in the
    display role, is a string. *)
Theorem every_cell_has_a_text r c parent w :
  session w ->
  isValid (ModelPartList.index r c parent (partList w)) = true ->
  exists text,
    ModelPartList.data (ModelPartList.index r c parent (partList w)) DisplayRole
      (partList w)
    = QVariant_str text.
Proof.
  intros Hw. destruct (session_session_ok w Hw) as [Hs [_ Hh Hc] _ _].
  pose proof Hs as [[Hnd _ _] _ _ _ _ _].
  unfold ModelPartList.index.
  destruct (ModelPartList.hasIndex r c parent (partList w)) eqn:Eh;
    cbn [negb]; [|done].
  destruct (ModelPartList.deref _ (partList w)) as [P|] eqn:EP; [|done].
  cbn [mbind option_bind].
  destruct (child r P) as [ch|] eqn:Ech; [|done]. intros Hv.
  apply deref_live in EP as [_ HP]. apply child_Some in Ech as [_ Hch].
  assert (ch ∈ parts (root w)) as Hin.
  { eapply parts_trans; [exact HP|]. apply parts_child.
    by eapply list_elem_of_lookup_2. }
  unfold ModelPartList.data. rewrite Hv.
  cbn [negb orb Z.eqb DisplayRole internalPointer createIndex ix_column].
  rewrite deref_part by done.
  rewrite Forall_forall in Hc. destruct (Hc ch Hin) as [(x & y & z & Hd) _].
  unfold ModelPartList.hasIndex, ModelPartList.columnCount, columnCount in Eh.
  fold (root w) in Eh. rewrite Hh in Eh. cbn [header length] in Eh.
  destruct ((r <? 0) || (c <? 0)) eqn:E0; [done|].
  unfold data. rewrite Hd. cbn [length].
  replace ((c <? 0) || (Z.of_nat 3 <=? c)) with false by lia.
  assert (c = 0 \/ c = 1 \/ c = 2) as [->|[->| ->]] by lia; by eexists.
Qed.

Lemma every_cell_has_a_text_witness :
  exists text,
    ModelPartList.data
      (ModelPartList.index 1 2 QModelIndex_invalid (partList w_hidden))
      DisplayRole (partList w_hidden)
    = QVariant_str text.
Proof.
  apply (every_cell_has_a_text 1 2 QModelIndex_invalid w_hidden).
  - exact session_w_hidden.
  - reflexivity.
Defined.

(** X26.  Throughout a session (as in X21: every handler runs on an index
    that is invalid or leads to a part of the tree, a click is on a part,
    the view moves its current index after a removal, searches are in
    ASCII text) the current index of the view never points at the root,
    and when it is valid it leads to a part of the tree below the root:
    Item Options, the delete handler and the completion of a load never
    meet the root item or a part that is gone. *)
Theorem current_index_is_a_part_below_the_root w :
  session w ->
  internalPointer (currentIndex w)
  ≠ Some (ModelPartList.getRootItem (partList w)) /\
  (isValid (currentIndex w) = true ->
   exists p,
     ModelPartList.deref (internalPointer (currentIndex w)) (partList w) = Some p /\
     p ∈ parts (root w) /\ p ≠ root w).
Proof.
  intros Hw. destruct (session_session_ok w Hw) as [_ [Ht _ _] _ Hsel Hu].
  assert (internalPointer (currentIndex w)
          ≠ Some (ModelPartList.getRootItem (partList w))) as Hne.
  { unfold ModelPartList.getRootItem. fold (root w). by rewrite Ht. }
  split; [done|]. intros Hv. unfold usable in Hu. rewrite Hv in Hu.
  cbn [negb orb] in Hu. unfold live in Hu. apply bool_decide_eq_true in Hu as [p Hp].
  exists p. split; [done|]. destruct (deref_live _ _ _ Hp) as [Ha Hin].
  split; [done|]. intros ->. by apply Hne.
Qed.

Lemma current_index_is_a_part_below_the_root_witness :
  internalPointer (currentIndex w_hidden)
  ≠ Some (ModelPartList.getRootItem (partList w_hidden)) /\
  exists p,
    ModelPartList.deref (internalPointer (currentIndex w_hidden)) (partList w_hidden)
    = Some p /\
    p ∈ parts (root w_hidden) /\ p ≠ root w_hidden.
Proof.
  destruct (current_index_is_a_part_below_the_root w_hidden) as [H1 H2].
  - exact session_w_hidden.
  - split; [exact H1|]. apply H2. reflexivity.
Defined.


(** ** The signals of Item Options *)

(** X27.  What [applyPropertiesToPart] emits for a part of the tree: one
    [dataChanged], then, when the part has a render handle, the signals of
    a resync.  The bottom-right index of the [dataChanged] is always the
    invalid index (it is asked for the column after the last one), and the
    top-left index is made for the top-level row with the number [row()]
    of the part: it is the index of the part when the part is a child of
    the root, and it does not point at the part when the part lies
    deeper. *)
Theorem dataChanged_names_a_top_level_row a p name v c upd w :
  state_ok w -> find_part a (root w) = Some p ->
  exists start,
    events (applyPropertiesToPart (Some a) name v c upd w)
    = events w ++ [DataChanged start QModelIndex_invalid]
      ++ (if bool_decide (is_Some (getActor p))
          then [RemoveAllViewProps] ++ map AddActor (handles (root w)) ++ [Render]
          else []) /\
    (parentItem p = Some (m_addr (root w)) ->
     isValid start = true /\ internalPointer start = Some a) /\
    (parentItem p ≠ Some (m_addr (root w)) -> internalPointer start ≠ Some a).
Proof. intros Hok Hp. by apply applyPropertiesToPart_events. Qed.

Lemma dataChanged_names_a_top_level_row_witness :
  exists start,
    events (applyPropertiesToPart (Some 2%nat) "" true (mkQColor 255 0 0) false
              w_group)
    = events w_group ++ [DataChanged start QModelIndex_invalid] ++ [] /\
    internalPointer start ≠ Some 2%nat.
Proof.
  destruct (dataChanged_names_a_top_level_row 2%nat w_group_assembly "" true
              (mkQColor 255 0 0) false w_group) as (start & He & _ & Hs).
  - by destruct (session_session_ok _ session_w_group).
  - reflexivity.
  - exists start. split; [exact He|]. apply Hs. discriminate.
Defined.

End Properties.
